(** * HWC-POTREE-API: the job-processing core

    A shallow embedding of the job store ([storage/db.py]) and of the
    background worker ([worker.py]), and the properties of the written
    specification checked against them.

    - A MongoDB collection is a list of documents in natural (insertion)
      order; the collection primitives the code calls
      ([find_one], [insert_one], [update_one], [delete_many],
      [find_one_and_update]) are functions on that list.
    - [datetime] values are integers counting microseconds (the resolution
      of [datetime]); [timedelta(hours=h)] is [h * 3_600_000_000].  The
      database keeps whole milliseconds, and the worker measures the time
      since its last cleanup in floating point: both are modelled.
    - Every call that leaves the process (database driver, blob storage,
      file system, the point-cloud tools) may raise.  Which calls raise,
      what the others return and what [datetime.utcnow()] reads is given by
      an environment [Env]; the code is a function of it. *)

From Stdlib Require Import ZArith List String Bool Lia QArith.
Import ListNotations.
Local Open Scope string_scope.
Local Open Scope list_scope.
Local Open Scope Z_scope.

(* ================================================================== *)
(** ** Dates *)
(* ================================================================== *)

(** A [datetime], in microseconds. *)
Definition datetime := Z.

Definition timedelta_hours (h : Z) : Z := h * 3600000000.

(* ================================================================== *)
(** ** Python's division, in binary64 *)
(* ================================================================== *)

(** A double is given by a fraction whose denominator is a power of two.
    The differences of two datetimes stay below [10^20] microseconds, far
    from the largest and the smallest double, so that the range of the
    exponent plays no part. *)

(** [2^e] as a fraction: [pow2_num e / pow2_den e]. *)
Definition pow2_num (e : Z) : Z := 2 ^ Z.max e 0.
Definition pow2_den (e : Z) : Z := 2 ^ Z.max (- e) 0.

(** The integer nearest to [p / q], the even one of two that are equally
    near. *)
Definition round_half_even (p q : Z) : Z :=
  let n := p / q in
  let r := p mod q in
  if 2 * r <? q then n
  else if q <? 2 * r then n + 1
  else if Z.even n then n else n + 1.

(** The [k] with [2^k <= a / b < 2^(k+1)], for positive [a] and [b]. *)
Definition exponent (a b : Z) : Z :=
  let k := Z.log2 a - Z.log2 b in
  if b * pow2_num k <=? a * pow2_den k then k else k - 1.

(** [a / b] rounded to the nearest double, for [a >= 0] and [b > 0]:
    53 significant bits, ties to even.  The result is a fraction whose
    denominator is a power of two. *)
Definition round_double (a b : Z) : Z * Z :=
  if a =? 0 then (0, 1)
  else
    let e := exponent a b - 52 in
    let m := round_half_even (a * pow2_den e) (b * pow2_num e) in
    (m * pow2_num e, pow2_den e).

(** The correctly rounded quotient of [a] by [b > 0]. *)
Definition truediv (a b : Z) : Z * Z :=
  if a <? 0 then let (p, q) := round_double (- a) b in (- p, q)
  else round_double a b.

(** The order of two fractions with positive denominators. *)
Definition frac_le (x y : Z * Z) : Prop := fst x * snd y <= fst y * snd x.

(** [(current_time - last).total_seconds() / 3600 >= hours], as Python
    computes it: the microseconds of the difference divided by [10**6]
    (an integer division rounded once), the double divided by 3600, and
    the result compared with the integer exactly. *)
Definition interval_passed (current_time last : datetime) (hours : Z) : bool :=
  let total_seconds := truediv (current_time - last) 1000000 in
  let time_since_cleanup := truediv (fst total_seconds) (snd total_seconds * 3600) in
  hours * snd time_since_cleanup <=? fst time_since_cleanup.

(** A datetime as the database keeps it.  A BSON date counts whole
    milliseconds: the driver drops the microseconds below when it
    encodes a [datetime], in a document and in a query alike. *)
Definition bson_date (t : datetime) : datetime := t / 1000 * 1000.

(** The integers the driver can encode: those of 8 bytes. *)
Definition bson_int (n : Z) : bool := (- 2 ^ 63 <=? n) && (n <? 2 ^ 63).

(** What [time.sleep(secs)] raises for a whole number of seconds. *)
Definition time_sleep_raises (secs : Z) : option string :=
  if (secs <? - 9223372036) || (9223372036 <? secs)
  then Some "timestamp too large to convert to C _PyTime_t"
  else if secs <? 0 then Some "sleep length must be non-negative"
  else None.

(* ================================================================== *)
(** ** Job documents *)
(* ================================================================== *)

(** Modelled from the spec: the [Job] model class ([models/Job.py]) is not
    part of the sources at hand.  The fields are those of section 3 of the
    specification under the names the code uses ([azure_path] is the remote
    staging path); the optional ones default to [None] and [retry_count]
    to [0]. *)
Record Job : Type := mkJob {
  _id : string;
  project_id : string;
  status : string;
  current_step : option string;
  progress_message : option string;
  error_message : option string;
  file_path : string;
  azure_path : string;
  retry_count : Z;
  created_at : datetime;
  updated_at : datetime;
  completed_at : option datetime
}.

Definition Collection := list Job.

(** The document of a [$set] update: a field is written when it is a key of
    the document.  A key may carry the value [None], hence the nested
    options.  The dates are the Python values; [apply_set] stores them as
    BSON dates. *)
Record SetDoc : Type := mkSetDoc {
  set_status : option string;
  set_updated_at : option datetime;
  set_current_step : option (option string);
  set_progress_message : option (option string);
  set_error_message : option (option string);
  set_retry_count : option Z;
  set_completed_at : option datetime
}.

Definition or_keep {A : Type} (new : option A) (old : A) : A :=
  match new with
  | Some v => v
  | None => old
  end.

Definition apply_set (u : SetDoc) (d : Job) : Job :=
  {| _id := _id d;
     project_id := project_id d;
     status := or_keep (set_status u) (status d);
     current_step := or_keep (set_current_step u) (current_step d);
     progress_message := or_keep (set_progress_message u) (progress_message d);
     error_message := or_keep (set_error_message u) (error_message d);
     file_path := file_path d;
     azure_path := azure_path d;
     retry_count := or_keep (set_retry_count u) (retry_count d);
     created_at := created_at d;
     updated_at := or_keep (option_map bson_date (set_updated_at u)) (updated_at d);
     completed_at :=
       match set_completed_at u with
       | Some t => Some (bson_date t)
       | None => completed_at d
       end |}.

(* ================================================================== *)
(** ** Collection primitives *)
(* ================================================================== *)

Definition has_id (job_id : string) (d : Job) : bool := String.eqb (_id d) job_id.

Definition has_status (s : string) (d : Job) : bool := String.eqb (status d) s.

(** [collection.find_one(filter)] *)
Definition find_one (flt : Job -> bool) (c : Collection) : option Job :=
  List.find flt c.

(** A document as it is stored: its dates are BSON dates. *)
Definition bson_doc (d : Job) : Job :=
  {| _id := _id d;
     project_id := project_id d;
     status := status d;
     current_step := current_step d;
     progress_message := progress_message d;
     error_message := error_message d;
     file_path := file_path d;
     azure_path := azure_path d;
     retry_count := retry_count d;
     created_at := bson_date (created_at d);
     updated_at := bson_date (updated_at d);
     completed_at := option_map bson_date (completed_at d) |}.

(** [collection.insert_one(doc)] *)
Definition insert_one (d : Job) (c : Collection) : Collection := c ++ [bson_doc d].

(** [collection.update_one(filter, {'$set': u})]: the first matching
    document is updated, nothing is inserted when none matches. *)
Fixpoint update_one (flt : Job -> bool) (u : SetDoc) (c : Collection) : Collection :=
  match c with
  | [] => []
  | d :: r => if flt d then apply_set u d :: r else d :: update_one flt u r
  end.

(** [collection.delete_many(filter)], with its [deleted_count]. *)
Definition delete_many (flt : Job -> bool) (c : Collection) : Collection * Z :=
  (List.filter (fun d => negb (flt d)) c,
   Z.of_nat (List.length (List.filter flt c))).

(** The document [find_one_and_update(filter, ..., sort=[(key, 1)])] works
    on: among the matching documents one with the least key, the earliest
    in natural order among equals.  The collection is returned split around
    it. *)
Fixpoint select_first (flt : Job -> bool) (key : Job -> Z) (c : Collection)
  : option (Collection * Job * Collection) :=
  match c with
  | [] => None
  | d :: r =>
      match select_first flt key r with
      | Some (pre, m, post) =>
          if flt d && (key d <=? key m)
          then Some ([], d, r)
          else Some (d :: pre, m, post)
      | None => if flt d then Some ([], d, r) else None
      end
  end.

(** [collection.find_one_and_update(filter, {'$set': u}, sort=[(key, 1)],
    return_document=True)]: one step of the database; the updated document
    is returned. *)
Definition find_one_and_update (flt : Job -> bool) (u : SetDoc) (key : Job -> Z)
    (c : Collection) : option Job * Collection :=
  match select_first flt key c with
  | Some (pre, m, post) => (Some (apply_set u m), pre ++ apply_set u m :: post)
  | None => (None, c)
  end.

(* ================================================================== *)
(** ** storage/db.py: job management *)
(* ================================================================== *)

Inductive Result (A : Type) : Type :=
| Val (a : A)
| Exc (msg : string).
Arguments Val {A} a.
Arguments Exc {A} msg.

(** [DatabaseManager.create_job]; [t1] and [t2] are the two readings of
    [datetime.utcnow()]. *)
Definition create_job (t1 t2 : datetime) (proj file_path' azure_path' job_id : string)
    (c : Collection) : Result string * Collection :=
  match find_one (has_id job_id) c with
  | Some _ => (Exc ("Job with id " ++ job_id ++ " already exists")%string, c)
  | None =>
      let job :=
        {| _id := job_id;
           project_id := proj;
           status := "pending";
           current_step := None;
           progress_message := None;
           error_message := None;
           file_path := file_path';
           azure_path := azure_path';
           retry_count := 0;
           created_at := t1;
           updated_at := t2;
           completed_at := None |} in
      (Val job_id, insert_one job c)
  end.

(** [DatabaseManager.get_job] *)
Definition get_job (job_id : string) (c : Collection) : option Job :=
  find_one (has_id job_id) c.

(** The keyword arguments of [update_job_status] the function looks at; a
    key is present when its field is [Some]. *)
Record Kwargs : Type := mkKwargs {
  kw_current_step : option (option string);
  kw_progress_message : option (option string);
  kw_error_message : option (option string);
  kw_retry_count : option Z
}.

Definition no_kwargs : Kwargs :=
  {| kw_current_step := None; kw_progress_message := None;
     kw_error_message := None; kw_retry_count := None |}.

Definition is_terminal (s : string) : bool :=
  String.eqb s "completed" || String.eqb s "failed".

(** The dictionary [update_fields] built by [update_job_status]. *)
Definition update_fields (t1 t2 : datetime) (status' : string) (kw : Kwargs) : SetDoc :=
  {| set_status := Some status';
     set_updated_at := Some t1;
     set_current_step := kw_current_step kw;
     set_progress_message := kw_progress_message kw;
     set_error_message := kw_error_message kw;
     set_retry_count := kw_retry_count kw;
     set_completed_at := if is_terminal status' then Some t2 else None |}.

(** The exception of [update_job_status], if it raises one: the driver
    refuses a [retry_count] that does not fit 8 bytes when it encodes the
    update, before anything is sent. *)
Definition update_job_status_raises (kw : Kwargs) : option string :=
  match kw_retry_count kw with
  | Some n =>
      if bson_int n then None
      else Some "MongoDB can only handle up to 8-byte ints"
  | None => None
  end.

(** [DatabaseManager.update_job_status]: the collection after the call,
    which is the collection before it when the call raises. *)
Definition update_job_status (t1 t2 : datetime) (job_id status' : string) (kw : Kwargs)
    (c : Collection) : Collection :=
  match update_job_status_raises kw with
  | Some _ => c
  | None => update_one (has_id job_id) (update_fields t1 t2 status' kw) c
  end.

(** [DatabaseManager.cleanup_old_jobs]; the cutoff of the query is
    encoded as a BSON date. *)
Definition cleanup_old_jobs (now : datetime) (hours : Z) (c : Collection)
  : Collection * Z :=
  let cutoff_time := now - timedelta_hours hours in
  delete_many (fun d => created_at d <? bson_date cutoff_time) c.

(** [DatabaseManager.get_jobs_by_project] is not needed below. *)

(* ================================================================== *)
(** ** Projects and the point-cloud collaborators *)
(* ================================================================== *)

Record CRS : Type := mkCRS {
  crs_id : option string
}.

Record Location : Type := mkLocation {
  lat : Q;
  lon : Q;
  z : Q
}.

(** Modelled from the spec: the [Project] model class
    ([models/Project.py]) is not part of the sources at hand.  Section 3 of
    the specification lists what the pipeline writes (location,
    point_count, thumbnail URL, cloud URL) and the CRS given at creation. *)
Record Project : Type := mkProject {
  proj_id : string;
  name : string;
  crs : option CRS;
  location : option Location;
  point_count : option Z;
  thumbnail : option string;
  cloud : option string
}.

Definition with_location (l : Location) (p : Project) : Project :=
  {| proj_id := proj_id p; name := name p; crs := crs p; location := Some l;
     point_count := point_count p; thumbnail := thumbnail p; cloud := cloud p |}.

Definition with_point_count (n : Z) (p : Project) : Project :=
  {| proj_id := proj_id p; name := name p; crs := crs p; location := location p;
     point_count := Some n; thumbnail := thumbnail p; cloud := cloud p |}.

Definition with_thumbnail (url : string) (p : Project) : Project :=
  {| proj_id := proj_id p; name := name p; crs := crs p; location := location p;
     point_count := point_count p; thumbnail := Some url; cloud := cloud p |}.

Definition with_cloud (url : string) (p : Project) : Project :=
  {| proj_id := proj_id p; name := name p; crs := crs p; location := location p;
     point_count := point_count p; thumbnail := thumbnail p; cloud := Some url |}.

(** A Python dictionary with string keys, as an association list. *)
Definition dict (V : Type) := list (string * V).

Fixpoint dict_get {V : Type} (k : string) (d : dict V) : option V :=
  match d with
  | [] => None
  | (k', v) :: r => if String.eqb k' k then Some v else dict_get k r
  end.

(** What [CloudMetadata.summary()] returns: the point count under
    ['points'] and, under ['center'], a dictionary whose values may be
    [None] (the key may also be missing or the dictionary empty). *)
Record Metadata : Type := mkMetadata {
  md_points : Z;
  md_center : option (dict (option Q))
}.

(** [center.get(k) if center.get(k) is not None else 0.0] *)
Definition center_value (k : string) (center : dict (option Q)) : Q :=
  match dict_get k center with
  | Some (Some v) => v
  | _ => 0%Q
  end.

(** The extension-to-content-type table of [_upload_potree_output]. *)
Definition content_type_map : dict string :=
  [ (".html", "text/html");
    (".js", "application/javascript");
    (".json", "application/json");
    (".bin", "application/octet-stream");
    (".css", "text/css");
    (".png", "image/png");
    (".jpg", "image/jpeg") ].

Definition content_type (ext : string) : string :=
  match dict_get ext content_type_map with
  | Some t => t
  | None => "application/octet-stream"
  end.

(* ================================================================== *)
(** ** The worker's environment and state *)
(* ================================================================== *)

(** The calls that leave the process, by their place in [worker.py]. *)
Inductive Call : Type :=
| FindOneAndUpdate          (* get_next_job *)
| CleanupOldJobs            (* db.cleanup_old_jobs in _check_and_run_cleanup *)
| GetProject                (* db.getProject *)
| UpdMetadata               (* update_job_status, step 1 *)
| CloudMetadataSummary      (* CloudMetadata(...).summary() *)
| UpdThumbnail              (* update_job_status, step 2 *)
| ThumbnailGenerate         (* generate_from_las *)
| ThumbnailUpload           (* az.upload_bytes of the thumbnail *)
| ThumbnailSas              (* az.generate_sas_url of the thumbnail *)
| UpdateProject1            (* db.updateProject after the thumbnail *)
| UpdConversion             (* update_job_status, step 5 *)
| MkDtemp                   (* tempfile.mkdtemp *)
| Convert                   (* PotreeConverter().convert *)
| UpdUpload                 (* update_job_status, step 6 *)
| PotreeUploadBytes (k : nat)  (* az.upload_bytes of the k-th output file *)
| PotreeSas                 (* az.generate_sas_url of the manifest *)
| UpdateProject2            (* db.updateProject with the cloud URL *)
| UpdCompleted              (* update_job_status, step 8 *)
| UpdFailed                 (* update_job_status in mark_failed *)
| OsRemove                  (* os.remove in cleanup_temp_files *)
| DeleteBlob                (* az.delete_blob in cleanup_temp_files *)
| Rmtree.                   (* shutil.rmtree of the output directory *)

(** The places where [datetime.utcnow()] is read. *)
Inductive Clock : Type :=
| ClockCheck (force : bool)   (* current_time of _check_and_run_cleanup *)
| ClockPurge (force : bool)   (* inside the cleanup_old_jobs it calls *)
| ClockClaim                  (* get_next_job *)
| ClockUpdated (c : Call)     (* updated_at in update_job_status called at c *)
| ClockCompleted (c : Call).  (* completed_at in the same call *)

(** What is observed of a run, in order: the calls made (whether or not
    they raise), the entry of [cleanup_temp_files] and the sleeps of the
    loop. *)
Inductive Event : Type :=
| Called (c : Call)
| CleanupTempFiles (job_id : string)
| Sleep.

Record Env : Type := mkEnv {
  fault : Call -> option string;      (* [Some msg]: the call raises, str(e) = msg *)
  utcnow : Clock -> datetime;
  summary : Metadata;                 (* result of CloudMetadata.summary() *)
  thumbnail_sas_url : string;
  mkdtemp : string;                   (* the directory tempfile.mkdtemp creates *)
  walk : list (string * string);      (* os.walk of the output directory:
                                         relative path and lower-cased extension *)
  potree_sas_url : string;
  stop_called : bool                  (* stop() is called during the iteration *)
}.

(** The fields of a [JobWorker] instance (the database handle is the
    collections of [State]). *)
Record JobWorker : Type := mkJobWorker {
  poll_interval : Z;
  cleanup_interval_hours : Z;
  last_cleanup_time : option datetime;
  running : bool
}.

Record State : Type := mkState {
  self : JobWorker;
  jobsCollection : Collection;
  projectsCollection : list Project;
  files : list string;             (* local paths that exist *)
  blobs : list string;             (* blob names that exist *)
  trace : list Event;
  output_dir : option string       (* the local [output_dir] of the running
                                      process_job; [None] while unbound *)
}.

Definition set_self (w : JobWorker) (s : State) : State :=
  {| self := w; jobsCollection := jobsCollection s;
     projectsCollection := projectsCollection s; files := files s;
     blobs := blobs s; trace := trace s; output_dir := output_dir s |}.

Definition set_jobs (c : Collection) (s : State) : State :=
  {| self := self s; jobsCollection := c;
     projectsCollection := projectsCollection s; files := files s;
     blobs := blobs s; trace := trace s; output_dir := output_dir s |}.

Definition set_projects (ps : list Project) (s : State) : State :=
  {| self := self s; jobsCollection := jobsCollection s;
     projectsCollection := ps; files := files s;
     blobs := blobs s; trace := trace s; output_dir := output_dir s |}.

Definition set_files (fs : list string) (s : State) : State :=
  {| self := self s; jobsCollection := jobsCollection s;
     projectsCollection := projectsCollection s; files := fs;
     blobs := blobs s; trace := trace s; output_dir := output_dir s |}.

Definition set_blobs (bs : list string) (s : State) : State :=
  {| self := self s; jobsCollection := jobsCollection s;
     projectsCollection := projectsCollection s; files := files s;
     blobs := bs; trace := trace s; output_dir := output_dir s |}.

Definition set_trace (t : list Event) (s : State) : State :=
  {| self := self s; jobsCollection := jobsCollection s;
     projectsCollection := projectsCollection s; files := files s;
     blobs := blobs s; trace := t; output_dir := output_dir s |}.

Definition set_output_dir (o : option string) (s : State) : State :=
  {| self := self s; jobsCollection := jobsCollection s;
     projectsCollection := projectsCollection s; files := files s;
     blobs := blobs s; trace := trace s; output_dir := o |}.

(* ================================================================== *)
(** ** State and exceptions *)
(* ================================================================== *)

Definition M (A : Type) : Type := State -> Result A * State.

Definition ret {A : Type} (a : A) : M A := fun s => (Val a, s).

Definition bind {A B : Type} (m : M A) (k : A -> M B) : M B :=
  fun s =>
    match m s with
    | (Val a, s') => k a s'
    | (Exc msg, s') => (Exc msg, s')
    end.

Definition raise {A : Type} (msg : string) : M A := fun s => (Exc msg, s).

(** [try: m  except Exception as e: h(str(e))] *)
Definition try_except {A : Type} (m : M A) (h : string -> M A) : M A :=
  fun s =>
    match m s with
    | (Val a, s') => (Val a, s')
    | (Exc msg, s') => h msg s'
    end.

Definition get : M State := fun s => (Val s, s).

Definition modify (f : State -> State) : M unit := fun s => (Val tt, f s).

Declare Scope worker_scope.
Delimit Scope worker_scope with worker.
Notation "x <- m ;; k" := (bind m (fun x => k))
  (at level 100, m at next level, right associativity) : worker_scope.
Notation "m ;; k" := (bind m (fun _ => k))
  (at level 100, right associativity) : worker_scope.
Local Open Scope worker_scope.

Definition emit (e : Event) : M unit :=
  modify (fun s => set_trace (trace s ++ [e]) s).

Definition when (b : bool) (m : M unit) : M unit := if b then m else ret tt.

Definition truthy (s : string) : bool := negb (String.eqb s "").

Definition exists_path (p : string) (fs : list string) : bool :=
  List.existsb (String.eqb p) fs.

Definition remove_path (p : string) (fs : list string) : list string :=
  List.filter (fun q => negb (String.eqb p q)) fs.

Definition add_path (p : string) (fs : list string) : list string :=
  if exists_path p fs then fs else fs ++ [p].

(** The [$set] document of [get_next_job]. *)
Definition claim_set (t : datetime) : SetDoc :=
  {| set_status := Some "processing";
     set_updated_at := Some t;
     set_current_step := None;
     set_progress_message := None;
     set_error_message := None;
     set_retry_count := None;
     set_completed_at := None |}.

(* ================================================================== *)
(** ** worker.py: JobWorker *)
(* ================================================================== *)

Section Worker.

Variable env : Env.

(** A call that leaves the process: it is recorded, then it raises or
    returns as the environment says.  A call that raises has no effect. *)
Definition call (c : Call) : M unit :=
  emit (Called c) ;;
  match fault env c with
  | Some msg => raise msg
  | None => ret tt
  end.

(** [self.db.update_job_status(...)] made at the place [c].  An update
    the driver cannot encode raises before the database is reached. *)
Definition db_update_job_status (c : Call) (job_id status' : string) (kw : Kwargs)
  : M unit :=
  match update_job_status_raises kw with
  | Some msg => emit (Called c) ;; raise msg
  | None =>
      call c ;;
      modify (fun s =>
        set_jobs (update_job_status (utcnow env (ClockUpdated c))
                    (utcnow env (ClockCompleted c)) job_id status' kw
                    (jobsCollection s)) s)
  end.

(** [self.db.getProject({'_id': project_id})]: the first project with the
    id, [None] when there is none. *)
Definition db_getProject (project_id' : string) : M (option Project) :=
  call GetProject ;;
  s <- get ;;
  ret (List.find (fun p => String.eqb (proj_id p) project_id') (projectsCollection s)).

Fixpoint replace_project (p : Project) (ps : list Project) : list Project :=
  match ps with
  | [] => []
  | q :: r => if String.eqb (proj_id q) (proj_id p) then p :: r
              else q :: replace_project p r
  end.

(** [self.db.updateProject(project)] made at the place [c]. *)
Definition db_updateProject (c : Call) (p : Project) : M unit :=
  call c ;;
  modify (fun s => set_projects (replace_project p (projectsCollection s)) s).

(** [self.db.az.upload_bytes(..., blob_name, overwrite=True)] at [c]. *)
Definition az_upload_bytes (c : Call) (blob_name : string) : M unit :=
  call c ;;
  modify (fun s => set_blobs (add_path blob_name (blobs s)) s).

(** [JobWorker._check_and_run_cleanup].  The hours since the last cleanup
    are the double [(current_time - last).total_seconds() / 3600].  The
    three branches of the source are kept: the forced and the regular
    one make the same test. *)
Definition _check_and_run_cleanup (force : bool) : M unit :=
  s <- get ;;
  let current_time := utcnow env (ClockCheck force) in
  let should_cleanup :=
    match last_cleanup_time (self s) with
    | None => true
    | Some last =>
        let due :=
          interval_passed current_time last (cleanup_interval_hours (self s)) in
        if force then (if due then true else false)
        else (if due then true else false)
    end in
  when should_cleanup
    (try_except
       (call CleanupOldJobs ;;
        modify (fun s =>
          set_jobs (fst (cleanup_old_jobs (utcnow env (ClockPurge force)) 72
                           (jobsCollection s))) s) ;;
        modify (fun s =>
          set_self {| poll_interval := poll_interval (self s);
                      cleanup_interval_hours := cleanup_interval_hours (self s);
                      last_cleanup_time := Some current_time;
                      running := running (self s) |} s))
       (fun _ => ret tt)).

(** [JobWorker.get_next_job].  The document returned by the database is
    one [create_job] has written, so that building the [Job] object from
    its fields goes through. *)
Definition get_next_job : M (option Job) :=
  try_except
    (call FindOneAndUpdate ;;
     s <- get ;;
     let (result, c') :=
       find_one_and_update (has_status "pending")
         (claim_set (utcnow env ClockClaim))
         created_at (jobsCollection s) in
     modify (set_jobs c') ;;
     ret result)
    (fun _ => ret None).

(** [JobWorker.cleanup_temp_files] *)
Definition cleanup_temp_files (job : Job) : M unit :=
  emit (CleanupTempFiles (_id job)) ;;
  s <- get ;;
  when (truthy (file_path job) && exists_path (file_path job) (files s))
    (try_except
       (call OsRemove ;;
        modify (fun s => set_files (remove_path (file_path job) (files s)) s))
       (fun _ => ret tt)) ;;
  when (truthy (azure_path job))
    (try_except
       (call DeleteBlob ;;
        modify (fun s => set_blobs (remove_path (azure_path job) (blobs s)) s))
       (fun _ => ret tt)).

(** [JobWorker.mark_failed] *)
Definition mark_failed (job : Job) (error_message' : string) : M unit :=
  db_update_job_status UpdFailed (_id job) "failed"
    {| kw_current_step := None;
       kw_progress_message := Some (Some "Processing failed");
       kw_error_message := Some (Some error_message');
       kw_retry_count := None |}.

(** [s.replace(a, b)] for single characters. *)
Fixpoint replace_char (a b : Ascii.ascii) (s : string) : string :=
  match s with
  | EmptyString => EmptyString
  | String c r =>
      String (if Ascii.eqb c a then b else c) (replace_char a b r)
  end.

(** The name of the blob of an output file: the path under the project
    id, with slashes for backslashes. *)
Definition potree_blob_name (project_id' rel_path : string) : string :=
  replace_char (Ascii.ascii_of_nat 92) (Ascii.ascii_of_nat 47)
    (project_id' ++ "/" ++ rel_path)%string.

(** The loop of [_upload_potree_output] over the files [os.walk] finds,
    from the [k]-th on. *)
Fixpoint upload_files (project_id' : string) (k : nat) (fs : list (string * string))
  : M unit :=
  match fs with
  | [] => ret tt
  | (rel_path, ext) :: r =>
      let blob_name := potree_blob_name project_id' rel_path in
      let _ := content_type ext in
      az_upload_bytes (PotreeUploadBytes k) blob_name ;;
      upload_files project_id' (S k) r
  end.

(** [JobWorker._upload_potree_output] *)
Definition _upload_potree_output (output_dir' project_id' : string) : M string :=
  upload_files project_id' 0 (walk env) ;;
  let viewer_blob := (project_id' ++ "/metadata.json")%string in
  call PotreeSas ;;
  ret (potree_sas_url env).

Definition step_kwargs (step message : string) : Kwargs :=
  {| kw_current_step := Some (Some step);
     kw_progress_message := Some (Some message);
     kw_error_message := None;
     kw_retry_count := None |}.

(** [shutil.rmtree(output_dir)] under its existence test. *)
Definition rmtree_if_exists : M unit :=
  s <- get ;;
  match output_dir s with
  | Some d =>
      when (truthy d && exists_path d (files s))
        (call Rmtree ;;
         modify (fun s => set_files (remove_path d (files s)) s))
  | None => ret tt
  end.

(** The inner [try] of [process_job]: thumbnail generation and upload.
    The project object gets its thumbnail URL only when all of it went
    through; any exception is logged and dropped. *)
Definition thumbnail_step (project : Project) : M Project :=
  try_except
    (call ThumbnailGenerate ;;
     let thumbnail_blob_name := (proj_id project ++ "/thumbnail.png")%string in
     az_upload_bytes ThumbnailUpload thumbnail_blob_name ;;
     call ThumbnailSas ;;
     ret (with_thumbnail (thumbnail_sas_url env) project))
    (fun _ => ret project).

(** The body of the outer [try] of [process_job]. *)
Definition process_job_try (job : Job) : M unit :=
  found <- db_getProject (project_id job) ;;
  match found with
  | None => raise ("Project " ++ project_id job ++ " not found")%string
  | Some project =>
      (* Step 1: extract metadata *)
      db_update_job_status UpdMetadata (_id job) "processing"
        (step_kwargs "metadata" "Extracting point cloud metadata...") ;;
      let crs_epsg :=
        match crs project with
        | Some c =>
            match crs_id c with
            | Some i => if truthy i then Some ("EPSG:" ++ i)%string else None
            | None => None
            end
        | None => None
        end in
      call CloudMetadataSummary ;;
      let metadata := summary env in
      let project :=
        match md_center metadata with
        | Some ((_ :: _) as center) =>
            with_location
              {| lat := center_value "lat" center;
                 lon := center_value "lon" center;
                 z := center_value "z" center |} project
        | _ => project
        end in
      let project :=
        if md_points metadata =? 0 then project
        else with_point_count (md_points metadata) project in
      (* Step 2: generate the thumbnail *)
      db_update_job_status UpdThumbnail (_id job) "processing"
        (step_kwargs "thumbnail" "Generating thumbnail...") ;;
      project <- thumbnail_step project ;;
      (* Step 4: update the project with metadata and thumbnail *)
      db_updateProject UpdateProject1 project ;;
      (* Step 5: run PotreeConverter *)
      db_update_job_status UpdConversion (_id job) "processing"
        (step_kwargs "conversion" "Converting to Potree format...") ;;
      call MkDtemp ;;
      modify (fun s =>
        set_output_dir (Some (mkdtemp env))
          (set_files (add_path (mkdtemp env) (files s)) s)) ;;
      call Convert ;;
      (* Step 6: upload the Potree output *)
      db_update_job_status UpdUpload (_id job) "processing"
        (step_kwargs "upload" "Uploading Potree files to Azure...") ;;
      cloud_url <- _upload_potree_output (mkdtemp env) (proj_id project) ;;
      (* Step 7: update the project with the cloud URL *)
      let project := with_cloud cloud_url project in
      db_updateProject UpdateProject2 project ;;
      (* Step 8: mark the job as completed *)
      db_update_job_status UpdCompleted (_id job) "completed"
        (step_kwargs "completed" "Processing completed successfully") ;;
      (* Step 9: cleanup *)
      cleanup_temp_files job ;;
      try_except rmtree_if_exists (fun _ => ret tt)
  end.

(** [JobWorker.process_job] *)
Definition process_job (job : Job) : M unit :=
  modify (set_output_dir None) ;;
  try_except (process_job_try job)
    (fun e =>
       mark_failed job e ;;
       (* Cleanup even on failure *)
       cleanup_temp_files job ;;
       try_except rmtree_if_exists (fun _ => ret tt)).

(** [time.sleep(self.poll_interval)]: the length is converted to a
    64-bit count of nanoseconds, which raises [OverflowError] beyond
    9223372036 seconds either way; a negative length is then refused
    with a [ValueError]. *)
Definition time_sleep : M unit :=
  s <- get ;;
  match time_sleep_raises (poll_interval (self s)) with
  | Some msg => raise msg
  | None => emit Sleep
  end.

(** One turn of the [while self.running] loop of [JobWorker.start].  The
    [time.sleep] of the handler is not guarded: its exception leaves the
    turn. *)
Definition loop_body : M unit :=
  try_except
    (_check_and_run_cleanup false ;;
     job <- get_next_job ;;
     match job with
     | Some j =>
         process_job j ;;
         _check_and_run_cleanup true
     | None => time_sleep
     end)
    (fun _ => time_sleep).

(** [JobWorker.stop], called from outside while the loop runs. *)
Definition stop : M unit :=
  modify (fun s =>
    set_self {| poll_interval := poll_interval (self s);
                cleanup_interval_hours := cleanup_interval_hours (self s);
                last_cleanup_time := last_cleanup_time (self s);
                running := false |} s).

End Worker.

(** [JobWorker.start]: the loop runs one turn per environment while
    [self.running] holds; a turn during which [stop()] is called is the
    last, and so is a turn that raises: its exception leaves [start]. *)
Fixpoint run_loop (envs : list Env) (s : State) : State :=
  match envs with
  | [] => s
  | e :: r =>
      if running (self s) then
        let s1 := snd (loop_body e s) in
        let s2 := if stop_called e then snd (stop s1) else s1 in
        match fst (loop_body e s) with
        | Val _ => run_loop r s2
        | Exc _ => s2
        end
      else s
  end.

Definition start (envs : list Env) (s : State) : State :=
  run_loop envs
    (set_self {| poll_interval := poll_interval (self s);
                 cleanup_interval_hours := cleanup_interval_hours (self s);
                 last_cleanup_time := last_cleanup_time (self s);
                 running := true |} s).


(* ================================================================== *)
(** ** Vocabulary of the statements *)
(* ================================================================== *)

(** [j'] is [j] moved to [processing] at time [t], nothing else touched. *)
Definition claimed_from (t : datetime) (j j' : Job) : Prop :=
  status j' = "processing" /\ updated_at j' = t /\
  _id j' = _id j /\ project_id j' = project_id j /\
  current_step j' = current_step j /\
  progress_message j' = progress_message j /\
  error_message j' = error_message j /\
  file_path j' = file_path j /\ azure_path j' = azure_path j /\
  retry_count j' = retry_count j /\ created_at j' = created_at j /\
  completed_at j' = completed_at j.


(** The order of the statuses, pending -> processing -> {completed |
    failed}, and of the steps, metadata -> thumbnail -> conversion ->
    upload -> completed (a job that has no step yet comes first). *)
Definition status_rank (s : string) : nat :=
  if String.eqb s "pending" then 0
  else if String.eqb s "processing" then 1
  else if String.eqb s "completed" then 2
  else if String.eqb s "failed" then 2
  else 0.

Definition step_rank (s : option string) : nat :=
  match s with
  | None => 0
  | Some s =>
      if String.eqb s "metadata" then 1
      else if String.eqb s "thumbnail" then 2
      else if String.eqb s "conversion" then 3
      else if String.eqb s "upload" then 4
      else if String.eqb s "completed" then 5
      else 0
  end%nat.

(** Neither the status nor the step of [d'] is behind that of [d]. *)
Definition not_regressed (d d' : Job) : Prop :=
  (status_rank (status d) <= status_rank (status d'))%nat /\
  (step_rank (current_step d) <= step_rank (current_step d'))%nat.

(** The fields no call of [update_job_status] writes. *)
Definition same_identity (d d' : Job) : Prop :=
  _id d' = _id d /\ project_id d' = project_id d /\
  file_path d' = file_path d /\ azure_path d' = azure_path d /\
  created_at d' = created_at d.

(** The optional fields are as before unless their keyword was given. *)
Definition unsupplied_kept (kw : Kwargs) (d d' : Job) : Prop :=
  (kw_current_step kw = None -> current_step d' = current_step d) /\
  (kw_progress_message kw = None -> progress_message d' = progress_message d) /\
  (kw_error_message kw = None -> error_message d' = error_message d) /\
  (kw_retry_count kw = None -> retry_count d' = retry_count d).

(** "Only the supplied fields plus [updated_at] are modified": every field
    other than [status], [updated_at] and the keywords given is as
    before, [completed_at] among them. *)
Definition only_supplied_modified (kw : Kwargs) (d d' : Job) : Prop :=
  same_identity d d' /\ unsupplied_kept kw d d' /\
  completed_at d' = completed_at d.

(** The same with [completed_at] allowed to change when the status given
    is [completed] or [failed]. *)
Definition only_supplied_or_completed_at_modified
    (status' : string) (kw : Kwargs) (d d' : Job) : Prop :=
  same_identity d d' /\ unsupplied_kept kw d d' /\
  (is_terminal status' = false -> completed_at d' = completed_at d).

Definition Job_eq_dec (a b : Job) : {a = b} + {a <> b}.
Proof.
  decide equality;
    try apply Z.eq_dec; try apply string_dec;
    try (decide equality; (apply Z.eq_dec || apply string_dec)).
Defined.

Definition example_job (job_id status' : string) (step : option string)
    (created done : Z) : Job :=
  {| _id := job_id; project_id := "P-1"; status := status';
     current_step := step; progress_message := None;
     error_message := if String.eqb status' "failed" then Some "boom" else None;
     file_path := "/tmp/in.laz"; azure_path := "jobs/in.laz";
     retry_count := 0; created_at := created; updated_at := created;
     completed_at := if is_terminal status' then Some done else None |}.

(** The state after the call [c] has been recorded. *)
Definition logged (e : Event) (s : State) : State :=
  set_trace (trace s ++ [e]) s.

(** [s] with other local files and blobs and with the events [evs]
    recorded after its own. *)
Definition touched (fs bs : list string) (evs : list Event) (s : State) : State :=
  set_files fs (set_blobs bs (set_trace (trace s ++ evs) s)).

(** Whether the guard of [shutil.rmtree(output_dir)] holds in [s]. *)
Definition rmtree_due (s : State) : bool :=
  match output_dir s with
  | Some d => truthy d && exists_path d (files s)
  | None => false
  end.

(** The events of uploading the [k]-th to the [(k+n-1)]-th output file. *)
Definition upload_events (k n : nat) : list Event :=
  map (fun i => Called (PotreeUploadBytes i)) (seq k n).


(** The calls of the thumbnail step, the only ones whose exceptions the
    pipeline swallows. *)
Definition thumbnail_call (c : Call) : bool :=
  match c with
  | ThumbnailGenerate | ThumbnailUpload | ThumbnailSas => true
  | _ => false
  end.

(** The thumbnail step goes through: none of its calls raises. *)
Definition thumbnail_ok (env : Env) : bool :=
  match fault env ThumbnailGenerate, fault env ThumbnailUpload,
        fault env ThumbnailSas with
  | None, None, None => true
  | _, _, _ => false
  end.

Definition is_cleanup (e : Event) : bool :=
  match e with
  | CleanupTempFiles _ => true
  | _ => false
  end.

Definition is_rmtree (e : Event) : bool :=
  match e with
  | Called Rmtree => true
  | _ => false
  end.

Definition count (p : Event -> bool) (evs : list Event) : nat :=
  List.length (filter p evs).

(* ================================================================== *)
(** ** A concrete scenario *)
(* ================================================================== *)

Definition Call_eq_dec (a b : Call) : {a = b} + {a <> b}.
Proof. decide equality. apply Nat.eq_dec. Defined.

(** An environment in which exactly the calls listed raise, with the
    messages given; the clock reads [now] everywhere. *)
Definition example_env (now : datetime) (faults : list (Call * string)) : Env :=
  {| fault := fun c =>
       match List.find (fun p => if Call_eq_dec (fst p) c then true else false)
                       faults with
       | Some (_, msg) => Some msg
       | None => None
       end;
     utcnow := fun _ => now;
     summary := {| md_points := 1200;
                   md_center := Some [("lat", Some (1#2)); ("lon", None)] |};
     thumbnail_sas_url := "https://blobs/P-1/thumbnail.png?sas";
     mkdtemp := "/tmp/potree_J1_a";
     walk := [("metadata.json", ".json"); ("octree.bin", ".bin")];
     potree_sas_url := "https://blobs/P-1/metadata.json?sas";
     stop_called := false |}.

(** A clock that reads [late] at the check behind a job and [early]
    everywhere else. *)
Definition late_check_env (early late : datetime) : Env :=
  {| fault := fun _ => None;
     utcnow := fun c => match c with
                        | ClockCheck true | ClockPurge true => late
                        | _ => early
                        end;
     summary := summary (example_env early []);
     thumbnail_sas_url := thumbnail_sas_url (example_env early []);
     mkdtemp := mkdtemp (example_env early []);
     walk := walk (example_env early []);
     potree_sas_url := potree_sas_url (example_env early []);
     stop_called := false |}.

(** The calls of the reaper. *)
Definition is_reaper (e : Event) : bool :=
  match e with
  | Called CleanupOldJobs => true
  | _ => false
  end.

Definition example_project : Project :=
  {| proj_id := "P-1"; name := "Survey";
     crs := Some {| crs_id := Some "26916" |};
     location := None; point_count := None;
     thumbnail := None; cloud := None |}.

Definition example_worker (last : option datetime) : JobWorker :=
  {| poll_interval := 5; cleanup_interval_hours := 1;
     last_cleanup_time := last; running := true |}.

(** A worker and a store holding the jobs [c] and the example project;
    the staged input file and blob of the example jobs exist. *)
Definition example_state (last : option datetime) (c : Collection) : State :=
  {| self := example_worker last;
     jobsCollection := c;
     projectsCollection := [example_project];
     files := ["/tmp/in.laz"];
     blobs := ["jobs/in.laz"];
     trace := [];
     output_dir := None |}.


(** The place of a call in the sequence of the pipeline; the calls of the
    exception handler and of the cleanup have none. *)
Definition position (c : Call) : option nat :=
  match c with
  | GetProject => Some 0
  | UpdMetadata => Some 1
  | CloudMetadataSummary => Some 2
  | UpdThumbnail => Some 3
  | ThumbnailGenerate => Some 4
  | ThumbnailUpload => Some 5
  | ThumbnailSas => Some 6
  | UpdateProject1 => Some 7
  | UpdConversion => Some 8
  | MkDtemp => Some 9
  | Convert => Some 10
  | UpdUpload => Some 11
  | PotreeUploadBytes _ => Some 12
  | PotreeSas => Some 13
  | UpdateProject2 => Some 14
  | UpdCompleted => Some 15
  | _ => None
  end%nat.


(* ================================================================== *)
(** ** Vocabulary: the schedule of the reaper *)
(* ================================================================== *)

(** The test of [_check_and_run_cleanup] at time [now]: no cleanup has
    succeeded yet, or the hours since the last one, as the code computes
    them, are at least [cleanup_interval_hours]. *)
Definition cleanup_due (w : JobWorker) (now : datetime) : bool :=
  match last_cleanup_time w with
  | None => true
  | Some last => interval_passed now last (cleanup_interval_hours w)
  end.

(* ================================================================== *)
(** ** Vocabulary: the stores the system can be in *)
(* ================================================================== *)

Definition completed_at_iff_terminal (c : Collection) : Prop :=
  forall d, In d c -> (completed_at d <> None <-> is_terminal (status d) = true).

Definition terminal_has_completed_at (c : Collection) : Prop :=
  forall d, In d c -> is_terminal (status d) = true -> completed_at d <> None.

(** No document with the id [job_id] is finished. *)
Definition live (job_id : string) (c : Collection) : Prop :=
  forall d, In d c -> _id d = job_id ->
            completed_at d = None /\ is_terminal (status d) = false.

(** The states produced by [create_job], by [update_job_status] called
    with any arguments, and by the turns of the worker loop, from a state
    without jobs. *)
Inductive produced : State -> Prop :=
| produced_empty (s : State) :
    jobsCollection s = [] -> produced s
| produced_create_job (s : State) (t1 t2 : datetime)
    (proj file_path' azure_path' job_id : string) :
    produced s ->
    produced (set_jobs (snd (create_job t1 t2 proj file_path' azure_path' job_id
                               (jobsCollection s))) s)
| produced_update_job_status (s : State) (t1 t2 : datetime)
    (job_id status' : string) (kw : Kwargs) :
    produced s ->
    produced (set_jobs (update_job_status t1 t2 job_id status' kw
                          (jobsCollection s)) s)
| produced_loop_body (s : State) (env : Env) :
    produced s -> produced (snd (loop_body env s)).

(** The states of the running system: jobs are enqueued by [create_job],
    everything else is done by the worker loop, the only caller of
    [update_job_status]. *)
Inductive reachable : State -> Prop :=
| reachable_empty (s : State) :
    jobsCollection s = [] -> reachable s
| reachable_create_job (s : State) (t1 t2 : datetime)
    (proj file_path' azure_path' job_id : string) :
    reachable s ->
    reachable (set_jobs (snd (create_job t1 t2 proj file_path' azure_path' job_id
                                (jobsCollection s))) s)
| reachable_loop_body (s : State) (env : Env) :
    reachable s -> reachable (snd (loop_body env s)).

(** A turn of the loop after its first cleanup check: the claim, the job
    if there is one, the second check or the sleep. *)
Definition loop_rest (env : Env) (s1 : State) : State :=
  let s2 := snd (get_next_job env s1) in
  match fst (get_next_job env s1) with
  | Val (Some j) =>
      let s3 := snd (process_job env j s2) in
      match fst (process_job env j s2) with
      | Val _ => snd (_check_and_run_cleanup env true s3)
      | Exc _ => snd (time_sleep s3)
      end
  | _ => snd (time_sleep s2)
  end.

(** Ids are unique (MongoDB enforces it on [_id]; [create_job] checks
    before it inserts) and [completed_at] tells the finished jobs. *)
Definition consistent (c : Collection) : Prop :=
  NoDup (map _id c) /\ completed_at_iff_terminal c.

(* ================================================================== *)
(** ** Vocabulary: concurrent claims *)
(* ================================================================== *)

(** A caller of [get_next_job]: it has not made its call yet (its
    environment tells what its clock reads and whether the database
    answers it), or it has got its result. *)
Inductive Caller : Type :=
| Waiting (env : Env)
| Returned (result : option Job).

(** Several callers on one store. *)
Record System : Type := mkSystem {
  store : State;
  callers : list Caller
}.

Definition returned_value (r : Result (option Job)) : option Job :=
  match r with
  | Val o => o
  | Exc _ => None
  end.

(** A step of the system: one waiting caller, any of them, runs
    [get_next_job].  The function makes one call to the database,
    [find_one_and_update], which the database runs as one operation, so
    the runs of concurrent callers are the sequences of such steps. *)
Inductive claim_step : System -> System -> Prop :=
| claim_step_call (s : State) (pre post : list Caller) (e : Env) :
    claim_step
      (mkSystem s (pre ++ Waiting e :: post))
      (mkSystem (snd (get_next_job e s))
                (pre ++ Returned (returned_value (fst (get_next_job e s))) :: post)).

(** [sys] is reached from [sys0] by some steps. *)
Inductive claim_steps (sys0 : System) : System -> Prop :=
| claim_steps_none : claim_steps sys0 sys0
| claim_steps_more (sys sys' : System) :
    claim_steps sys0 sys -> claim_step sys sys' -> claim_steps sys0 sys'.

Definition is_waiting (c : Caller) : bool :=
  match c with
  | Waiting _ => true
  | Returned _ => false
  end.

Definition got_job (c : Caller) : bool :=
  match c with
  | Returned (Some _) => true
  | _ => false
  end.

(** All calls have returned. *)
Definition settled (sys : System) : Prop :=
  forall c, In c (callers sys) -> is_waiting c = false.

Definition count_status (st : string) (s : State) : nat :=
  List.length (filter (has_status st) (jobsCollection s)).

(** A caller that has returned without a job while the job was still
    pending: its database call raised. *)
Definition lost_call (c0 c : Caller) : Prop :=
  c = c0 \/
  exists e msg, c0 = Waiting e /\ fault e FindOneAndUpdate = Some msg /\
                c = Returned None.

(** What holds of every system reached from [sys0], in which [j] is the
    one pending job: either [j] is still pending and nobody has got a
    job, or [j] has been claimed by exactly one caller. *)
Definition one_winner (sys0 : System) (j : Job) (sys : System) : Prop :=
  (jobsCollection (store sys) = jobsCollection (store sys0) /\
   Forall2 lost_call (callers sys0) (callers sys))
  \/
  (filter (has_status "pending") (jobsCollection (store sys)) = [] /\
   count_status "processing" (store sys) =
     S (count_status "processing" (store sys0)) /\
   exists j', filter got_job (callers sys) = [Returned (Some j')] /\
              _id j' = _id j /\ status j' = "processing").


(** [c'] comes from [c] by calls of [update_job_status] none of which
    moves a status or a step backward. *)
Inductive moves_forward (c : Collection) : Collection -> Prop :=
| moves_forward_refl : moves_forward c c
| moves_forward_update (c1 : Collection) (t1 t2 : datetime)
    (job_id status' : string) (kw : Kwargs) :
    moves_forward c c1 ->
    Forall2 not_regressed c1 (update_job_status t1 t2 job_id status' kw c1) ->
    moves_forward c (update_job_status t1 t2 job_id status' kw c1).

(** The documents with the id [job_id] are at most at status rank [a] and
    step rank [b]. *)
Definition at_most (job_id : string) (a b : nat) (c : Collection) : Prop :=
  forall d, In d c -> _id d = job_id ->
            (status_rank (status d) <= a)%nat /\
            (step_rank (current_step d) <= b)%nat.

(** The step rank the documents are at after a call with keywords [kw]. *)
Definition step_rank_after (kw : Kwargs) (b : nat) : nat :=
  match kw_current_step kw with
  | Some s => step_rank s
  | None => b
  end.
From Stdlib Require Import Sorted Permutation.


(* ================================================================== *)
(** ** storage/db.py: the rest of the job and project management *)
(* ================================================================== *)

(** [cursor.sort('created_at', -1)]: by [created_at], newest first; here
    documents of equal date keep their natural order. *)
Fixpoint insert_newest_first (d : Job) (l : list Job) : list Job :=
  match l with
  | [] => [d]
  | x :: r =>
      if created_at x <=? created_at d then d :: x :: r
      else x :: insert_newest_first d r
  end.

Definition sort_newest_first (l : list Job) : list Job :=
  fold_right insert_newest_first [] l.

(** [DatabaseManager.get_jobs_by_project] *)
Definition get_jobs_by_project (project_id' : string) (c : Collection) : list Job :=
  sort_newest_first
    (filter (fun d => String.eqb (project_id d) project_id') c).

(** [DatabaseManager.getProject({'_id': id})]: the first result of the
    query, [None] when there is none. *)
Definition getProject (id : string) (ps : list Project) : option Project :=
  List.find (fun p => String.eqb (proj_id p) id) ps.

(** [DatabaseManager.exists('Project', {'_id': id})] *)
Definition exists_ (id : string) (ps : list Project) : bool :=
  match List.find (fun p => String.eqb (proj_id p) id) ps with
  | Some _ => true
  | None => false
  end.

(** [DatabaseManager.addProject]: a project whose id is taken is skipped,
    without an error. *)
Definition addProject (project : Project) (ps : list Project) : list Project :=
  if exists_ (proj_id project) ps then ps else ps ++ [project].

(** [DatabaseManager.updateProject] is [replace_project]. *)
Definition updateProject (project : Project) (ps : list Project) : list Project :=
  replace_project project ps.

(** [DatabaseManager.getProjectsList] *)
Fixpoint getProjectsList (payload : list string) (ps : list Project) : list Project :=
  match payload with
  | [] => []
  | id :: r =>
      match getProject id ps with
      | Some project => project :: getProjectsList r ps
      | None => getProjectsList r ps
      end
  end.

(** [projectsCollection.delete_one({'_id': id})] *)
Fixpoint delete_one (id : string) (ps : list Project) : list Project :=
  match ps with
  | [] => []
  | q :: r => if String.eqb (proj_id q) id then r else q :: delete_one id r
  end.

(** An exception as a route handler sees it: FastAPI's [HTTPException]
    or any other. *)
Inductive Raised : Type :=
| HTTPException (status_code : nat) (detail : string)
| OtherException (msg : string).

Inductive Outcome (A : Type) : Type :=
| Returns (a : A)
| Raises (e : Raised).
Arguments Returns {A} a.
Arguments Raises {A} e.

(** The calls [deleteProject] makes and that may raise: the query of
    [getProject], [delete_one], and [az.delete_blob]. *)
Record DeleteFaults : Type := mkDeleteFaults {
  query_raises : option string;
  delete_one_raises : option string;
  delete_blob_raises : option string
}.

(** [DatabaseManager.deleteProject], on the project collection and the
    blobs.  The exception of [az.delete_blob] is caught and printed; the
    blob deleted is the one named by the id. *)
Definition deleteProject (f : DeleteFaults) (id : string)
    (ps : list Project) (bs : list string)
  : Outcome bool * list Project * list string :=
  match query_raises f with
  | Some msg => (Raises (OtherException msg), ps, bs)
  | None =>
      match getProject id ps with
      | None => (Returns false, ps, bs)
      | Some project =>
          match delete_one_raises f with
          | Some msg => (Raises (OtherException msg), ps, bs)
          | None =>
              let ps' := delete_one id ps in
              let bs' :=
                match delete_blob_raises f with
                | Some _ => bs
                | None => remove_path id bs
                end in
              (Returns true, ps', bs')
          end
      end
  end.

(* ================================================================== *)
(** ** routes/jobs.py and routes/projects.py *)
(* ================================================================== *)

(** The two [except] clauses the routes that answer 404 end with:
    [except HTTPException: raise] and
    [except Exception as e: raise HTTPException(500, detail(str(e)))]. *)
Definition http_errors {A : Type} (detail : string -> string) (body : Outcome A)
  : Outcome A :=
  match body with
  | Returns a => Returns a
  | Raises (HTTPException code d) => Raises (HTTPException code d)
  | Raises (OtherException msg) => Raises (HTTPException 500 (detail msg))
  end.

(** [str.lower()] on the letters A to Z.  The characters outside ASCII
    are left as they are: none of them lowers to a letter of the two
    words the routes look for. *)
Definition lower_char (a : Ascii.ascii) : Ascii.ascii :=
  let n := Ascii.nat_of_ascii a in
  if ((65 <=? n) && (n <=? 90))%nat then Ascii.ascii_of_nat (n + 32) else a.

Fixpoint lower (s : string) : string :=
  match s with
  | EmptyString => EmptyString
  | String a r => String (lower_char a) (lower r)
  end.

(** [needle in hay] *)
Fixpoint contains (needle hay : string) : bool :=
  String.prefix needle hay ||
  match hay with
  | EmptyString => false
  | String _ r => contains needle r
  end.


(* ================================================================== *)
(** ** Strings as the routes use them *)
(* ================================================================== *)

Module str.

(** A Python [str] as the list of its code points. *)
Definition text : Type := list N.

(** [str.isspace] of one character: the code points Python takes for
    whitespace. *)
Definition isspace (c : N) : bool :=
  ((9 <=? c) && (c <=? 13) || (28 <=? c) && (c <=? 32) ||
   (c =? 133) || (c =? 160) || (c =? 5760) ||
   (8192 <=? c) && (c <=? 8202) ||
   (c =? 8232) || (c =? 8233) || (c =? 8239) || (c =? 8287) ||
   (c =? 12288))%N.

Fixpoint lstrip (s : text) : text :=
  match s with
  | [] => []
  | c :: r => if isspace c then lstrip r else s
  end.

Definition rstrip (s : text) : text := rev (lstrip (rev s)).

(** [s.strip()] *)
Definition strip (s : text) : text := rstrip (lstrip s).

(** [s.split(sep)] for a separator of one character. *)
Fixpoint split (sep : N) (s : text) : list text :=
  match s with
  | [] => [[]]
  | c :: r =>
      if (c =? sep)%N then [] :: split sep r
      else match split sep r with
           | h :: t => (c :: h) :: t
           | [] => [[c]]
           end
  end.

Definition startswith (c : N) (s : text) : bool :=
  match s with
  | [] => false
  | a :: _ => (a =? c)%N
  end.

Definition endswith (c : N) (s : text) : bool := startswith c (rev s).

End str.

Module routes_jobs.

(** [GET /jobs/{job_id}]; [db] tells whether [DB.get_job] raises. *)
Definition get_job (db : option string) (job_id : string) (c : Collection)
  : Outcome Job :=
  http_errors (fun _ => "Failed to retrieve job from database")
    match db with
    | Some msg => Raises (OtherException msg)
    | None =>
        match get_job job_id c with
        | None =>
            Raises (HTTPException 404 ("Job with id " ++ job_id ++ " not found")%string)
        | Some job => Returns job
        end
    end.

(** [GET /jobs/project/{project_id}]: one [except Exception] clause
    around the call of the database. *)
Definition get_jobs_by_project (db : option string) (project_id' : string)
    (c : Collection) : Outcome (list Job) :=
  match db with
  | Some msg =>
      Raises (HTTPException 500 "Failed to retrieve jobs from database")
  | None => Returns (get_jobs_by_project project_id' c)
  end.

End routes_jobs.

Module routes_projects.

(** [[u.strip() for u in l if u.strip()]] *)
Definition stripped_nonempty (l : list str.text) : list str.text :=
  filter (fun t => match t with [] => false | _ => true end) (map str.strip l).

(** [parse_tags] for a string or [None].  [json_loads s] is
    [[str(t) for t in json.loads(s)]], [None] when [json.loads] raises;
    44, 91 and 93 are the comma and the two square brackets. *)
Definition parse_tags (json_loads : str.text -> option (list str.text))
    (raw : option str.text) : list str.text :=
  match raw with
  | None => []
  | Some [] => []
  | Some raw =>
      let s := str.strip raw in
      let by_comma := stripped_nonempty (str.split 44 s) in
      if str.startswith 91 s && str.endswith 93 s then
        match json_loads s with
        | Some arr => stripped_nonempty arr
        | None => by_comma
        end
      else by_comma
  end.

(** [GET /projects/{id}] *)
Definition get_project (db : option string) (id : string) (ps : list Project)
  : Outcome Project :=
  http_errors (fun _ => "Failed to retrieve project from database")
    match db with
    | Some msg => Raises (OtherException msg)
    | None =>
        match getProject id ps with
        | None =>
            Raises (HTTPException 404 ("Project with id " ++ id ++ " not found")%string)
        | Some data => Returns data
        end
    end.

(** [DELETE /projects/{id}/delete]; [db] tells whether the route's own
    [DB.getProject] raises, [f] which calls of [DB.deleteProject] do.
    The body returned is the message. *)
Definition delete_project (db : option string) (f : DeleteFaults) (id : string)
    (ps : list Project) (bs : list string)
  : Outcome string * list Project * list string :=
  let detail (e : string) :=
    if contains "azure" (lower e) || contains "blob" (lower e)
    then "Failed to delete project files from Azure storage"
    else "Failed to delete project" in
  match db with
  | Some msg => (http_errors detail (Raises (OtherException msg)), ps, bs)
  | None =>
      match getProject id ps with
      | None =>
          (http_errors detail
             (Raises (HTTPException 404
                        ("Project with id " ++ id ++ " not found")%string)),
           ps, bs)
      | Some _ =>
          match deleteProject f id ps bs with
          | (Returns _, ps', bs') =>
              (http_errors detail
                 (Returns ("Deleted project with id " ++ id)%string), ps', bs')
          | (Raises e, ps', bs') => (http_errors detail (Raises e), ps', bs')
          end
      end
  end.

End routes_projects.

(* ================================================================== *)
(** ** Vocabulary of the further statements *)
(* ================================================================== *)

Definition is_sleep (e : Event) : bool :=
  match e with
  | Sleep => true
  | _ => false
  end.

(** The claim attempts, one per turn of the loop. *)
Definition is_claim (e : Event) : bool :=
  match e with
  | Called FindOneAndUpdate => true
  | _ => false
  end.

(** What [time.sleep(self.poll_interval)] adds to the trace: nothing when
    it raises. *)
Definition sleep_events (w : JobWorker) : list Event :=
  match time_sleep_raises (poll_interval w) with
  | Some _ => []
  | None => [Sleep]
  end.

(** The step a status update of the pipeline announces. *)
Definition step_of (c : Call) : option string :=
  match c with
  | UpdMetadata => Some "metadata"
  | UpdThumbnail => Some "thumbnail"
  | UpdConversion => Some "conversion"
  | UpdUpload => Some "upload"
  | UpdCompleted => Some "completed"
  | _ => None
  end.

(** The steps whose status update was made in [evs] and accepted by the
    database, in the order of the calls. *)
Fixpoint accepted_steps (env : Env) (evs : list Event) : list string :=
  match evs with
  | [] => []
  | Called c :: r =>
      match step_of c, fault env c with
      | Some st, None => st :: accepted_steps env r
      | _, _ => accepted_steps env r
      end
  | _ :: r => accepted_steps env r
  end.

(* ================================================================== *)
(** * Facts about the rounded quotients *)
(* ================================================================== *)

Lemma pow2_num_pos e : 0 < pow2_num e.
Proof. unfold pow2_num. apply Z.pow_pos_nonneg; lia. Qed.

Lemma pow2_den_pos e : 0 < pow2_den e.
Proof. unfold pow2_den. apply Z.pow_pos_nonneg; lia. Qed.

(** [2^(u - v) = 2^u / 2^v] *)
Lemma pow2_quotient u v :
  0 <= u -> 0 <= v -> pow2_num (u - v) * 2 ^ v = pow2_den (u - v) * 2 ^ u.
Proof.
  intros Hu Hv. unfold pow2_num, pow2_den.
  destruct (Z.le_ge_cases v u) as [H|H].
  - replace (Z.max (u - v) 0) with (u - v) by lia.
    replace (Z.max (- (u - v)) 0) with 0 by lia.
    rewrite Z.pow_0_r, <- Z.pow_add_r by lia.
    replace (u - v + v) with u by lia. lia.
  - replace (Z.max (u - v) 0) with 0 by lia.
    replace (Z.max (- (u - v)) 0) with (v - u) by lia.
    rewrite Z.pow_0_r, <- Z.pow_add_r by lia.
    replace (v - u + u) with v by lia. lia.
Qed.

(** [2^e2 = 2^(e2 - e1) * 2^e1] *)
Lemma pow2_shift e1 e2 :
  e1 <= e2 ->
  pow2_num e2 * pow2_den e1 = 2 ^ (e2 - e1) * (pow2_num e1 * pow2_den e2).
Proof.
  intros H. unfold pow2_num, pow2_den.
  destruct (Z.le_ge_cases 0 e1) as [H1|H1]; destruct (Z.le_ge_cases 0 e2) as [H2|H2].
  - replace (Z.max e2 0) with e2 by lia. replace (Z.max e1 0) with e1 by lia.
    replace (Z.max (- e1) 0) with 0 by lia. replace (Z.max (- e2) 0) with 0 by lia.
    rewrite Z.pow_0_r, !Z.mul_1_r, <- Z.pow_add_r by lia. f_equal; lia.
  - assert (e1 = 0) by lia. assert (e2 = 0) by lia. subst. reflexivity.
  - replace (Z.max e2 0) with e2 by lia. replace (Z.max e1 0) with 0 by lia.
    replace (Z.max (- e1) 0) with (- e1) by lia. replace (Z.max (- e2) 0) with 0 by lia.
    rewrite Z.pow_0_r, !Z.mul_1_r, <- Z.pow_add_r by lia. f_equal; lia.
  - replace (Z.max e2 0) with 0 by lia. replace (Z.max e1 0) with 0 by lia.
    replace (Z.max (- e1) 0) with (- e1) by lia. replace (Z.max (- e2) 0) with (- e2) by lia.
    rewrite Z.pow_0_r, !Z.mul_1_l, <- Z.pow_add_r by lia. f_equal; lia.
Qed.

Lemma pow2_le e1 e2 :
  e1 <= e2 -> pow2_num e1 * pow2_den e2 <= pow2_num e2 * pow2_den e1.
Proof.
  intros H. rewrite (pow2_shift e1 e2 H).
  assert (0 < 2 ^ (e2 - e1)) by (apply Z.pow_pos_nonneg; lia).
  pose proof (pow2_num_pos e1). pose proof (pow2_den_pos e2). nia.
Qed.

Lemma pow2_lt e1 e2 :
  e1 < e2 -> 2 * (pow2_num e1 * pow2_den e2) <= pow2_num e2 * pow2_den e1.
Proof.
  intros H. rewrite (pow2_shift e1 e2) by lia.
  assert (2 ^ 1 <= 2 ^ (e2 - e1)) by (apply Z.pow_le_mono_r; lia).
  pose proof (pow2_num_pos e1). pose proof (pow2_den_pos e2).
  change (2 ^ 1) with 2 in *. nia.
Qed.

Lemma exponent_spec a b :
  0 < a -> 0 < b ->
  let k := exponent a b in
  b * pow2_num k <= a * pow2_den k /\
  a * pow2_den (k + 1) < b * pow2_num (k + 1).
Proof.
  intros Ha Hb. cbv zeta. unfold exponent.
  destruct (Z.log2_spec a Ha) as [La Ua].
  destruct (Z.log2_spec b Hb) as [Lb Ub].
  pose proof (Z.log2_nonneg a) as Na. pose proof (Z.log2_nonneg b) as Nb.
  set (la := Z.log2 a) in *. set (lb := Z.log2 b) in *.
  assert (Hup : a * pow2_den (la - lb + 1) < b * pow2_num (la - lb + 1)).
  { pose proof (pow2_quotient (la + 1) lb ltac:(lia) ltac:(lia)) as Q.
    replace (la + 1 - lb) with (la - lb + 1) in Q by lia.
    replace (Z.succ la) with (la + 1) in Ua by lia.
    pose proof (pow2_num_pos (la - lb + 1)). pose proof (pow2_den_pos (la - lb + 1)).
    assert (0 < 2 ^ lb) by (apply Z.pow_pos_nonneg; lia).
    apply Z.mul_lt_mono_pos_r with (p := 2 ^ lb); auto.
    set (X := 2 ^ lb) in *. set (Y := 2 ^ (la + 1)) in *.
    set (N := pow2_num (la - lb + 1)) in *. set (D := pow2_den (la - lb + 1)) in *.
    apply Z.lt_le_trans with (Y * D * X).
    - apply Z.mul_lt_mono_pos_r; auto. apply Z.mul_lt_mono_pos_r; auto.
    - replace (Y * D * X) with (N * X * X) by (rewrite Q; ring).
      replace (b * N * X) with (N * X * b) by ring.
      apply Z.mul_le_mono_nonneg_l; nia. }
  destruct (Z.leb_spec (b * pow2_num (la - lb)) (a * pow2_den (la - lb))) as [Hk|Hk].
  - split; auto.
  - replace (la - lb - 1 + 1) with (la - lb) by lia. split; [|lia].
    pose proof (pow2_quotient la (lb + 1) ltac:(lia) ltac:(lia)) as Q.
    replace (la - (lb + 1)) with (la - lb - 1) in Q by lia.
    replace (Z.succ lb) with (lb + 1) in Ub by lia.
    pose proof (pow2_num_pos (la - lb - 1)). pose proof (pow2_den_pos (la - lb - 1)).
    assert (0 < 2 ^ (lb + 1)) by (apply Z.pow_pos_nonneg; lia).
    apply Z.mul_le_mono_pos_r with (p := 2 ^ (lb + 1)); auto.
    set (X := 2 ^ (lb + 1)) in *. set (Y := 2 ^ la) in *.
    set (N := pow2_num (la - lb - 1)) in *. set (D := pow2_den (la - lb - 1)) in *.
    apply Z.le_trans with (X * N * X).
    + apply Z.mul_le_mono_nonneg_r; [lia|]. apply Z.mul_le_mono_nonneg_r; lia.
    + replace (X * N * X) with (D * Y * X) by (rewrite <- Q; ring).
      replace (a * D * X) with (D * a * X) by ring.
      apply Z.mul_le_mono_nonneg_r; [lia|]. apply Z.mul_le_mono_nonneg_l; lia.
Qed.

Lemma round_half_even_near p q :
  0 < q ->
  let m := round_half_even p q in
  2 * q * m - q <= 2 * p <= 2 * q * m + q /\
  (2 * p = 2 * q * m - q -> Z.even m = true) /\
  (2 * p = 2 * q * m + q -> Z.even m = true).
Proof.
  intros Hq. cbv zeta. unfold round_half_even.
  pose proof (Z.div_mod p q ltac:(lia)) as E.
  pose proof (Z.mod_pos_bound p q Hq) as B.
  set (n := p / q) in *. set (r := p mod q) in *.
  destruct (Z.ltb_spec (2 * r) q) as [H1|H1].
  - split; [nia|]. split; intros H; exfalso; nia.
  - destruct (Z.ltb_spec q (2 * r)) as [H2|H2].
    + split; [nia|]. split; intros H; exfalso; nia.
    + assert (Hr : 2 * r = q) by lia.
      destruct (Z.even n) eqn:En.
      * split; [nia|]. split; intros H; auto.
      * split; [nia|]. split; intros H.
        -- rewrite Z.even_add, En. reflexivity.
        -- exfalso. nia.
Qed.

Lemma round_half_even_mono p q p' q' :
  0 < q -> 0 < q' -> p * q' <= p' * q ->
  round_half_even p q <= round_half_even p' q'.
Proof.
  intros Hq Hq' Hle.
  destruct (round_half_even_near p q Hq) as ([L _] & T & _).
  destruct (round_half_even_near p' q' Hq') as ([_ U'] & _ & T').
  set (m := round_half_even p q) in *. set (m' := round_half_even p' q') in *.
  destruct (Z.le_gt_cases m m') as [|Hgt]; auto. exfalso.
  assert (H1 : (2 * q * m - q) * q' <= (2 * q' * m' + q') * q) by nia.
  assert (H2 : q * q' * (2 * m - 1) <= q * q' * (2 * m' + 1)) by nia.
  assert (Hqq : 0 < q * q') by nia.
  assert (H3 : 2 * m - 1 <= 2 * m' + 1)
    by (apply Z.mul_le_mono_pos_l with (p := q * q'); auto).
  assert (Hm : m' = m - 1) by lia.
  assert (E1 : 2 * p = 2 * q * m - q) by nia.
  assert (E2 : 2 * p' = 2 * q' * m' + q') by nia.
  specialize (T E1). specialize (T' E2).
  rewrite Hm in T'. replace (m - 1) with (m + (-1)) in T' by lia.
  rewrite Z.even_add, T in T'. discriminate T'.
Qed.

Lemma round_half_even_exact n q : 0 < q -> round_half_even (n * q) q = n.
Proof.
  intros Hq. unfold round_half_even.
  rewrite Z.div_mul, Z.mod_mul by lia.
  destruct (Z.ltb_spec (2 * 0) q); [reflexivity | lia].
Qed.

(** The significand has 53 bits. *)
Lemma round_double_significand a b :
  0 < a -> 0 < b ->
  let e := exponent a b - 52 in
  2 ^ 52 <= round_half_even (a * pow2_den e) (b * pow2_num e) <= 2 ^ 53.
Proof.
  intros Ha Hb e.
  destruct (exponent_spec a b Ha Hb) as [L U].
  set (k := exponent a b) in *.
  pose proof (pow2_num_pos e) as Pe. pose proof (pow2_den_pos e) as De.
  pose proof (pow2_num_pos k) as Pk. pose proof (pow2_den_pos k) as Dk.
  pose proof (pow2_num_pos (k + 1)) as Pk1. pose proof (pow2_den_pos (k + 1)) as Dk1.
  pose proof (pow2_shift e k ltac:(unfold e; lia)) as S1.
  pose proof (pow2_shift e (k + 1) ltac:(unfold e; lia)) as S2.
  replace (k - e) with 52 in S1 by (unfold e; lia).
  replace (k + 1 - e) with 53 in S2 by (unfold e; lia).
  assert (Hq : 0 < b * pow2_num e) by nia.
  split.
  - rewrite <- (round_half_even_exact (2 ^ 52) (b * pow2_num e) Hq).
    apply round_half_even_mono; auto.
    (* 2^52 * b * P e * (b P e) <= a D e * (b P e) *)
    apply Z.mul_le_mono_nonneg_r; [lia|].
    apply Z.mul_le_mono_pos_r with (p := pow2_den k); auto.
    replace (2 ^ 52 * (b * pow2_num e) * pow2_den k)
      with (b * (2 ^ 52 * (pow2_num e * pow2_den k))) by ring.
    rewrite <- S1.
    replace (b * (pow2_num k * pow2_den e)) with (b * pow2_num k * pow2_den e) by ring.
    replace (a * pow2_den e * pow2_den k) with (a * pow2_den k * pow2_den e) by ring.
    apply Z.mul_le_mono_nonneg_r; lia.
  - rewrite <- (round_half_even_exact (2 ^ 53) (b * pow2_num e) Hq).
    apply round_half_even_mono; auto.
    apply Z.mul_le_mono_nonneg_r; [lia|].
    apply Z.mul_le_mono_pos_r with (p := pow2_den (k + 1)); auto.
    replace (2 ^ 53 * (b * pow2_num e) * pow2_den (k + 1))
      with (b * (2 ^ 53 * (pow2_num e * pow2_den (k + 1)))) by ring.
    rewrite <- S2.
    replace (b * (pow2_num (k + 1) * pow2_den e))
      with (b * pow2_num (k + 1) * pow2_den e) by ring.
    replace (a * pow2_den e * pow2_den (k + 1))
      with (a * pow2_den (k + 1) * pow2_den e) by ring.
    apply Z.mul_le_mono_nonneg_r; lia.
Qed.

Lemma exponent_mono a b a' b' :
  0 < a -> 0 < b -> 0 < a' -> 0 < b' -> a * b' <= a' * b ->
  exponent a b <= exponent a' b'.
Proof.
  intros Ha Hb Ha' Hb' Hle.
  destruct (exponent_spec a b Ha Hb) as [L _].
  destruct (exponent_spec a' b' Ha' Hb') as [_ U'].
  set (k := exponent a b) in *. set (k' := exponent a' b') in *.
  destruct (Z.le_gt_cases k k') as [|Hgt]; auto. exfalso.
  pose proof (pow2_le (k' + 1) k ltac:(lia)) as P.
  pose proof (pow2_num_pos k) as Pk. pose proof (pow2_den_pos k) as Dk.
  pose proof (pow2_num_pos (k' + 1)) as Pk1. pose proof (pow2_den_pos (k' + 1)) as Dk1.
  set (N := pow2_num k) in *. set (D := pow2_den k) in *.
  set (N' := pow2_num (k' + 1)) in *. set (D' := pow2_den (k' + 1)) in *.
  (* b N <= a D ; a' D' < b' N' ; a b' <= a' b ; N' D <= N D' *)
  assert (H1 : b * N * (b' * D') <= a * D * (b' * D')) by (apply Z.mul_le_mono_nonneg_r; nia).
  assert (H2 : a * D * (b' * D') <= a' * b * (D * D')).
  { replace (a * D * (b' * D')) with (a * b' * (D * D')) by ring.
    apply Z.mul_le_mono_nonneg_r; nia. }
  assert (H3 : a' * b * (D * D') < b' * N' * (b * D)).
  { replace (a' * b * (D * D')) with (a' * D' * (b * D)) by ring.
    apply Z.mul_lt_mono_pos_r; nia. }
  assert (H4 : b' * N' * (b * D) <= b' * b * (N * D')).
  { replace (b' * N' * (b * D)) with (b' * b * (N' * D)) by ring.
    apply Z.mul_le_mono_nonneg_l; nia. }
  replace (b * N * (b' * D')) with (b' * b * (N * D')) in H1 by ring.
  lia.
Qed.

Lemma round_double_sign a b :
  0 <= a -> 0 < b -> 0 <= fst (round_double a b) /\ 0 < snd (round_double a b).
Proof.
  intros Ha Hb. unfold round_double.
  destruct (Z.eqb_spec a 0) as [->|Hne]; cbn [fst snd]; [lia|].
  pose proof (round_double_significand a b ltac:(lia) Hb) as [L _].
  cbv zeta in L.
  pose proof (pow2_num_pos (exponent a b - 52)).
  pose proof (pow2_den_pos (exponent a b - 52)).
  assert (0 < 2 ^ 52) by (apply Z.pow_pos_nonneg; lia).
  split; [nia | lia].
Qed.

Lemma round_double_mono a b a' b' :
  0 <= a -> 0 < b -> 0 <= a' -> 0 < b' -> a * b' <= a' * b ->
  frac_le (round_double a b) (round_double a' b').
Proof.
  intros Ha Hb Ha' Hb' Hle. unfold frac_le.
  destruct (Z.eq_dec a 0) as [->|Hne].
  { pose proof (round_double_sign a' b' Ha' Hb') as [N D].
    change (round_double 0 b) with (0, 1). cbn [fst snd]. lia. }
  assert (Hpa : 0 < a) by lia.
  assert (Hpa' : 0 < a') by nia.
  pose proof (exponent_mono a b a' b' Hpa Hb Hpa' Hb' Hle) as Hk.
  pose proof (round_double_significand a b Hpa Hb) as [_ U].
  pose proof (round_double_significand a' b' Hpa' Hb') as [L' _].
  cbv zeta in U, L'.
  unfold round_double.
  destruct (Z.eqb_spec a 0); [lia|]. destruct (Z.eqb_spec a' 0); [lia|].
  cbn [fst snd].
  set (e := exponent a b - 52) in *. set (e' := exponent a' b' - 52) in *.
  set (m := round_half_even _ _) in *. set (m' := round_half_even (a' * _) _) in *.
  pose proof (pow2_num_pos e) as Pe. pose proof (pow2_den_pos e) as De.
  pose proof (pow2_num_pos e') as Pe'. pose proof (pow2_den_pos e') as De'.
  destruct (Z.eq_dec (exponent a b) (exponent a' b')) as [Heq|Hneq].
  - assert (Hee : e' = e) by (unfold e, e'; lia).
    assert (Hm : m <= m').
    { assert (Hpq : a * pow2_den e * (b' * pow2_num e) <=
                    a' * pow2_den e * (b * pow2_num e)).
      { replace (a * pow2_den e * (b' * pow2_num e))
          with (a * b' * (pow2_den e * pow2_num e)) by ring.
        replace (a' * pow2_den e * (b * pow2_num e))
          with (a' * b * (pow2_den e * pow2_num e)) by ring.
        apply Z.mul_le_mono_nonneg_r; nia. }
      unfold m, m'. rewrite Hee.
      apply round_half_even_mono; [nia | nia | exact Hpq]. }
    rewrite Hee. apply Z.mul_le_mono_nonneg_r; [lia|].
    apply Z.mul_le_mono_nonneg_r; lia.
  - pose proof (pow2_lt e e' ltac:(unfold e, e'; lia)) as Hlt.
    change (2 ^ 53) with (2 ^ 52 * 2) in U.
    apply Z.le_trans with (2 ^ 52 * 2 * (pow2_num e * pow2_den e')).
    + replace (m * pow2_num e * pow2_den e') with (m * (pow2_num e * pow2_den e')) by ring.
      apply Z.mul_le_mono_nonneg_r; nia.
    + apply Z.le_trans with (2 ^ 52 * (pow2_num e' * pow2_den e)).
      * replace (2 ^ 52 * 2 * (pow2_num e * pow2_den e'))
          with (2 ^ 52 * (2 * (pow2_num e * pow2_den e'))) by ring.
        apply Z.mul_le_mono_nonneg_l; [|exact Hlt]. apply Z.pow_nonneg. lia.
      * replace (m' * pow2_num e' * pow2_den e) with (m' * (pow2_num e' * pow2_den e)) by ring.
        apply Z.mul_le_mono_nonneg_r; nia.
Qed.

Lemma truediv_den a b : 0 < b -> 0 < snd (truediv a b).
Proof.
  intros Hb. unfold truediv. destruct (Z.ltb_spec a 0).
  - pose proof (round_double_sign (- a) b ltac:(lia) Hb) as [_ D].
    destruct (round_double (- a) b). exact D.
  - apply round_double_sign; lia.
Qed.

Lemma truediv_mono a b a' b' :
  0 < b -> 0 < b' -> a * b' <= a' * b ->
  frac_le (truediv a b) (truediv a' b').
Proof.
  intros Hb Hb' Hle. unfold truediv.
  destruct (Z.ltb_spec a 0) as [Ha|Ha]; destruct (Z.ltb_spec a' 0) as [Ha'|Ha'].
  - pose proof (round_double_mono (- a') b' (- a) b ltac:(lia) Hb' ltac:(lia) Hb
                  ltac:(nia)) as H.
    unfold frac_le in *.
    destruct (round_double (- a) b) as [p q], (round_double (- a') b') as [p' q'].
    cbn [fst snd] in *. lia.
  - pose proof (round_double_sign (- a) b ltac:(lia) Hb) as [N D].
    pose proof (round_double_sign a' b' Ha' Hb') as [N' D'].
    unfold frac_le.
    destruct (round_double (- a) b) as [p q], (round_double a' b') as [p' q'].
    cbn [fst snd] in *. nia.
  - exfalso. nia.
  - now apply round_double_mono.
Qed.

(** An integer below [2^53] is a double. *)
Lemma round_double_integer n :
  0 <= n < 2 ^ 53 ->
  fst (round_double n 1) = n * snd (round_double n 1).
Proof.
  intros [Hn Hlt]. unfold round_double.
  destruct (Z.eqb_spec n 0) as [->|Hne]; [reflexivity|]. cbn [fst snd].
  destruct (exponent_spec n 1 ltac:(lia) ltac:(lia)) as [L _].
  set (k := exponent n 1) in *.
  assert (Hk : k <= 52).
  { destruct (Z.le_gt_cases k 52) as [|Hgt]; auto. exfalso.
    pose proof (pow2_le 53 k ltac:(lia)) as P.
    change (pow2_num 53) with (2 ^ 53) in P. change (pow2_den 53) with 1 in P.
    pose proof (pow2_den_pos k). nia. }
  assert (Hn1 : pow2_num (k - 52) = 1).
  { unfold pow2_num. replace (Z.max (k - 52) 0) with 0 by lia. reflexivity. }
  rewrite Hn1. change (1 * 1) with 1. rewrite Z.mul_1_r.
  rewrite <- (Z.mul_1_r (n * pow2_den (k - 52))) at 1.
  apply round_half_even_exact. lia.
Qed.

Lemma frac_le_ge (x y : Z * Z) (n : Z) :
  0 < snd x -> 0 < snd y -> frac_le x y ->
  n * snd x <= fst x -> n * snd y <= fst y.
Proof.
  unfold frac_le. intros Hx Hy Hle Hn.
  apply Z.mul_le_mono_pos_r with (p := snd x); auto.
  apply Z.le_trans with (fst x * snd y); [|lia].
  replace (n * snd y * snd x) with (n * snd x * snd y) by ring.
  apply Z.mul_le_mono_nonneg_r; lia.
Qed.

Lemma interval_passed_mono (now now' last : datetime) (hours : Z) :
  now <= now' ->
  interval_passed now last hours = true -> interval_passed now' last hours = true.
Proof.
  unfold interval_passed. cbv zeta. intros Hle H.
  apply Z.leb_le in H. apply Z.leb_le.
  pose proof (truediv_den (now - last) 1000000 ltac:(lia)) as D1.
  pose proof (truediv_den (now' - last) 1000000 ltac:(lia)) as D1'.
  pose proof (truediv_mono (now - last) 1000000 (now' - last) 1000000
                ltac:(lia) ltac:(lia) ltac:(lia)) as M1.
  set (x := truediv (now - last) 1000000) in *.
  set (x' := truediv (now' - last) 1000000) in *.
  assert (M2 : frac_le (truediv (fst x) (snd x * 3600))
                       (truediv (fst x') (snd x' * 3600))).
  { apply truediv_mono; try lia. unfold frac_le in M1.
    replace (fst x * (snd x' * 3600)) with (fst x * snd x' * 3600) by ring.
    replace (fst x' * (snd x * 3600)) with (fst x' * snd x * 3600) by ring.
    lia. }
  eapply frac_le_ge; [| |exact M2|exact H]; apply truediv_den; lia.
Qed.

(** When the interval has passed on the clock, the test of the code
    holds: the rounding does not go below a whole number of hours. *)
Lemma interval_passed_exact (now last : datetime) (hours : Z) :
  0 <= hours -> hours * 3600 < 2 ^ 53 ->
  timedelta_hours hours <= now - last ->
  interval_passed now last hours = true.
Proof.
  unfold interval_passed, timedelta_hours. cbv zeta. intros H0 Hb Hle.
  apply Z.leb_le.
  pose proof (truediv_den (now - last) 1000000 ltac:(lia)) as D1.
  set (x := truediv (now - last) 1000000) in *.
  assert (H1 : hours * 3600 * snd x <= fst x).
  { pose proof (truediv_mono (hours * 3600) 1 (now - last) 1000000
                  ltac:(lia) ltac:(lia) ltac:(lia)) as M.
    fold x in M.
    pose proof (truediv_den (hours * 3600) 1 ltac:(lia)) as D.
    apply (frac_le_ge _ _ (hours * 3600) D D1 M).
    unfold truediv. destruct (Z.ltb_spec (hours * 3600) 0); [lia|].
    rewrite round_double_integer by lia. lia. }
  pose proof (truediv_den (fst x) (snd x * 3600) ltac:(lia)) as D2.
  pose proof (truediv_mono hours 1 (fst x) (snd x * 3600)
                ltac:(lia) ltac:(lia) ltac:(lia)) as M.
  pose proof (truediv_den hours 1 ltac:(lia)) as D.
  apply (frac_le_ge _ _ hours D D2 M).
  unfold truediv. destruct (Z.ltb_spec hours 0); [lia|].
  rewrite round_double_integer by lia. lia.
Qed.

Lemma round_double_pos a b :
  0 < a -> 0 < b -> 0 < fst (round_double a b).
Proof.
  intros Ha Hb. unfold round_double.
  destruct (Z.eqb_spec a 0) as [->|Hne]; cbn [fst snd]; [lia|].
  pose proof (round_double_significand a b Ha Hb) as [L _].
  cbv zeta in L.
  pose proof (pow2_num_pos (exponent a b - 52)).
  assert (0 < 2 ^ 52) by (apply Z.pow_pos_nonneg; lia).
  nia.
Qed.

(** A multiple of [2^-j] with a numerator below [2^53] is a double. *)
Lemma round_double_dyadic m j :
  0 <= m < 2 ^ 53 -> 0 <= j ->
  fst (round_double m (2 ^ j)) * 2 ^ j = m * snd (round_double m (2 ^ j)).
Proof.
  intros [Hm Hlt] Hj. unfold round_double.
  destruct (Z.eqb_spec m 0) as [->|Hne]; [reflexivity|]. cbn [fst snd].
  assert (Pj : 0 < 2 ^ j) by (apply Z.pow_pos_nonneg; lia).
  destruct (exponent_spec m (2 ^ j) ltac:(lia) Pj) as [L _].
  set (k := exponent m (2 ^ j)) in *.
  assert (Hk : k <= 52 - j).
  { destruct (Z.le_gt_cases k (52 - j)) as [|Hgt]; auto. exfalso.
    pose proof (pow2_le (53 - j) k ltac:(lia)) as P.
    pose proof (pow2_quotient 53 j ltac:(lia) Hj) as Q.
    pose proof (pow2_den_pos k) as Dk. pose proof (pow2_num_pos k) as Nk.
    pose proof (pow2_den_pos (53 - j)) as D0. pose proof (pow2_num_pos (53 - j)) as N0.
    set (N := pow2_num k) in *. set (D := pow2_den k) in *.
    set (N' := pow2_num (53 - j)) in *. set (D' := pow2_den (53 - j)) in *.
    set (J := 2 ^ j) in *. set (T := 2 ^ 53) in *.
    assert (H1 : J * N * D' < T * D * D').
    { apply Z.mul_lt_mono_pos_r; [lia|].
      apply Z.le_lt_trans with (m * D); [lia|].
      apply Z.mul_lt_mono_pos_r; lia. }
    assert (H2 : J * (N' * D) <= J * (N * D'))
      by (apply Z.mul_le_mono_nonneg_l; lia).
    replace (J * (N' * D)) with (N' * J * D) in H2 by ring.
    rewrite Q in H2. lia. }
  assert (Hn1 : pow2_num (k - 52) = 1).
  { unfold pow2_num. replace (Z.max (k - 52) 0) with 0 by lia. reflexivity. }
  assert (Hd : pow2_den (k - 52) = 2 ^ (52 - k - j) * 2 ^ j).
  { unfold pow2_den. rewrite <- Z.pow_add_r by lia. f_equal. lia. }
  rewrite Hn1, Hd, !Z.mul_1_r, Z.mul_assoc.
  rewrite round_half_even_exact by lia. ring.
Qed.

Lemma truediv_le_dyadic a b m j :
  0 < b -> 0 <= m < 2 ^ 53 -> 0 <= j -> a * 2 ^ j <= m * b ->
  fst (truediv a b) * 2 ^ j <= m * snd (truediv a b).
Proof.
  intros Hb Hm Hj Hle.
  assert (Pj : 0 < 2 ^ j) by (apply Z.pow_pos_nonneg; lia).
  pose proof (truediv_mono a b m (2 ^ j) Hb Pj Hle) as M.
  pose proof (truediv_den a b Hb) as D.
  pose proof (truediv_den m (2 ^ j) Pj) as D'.
  assert (E : fst (truediv m (2 ^ j)) * 2 ^ j = m * snd (truediv m (2 ^ j))).
  { unfold truediv. destruct (Z.ltb_spec m 0); [lia|].
    now apply round_double_dyadic. }
  unfold frac_le in M.
  set (x := truediv a b) in *. set (y := truediv m (2 ^ j)) in *.
  apply Z.mul_le_mono_pos_r with (p := snd y); auto.
  replace (fst x * 2 ^ j * snd y) with (fst x * snd y * 2 ^ j) by ring.
  apply Z.le_trans with (fst y * snd x * 2 ^ j).
  - apply Z.mul_le_mono_nonneg_r; lia.
  - replace (fst y * snd x * 2 ^ j) with (fst y * 2 ^ j * snd x) by ring.
    rewrite E. lia.
Qed.

(** For an interval below [2^21] hours the test of the code does not
    hold a microsecond before the interval has passed. *)
Lemma interval_not_early (hours : Z) :
  0 <= hours < 2 ^ 21 ->
  interval_passed (timedelta_hours hours - 1) 0 hours = false.
Proof.
  intros [H0 Hb]. destruct (Z.eq_dec hours 0) as [->|Hne]; [reflexivity|].
  unfold interval_passed, timedelta_hours. cbv zeta. rewrite Z.sub_0_r.
  apply Z.leb_gt.
  change (2 ^ 21) with 2097152 in Hb.
  pose proof (truediv_den (hours * 3600000000 - 1) 1000000 ltac:(lia)) as D1.
  pose proof (truediv_le_dyadic (hours * 3600000000 - 1) 1000000
                (3600 * hours * 2 ^ 20 - 1) 20 ltac:(lia)) as S1.
  change (2 ^ 20) with 1048576 in S1. change (2 ^ 53) with 9007199254740992 in S1.
  specialize (S1 ltac:(lia) ltac:(lia) ltac:(lia)).
  set (x := truediv (hours * 3600000000 - 1) 1000000) in *.
  pose proof (truediv_den (fst x) (snd x * 3600) ltac:(lia)) as D2.
  pose proof (truediv_le_dyadic (fst x) (snd x * 3600)
                (hours * 2 ^ 32 - 1) 32 ltac:(lia)) as S2.
  change (2 ^ 32) with 4294967296 in S2. change (2 ^ 53) with 9007199254740992 in S2.
  specialize (S2 ltac:(lia) ltac:(lia) ltac:(nia)).
  set (y := truediv (fst x) (snd x * 3600)) in *.
  nia.
Qed.

(** So for these intervals the test of the code is the comparison of the
    clock readings. *)
Lemma interval_passed_small (now last : datetime) (hours : Z) :
  0 <= hours < 2 ^ 21 ->
  interval_passed now last hours = (timedelta_hours hours <=? now - last).
Proof.
  intros Hh. destruct (Z.leb_spec (timedelta_hours hours) (now - last)) as [Hle|Hlt].
  - apply interval_passed_exact; [lia| |exact Hle].
    change (2 ^ 21) with 2097152 in Hh. change (2 ^ 53) with 9007199254740992. lia.
  - destruct (interval_passed now last hours) eqn:E; auto.
    assert (E' : interval_passed (now - last) 0 hours = true).
    { unfold interval_passed in *. now rewrite Z.sub_0_r. }
    apply (interval_passed_mono _ (timedelta_hours hours - 1)) in E'; [|lia].
    rewrite interval_not_early in E' by exact Hh. discriminate E'.
Qed.

(** The rounding shows at large intervals: with 4782260 hours between the
    cleanups the test holds a microsecond early. *)
Example interval_passed_early :
  let hours := 4782260 in
  interval_passed (timedelta_hours hours - 1) 0 hours = true /\
  timedelta_hours hours - 1 - 0 < timedelta_hours hours.
Proof. split; vm_compute; reflexivity. Qed.
(* ================================================================== *)
(** * Properties *)
(* ================================================================== *)

(** ** The collection primitives *)

Section CollectionFacts.

Variable flt : Job -> bool.
Variable key : Job -> Z.

Lemma select_first_some (c : Collection) :
  forall pre m post,
    select_first flt key c = Some (pre, m, post) ->
    c = pre ++ m :: post /\
    flt m = true /\
    (forall k, In k c -> flt k = true -> key m <= key k) /\
    (forall k, In k pre -> flt k = true -> key m < key k).
Proof.
  induction c as [|d r IH]; intros pre m post; simpl; [discriminate|].
  destruct (select_first flt key r) as [[[pre' m'] post']|] eqn:E.
  - destruct (IH _ _ _ eq_refl) as (Hc & Hm & Hmin & Hpre).
    destruct (flt d) eqn:Fd; simpl.
    + destruct (Z.leb_spec (key d) (key m')); intros [= <- <- <-].
      * repeat split; auto.
        -- intros k [<-|Hk] Fk; [lia|]. specialize (Hmin k Hk Fk). lia.
        -- intros k [].
      * repeat split; auto.
        -- simpl. now rewrite Hc at 1.
        -- intros k [<-|Hk] Fk; [lia|]. now apply Hmin.
        -- intros k [<-|Hk] Fk; [lia|]. now apply Hpre.
    + intros [= <- <- <-]. repeat split; auto.
      * simpl. now rewrite Hc at 1.
      * intros k [<-|Hk] Fk; [congruence|]. now apply Hmin.
      * intros k [<-|Hk] Fk; [congruence|]. now apply Hpre.
  - destruct (flt d) eqn:Fd; [|discriminate].
    intros [= <- <- <-]. repeat split; auto.
    + intros k [<-|Hk] Fk; [lia|].
      exfalso. clear IH. revert k Hk Fk E.
      induction r as [|d' r' IHr]; simpl; [intros k []|].
      intros k Hk Fk.
      destruct (select_first flt key r') as [[[? ?] ?]|] eqn:E'.
      * destruct (flt d' && _); discriminate.
      * destruct (flt d') eqn:Fd'; [discriminate|]. intros _.
        destruct Hk as [<-|Hk]; [congruence|]. now apply (IHr k).
    + intros k [].
Qed.

Lemma select_first_none (c : Collection) :
  select_first flt key c = None <-> (forall k, In k c -> flt k = false).
Proof.
  induction c as [|d r IH]; simpl.
  - split; [intros _ k []|reflexivity].
  - destruct (select_first flt key r) as [[[pre m] post]|] eqn:E.
    + split.
      * destruct (flt d && _); discriminate.
      * intros H. destruct (select_first_some r _ _ _ E) as (Hc & Hm & _).
        rewrite (H m) in Hm; [discriminate|].
        right. rewrite Hc. apply in_elt.
    + destruct (flt d) eqn:Fd.
      * split; [discriminate|]. intros H. rewrite (H d) in Fd; auto. discriminate.
      * split; auto. intros _ k [<-|Hk]; auto. now apply IH.
Qed.

End CollectionFacts.

(** ** ClaimNext: [get_next_job] *)

Lemma claimed_from_apply_set (t : datetime) (j : Job) :
  claimed_from (bson_date t) j (apply_set (claim_set t) j).
Proof. unfold claimed_from; simpl. repeat split; reflexivity. Qed.

Lemma has_status_true (st : string) (d : Job) :
  has_status st d = true <-> status d = st.
Proof. unfold has_status. apply String.eqb_eq. Qed.

Lemma has_status_false (st : string) (d : Job) :
  has_status st d = false <-> status d <> st.
Proof. unfold has_status. apply String.eqb_neq. Qed.

(** What [get_next_job] computes when the database answers... *)
Lemma get_next_job_answered (env : Env) (s : State) :
  fault env FindOneAndUpdate = None ->
  get_next_job env s =
    (let fu := find_one_and_update (has_status "pending")
                 (claim_set (utcnow env ClockClaim)) created_at (jobsCollection s) in
     (Val (fst fu),
      set_jobs (snd fu) (set_trace (trace s ++ [Called FindOneAndUpdate]) s))).
Proof.
  intros Hf.
  unfold get_next_job, try_except, bind, call, emit, modify, get, ret, raise.
  rewrite Hf. simpl.
  destruct (find_one_and_update _ _ _ _) as [r c']. reflexivity.
Qed.

(** ... and when the call raises: the exception is swallowed, nothing is
    claimed. *)
Lemma get_next_job_unanswered (env : Env) (s : State) (msg : string) :
  fault env FindOneAndUpdate = Some msg ->
  get_next_job env s =
    (Val None, set_trace (trace s ++ [Called FindOneAndUpdate]) s).
Proof.
  intros Hf.
  unfold get_next_job, try_except, bind, call, emit, modify, get, ret, raise.
  rewrite Hf. reflexivity.
Qed.

(** What [get_next_job] does to the collection when the database
    answers. *)
Lemma get_next_job_claims (env : Env) (s : State) :
  fault env FindOneAndUpdate = None ->
  ((exists k, In k (jobsCollection s) /\ status k = "pending") ->
   exists pre j j' post,
     jobsCollection s = pre ++ j :: post /\
     status j = "pending" /\
     (forall k, In k (jobsCollection s) -> status k = "pending" ->
                created_at j <= created_at k) /\
     claimed_from (bson_date (utcnow env ClockClaim)) j j' /\
     fst (get_next_job env s) = Val (Some j') /\
     jobsCollection (snd (get_next_job env s)) = pre ++ j' :: post)
  /\
  ((forall k, In k (jobsCollection s) -> status k <> "pending") ->
   fst (get_next_job env s) = Val None /\
   jobsCollection (snd (get_next_job env s)) = jobsCollection s).
Proof.
  intros Hf. rewrite (get_next_job_answered env s Hf).
  unfold find_one_and_update.
  destruct (select_first _ _ _) as [[[pre m] post]|] eqn:E; cbn.
  - destruct (select_first_some _ _ _ _ _ _ E) as (Hc & Hm & Hmin & _).
    apply has_status_true in Hm. split.
    + intros _. exists pre, m, (apply_set (claim_set (utcnow env ClockClaim)) m), post.
      repeat split; auto.
      intros k Hk Sk. apply Hmin; auto. now apply has_status_true.
    + intros Hnone. exfalso. apply (Hnone m); auto.
      rewrite Hc. apply in_elt.
  - split; auto.
    intros (k & Hk & Sk). exfalso.
    rewrite select_first_none in E. specialize (E k Hk).
    apply has_status_false in E. contradiction.
Qed.

(** C2.  When the database answers, [get_next_job] returns a pending job
    with the least [created_at] among the pending ones, moved to
    [processing] with [updated_at] bumped; in the collection exactly that
    document is replaced by the returned one.  With no pending job it
    returns [None] and the collection is unchanged.  (With two pending
    jobs created at T1 < T2 the job returned is therefore the T1 one.) *)
Theorem get_next_job_oldest_pending (env : Env) (s : State) :
  fault env FindOneAndUpdate = None ->
  ((exists k, In k (jobsCollection s) /\ status k = "pending") ->
   exists pre j j' post,
     jobsCollection s = pre ++ j :: post /\
     status j = "pending" /\
     (forall k, In k (jobsCollection s) -> status k = "pending" ->
                created_at j <= created_at k) /\
     claimed_from (bson_date (utcnow env ClockClaim)) j j' /\
     fst (get_next_job env s) = Val (Some j') /\
     jobsCollection (snd (get_next_job env s)) = pre ++ j' :: post)
  /\
  ((forall k, In k (jobsCollection s) -> status k <> "pending") ->
   fst (get_next_job env s) = Val None /\
   jobsCollection (snd (get_next_job env s)) = jobsCollection s).
Proof. exact (get_next_job_claims env s). Qed.

Lemma get_next_job_oldest_pending_witness :
  let env := example_env 500000 [] in
  let j1 := example_job "J1" "pending" None 100000 0 in
  let j2 := example_job "J2" "pending" None 200000 0 in
  let s := example_state (Some 400000) [j2; j1] in
  ((exists k, In k (jobsCollection s) /\ status k = "pending") ->
   exists pre j j' post,
     jobsCollection s = pre ++ j :: post /\
     status j = "pending" /\
     (forall k, In k (jobsCollection s) -> status k = "pending" ->
                created_at j <= created_at k) /\
     claimed_from (bson_date (utcnow env ClockClaim)) j j' /\
     fst (get_next_job env s) = Val (Some j') /\
     jobsCollection (snd (get_next_job env s)) = pre ++ j' :: post)
  /\
  ((forall k, In k (jobsCollection s) -> status k <> "pending") ->
   fst (get_next_job env s) = Val None /\
   jobsCollection (snd (get_next_job env s)) = jobsCollection s).
Proof.
  intros env j1 j2 s.
  apply (get_next_job_oldest_pending env s). reflexivity.
Defined.

(** With two pending jobs created at 100 ms and at 200 ms, the later
    one inserted first, the claim returns the one created at 100 ms. *)
Example get_next_job_two_pending :
  let env := example_env 500000 [] in
  let j1 := example_job "J1" "pending" None 100000 0 in
  let j2 := example_job "J2" "pending" None 200000 0 in
  let s := example_state (Some 400000) [j2; j1] in
  option_map _id
    (match fst (get_next_job env s) with Val r => r | Exc _ => None end)
    = Some "J1" /\
  map (fun d => (_id d, status d)) (jobsCollection (snd (get_next_job env s)))
    = [("J2", "pending"); ("J1", "processing")].
Proof. split; vm_compute; reflexivity. Qed.

(** ** Purge: [cleanup_old_jobs] *)

Lemma bson_date_le (t : datetime) : bson_date t <= t.
Proof.
  unfold bson_date. pose proof (Z.mul_div_le t 1000). lia.
Qed.

Lemma bson_date_gt (t : datetime) : t - 1000 < bson_date t.
Proof.
  unfold bson_date. pose proof (Z.mod_pos_bound t 1000).
  pose proof (Z.div_mod t 1000). lia.
Qed.

Lemma bson_date_idem (t : datetime) : bson_date (bson_date t) = bson_date t.
Proof.
  unfold bson_date. now rewrite Z.div_mul by lia.
Qed.

Lemma bson_date_mono (t u : datetime) : t <= u -> bson_date t <= bson_date u.
Proof.
  intros H. unfold bson_date.
  apply Z.mul_le_mono_nonneg_r; [lia|]. apply Z.div_le_mono; lia.
Qed.

(** A stored date, a whole number of milliseconds, is before the
    millisecond of [t] exactly when it is at least a millisecond
    before [t] rounded up. *)
Lemma bson_date_lt_stored (d t : datetime) :
  bson_date d < bson_date t <-> bson_date d + 1000 <= bson_date t.
Proof.
  unfold bson_date. split; intros H; [|lia].
  assert (d / 1000 < t / 1000) by nia. nia.
Qed.

(** C8, as stated, fails: one hour and one microsecond after a job was
    created, a purge of the jobs older than an hour keeps the job,
    although it was created strictly before the cutoff; the cutoff of
    the query is cut down to the millisecond on its way to the
    database. *)
Lemma cleanup_old_jobs_keeps_job_before_cutoff :
  let d := example_job "J1" "completed" None 0 0 in
  let now := 3600000001 in
  let cutoff := now - timedelta_hours 1 in
  created_at d < cutoff /\
  cleanup_old_jobs now 1 [d] = ([d], 0).
Proof. split; vm_compute; reflexivity. Qed.

(** C8, amended.  [cleanup_old_jobs now hours] deletes exactly the
    documents created strictly before the cutoff [now - hours] cut down
    to the millisecond, whatever their status: it keeps every other
    document with its multiplicity and in its order, and returns the
    number of documents deleted.  So no document created at or after the
    cutoff is deleted, and a document created before the cutoff is kept
    only when it is less than a millisecond older than the cutoff. *)
Theorem cleanup_old_jobs_exact (now hours : Z) (c : Collection) :
  let cutoff := now - timedelta_hours hours in
  let kept := fst (cleanup_old_jobs now hours c) in
  let deleted_count := snd (cleanup_old_jobs now hours c) in
  (forall d, In d kept <-> In d c /\ ~ created_at d < bson_date cutoff) /\
  (forall d, count_occ Job_eq_dec kept d =
             if created_at d <? bson_date cutoff then 0%nat
             else count_occ Job_eq_dec c d) /\
  kept = filter (fun d => negb (created_at d <? bson_date cutoff)) c /\
  deleted_count = Z.of_nat (List.length c) - Z.of_nat (List.length kept) /\
  deleted_count =
    Z.of_nat (List.length (filter (fun d => created_at d <? bson_date cutoff) c)) /\
  (forall d, In d c -> cutoff <= created_at d -> In d kept) /\
  (forall d, In d kept -> cutoff - 1000 < created_at d).
Proof.
  unfold cleanup_old_jobs, delete_many; cbn [fst snd].
  set (cutoff := bson_date (now - timedelta_hours hours)).
  assert (Hin : forall d,
             In d (filter (fun d => negb (created_at d <? cutoff)) c) <->
             In d c /\ ~ created_at d < cutoff).
  { intros d. rewrite filter_In, negb_true_iff, Z.ltb_ge. intuition lia. }
  split; [exact Hin|]. split; [|split; [reflexivity|split; [|split; [|split]]]].
  - clear Hin. intros d. induction c as [|e r IH]; simpl.
    + now destruct (created_at d <? cutoff).
    + destruct (created_at e <? cutoff) eqn:Ee; simpl; rewrite IH;
        destruct (Job_eq_dec e d) as [Heq|Hne]; subst; rewrite ?Ee; auto.
  - clear Hin. induction c as [|e r IH]; [reflexivity|].
    cbn [filter]. destruct (created_at e <? cutoff);
      cbn [negb List.length]; rewrite ?Nat2Z.inj_succ; lia.
  - reflexivity.
  - intros d Hd Hle. apply Hin. split; [exact Hd|].
    pose proof (bson_date_le (now - timedelta_hours hours)).
    fold cutoff in H. lia.
  - intros d Hd. apply Hin in Hd. destruct Hd as [_ Hd].
    pose proof (bson_date_gt (now - timedelta_hours hours)).
    fold cutoff in H. lia.
Qed.

(** ** UpdateProgress: [update_job_status] *)

Lemma update_one_Forall2 (flt : Job -> bool) (u : SetDoc) (c : Collection) :
  Forall2 (fun d d' => d' = d \/ (flt d = true /\ d' = apply_set u d))
          c (update_one flt u c).
Proof.
  induction c as [|d r IH]; simpl; [constructor|].
  destruct (flt d) eqn:F; constructor; auto.
  clear. induction r; constructor; auto.
Qed.

Lemma find_one_update_one (job_id : string) (u : SetDoc) (c : Collection) :
  find_one (has_id job_id) (update_one (has_id job_id) u c) =
  option_map (apply_set u) (find_one (has_id job_id) c).
Proof.
  unfold find_one. induction c as [|d r IH]; simpl; auto.
  destruct (has_id job_id d) eqn:F; simpl.
  - unfold has_id in *. simpl. now rewrite F.
  - now rewrite F.
Qed.

Lemma find_one_update_one_other (job_id other : string) (u : SetDoc) (c : Collection) :
  other <> job_id ->
  find_one (has_id other) (update_one (has_id job_id) u c) =
  find_one (has_id other) c.
Proof.
  intros Hne. unfold find_one. induction c as [|d r IH]; simpl; auto.
  destruct (has_id job_id d) eqn:F; simpl.
  - unfold has_id in *; simpl. apply String.eqb_eq in F.
    destruct (String.eqb_spec (_id d) other); [congruence|]. reflexivity.
  - now rewrite IH.
Qed.

(** What [update_job_status] does to each document: nothing, or, for a
    document with the id, the update; nothing at all when it raises. *)
Lemma update_job_status_Forall2
    (t1 t2 : datetime) (job_id status' : string) (kw : Kwargs) (c : Collection) :
  Forall2 (fun d d' =>
             d' = d \/
             (has_id job_id d = true /\
              d' = apply_set (update_fields t1 t2 status' kw) d))
          c (update_job_status t1 t2 job_id status' kw c).
Proof.
  unfold update_job_status. destruct (update_job_status_raises kw).
  - clear. induction c; constructor; auto.
  - apply update_one_Forall2.
Qed.

(** C10, as stated, fails: a call with status [completed] also writes
    [completed_at], which was not supplied. *)
Lemma update_job_status_writes_completed_at :
  let d := example_job "J1" "processing" (Some "upload") 100000 0 in
  let c' := update_job_status 200000 201000 "J1" "completed" no_kwargs [d] in
  completed_at d = None /\
  option_map completed_at (get_job "J1" c') = Some (Some 201000) /\
  ~ Forall2 (only_supplied_modified no_kwargs) [d] c'.
Proof.
  repeat split.
  intros H. inversion H as [|? ? ? ? (_ & _ & Hc) _]; subst.
  discriminate Hc.
Qed.

(** C10, amended.  [update_job_status] changes no document but the first
    one with the given id; in that one only [status], [updated_at], the
    keyword fields supplied and, when the status given is [completed] or
    [failed], [completed_at] are written.  In particular a call that gives
    [current_step] but not [error_message] leaves [error_message] as it
    was. *)
Theorem update_job_status_frame
    (t1 t2 : datetime) (job_id status' : string) (kw : Kwargs) (c : Collection) :
  Forall2 (fun d d' =>
             only_supplied_or_completed_at_modified status' kw d d' /\
             (has_id job_id d = false -> d' = d))
          c (update_job_status t1 t2 job_id status' kw c).
Proof.
  eapply Forall2_impl; [|apply update_job_status_Forall2].
  intros d d' [->|[F ->]].
  - split; [|reflexivity].
    unfold only_supplied_or_completed_at_modified, same_identity, unsupplied_kept.
    repeat split; reflexivity.
  - split; [|congruence].
    unfold only_supplied_or_completed_at_modified, same_identity, unsupplied_kept.
    simpl. repeat split; try reflexivity; try (now intros ->).
Qed.

(** C6, as stated, fails: [update_job_status] compares nothing; on a
    completed job a call with status [pending] and step [metadata] moves
    both backward. *)
Lemma update_job_status_can_regress :
  let d := example_job "J1" "completed" (Some "completed") 100000 300000 in
  let c' := update_job_status 400000 401000 "J1" "pending"
              (step_kwargs "metadata" "Extracting point cloud metadata...") [d] in
  option_map status (get_job "J1" c') = Some "pending" /\
  option_map current_step (get_job "J1" c') = Some (Some "metadata") /\
  ~ Forall2 not_regressed [d] c'.
Proof.
  repeat split.
  intros H. inversion H as [|? ? ? ? [Hs _] _]; subst.
  vm_compute in Hs. lia.
Qed.

(** A call whose status and step are not behind those stored moves
    nothing backward. *)
Lemma update_job_status_not_behind
    (t1 t2 : datetime) (job_id status' : string) (kw : Kwargs) (c : Collection) :
  (forall d, In d c -> has_id job_id d = true ->
     (status_rank (status d) <= status_rank status')%nat /\
     (step_rank (current_step d) <=
      step_rank (or_keep (kw_current_step kw) (current_step d)))%nat) ->
  Forall2 (fun d d' =>
             not_regressed d d' /\
             (d' = d \/
              (has_id job_id d = true /\ status d' = status' /\
               current_step d' = or_keep (kw_current_step kw) (current_step d))))
          c (update_job_status t1 t2 job_id status' kw c).
Proof.
  intros Hfw.
  assert (H := update_job_status_Forall2 t1 t2 job_id status' kw c).
  revert Hfw. induction H as [|d d' r r' Hd _ IH]; intros Hfw; constructor.
  - destruct Hd as [->|[F ->]].
    + split; [split; lia | now left].
    + destruct (Hfw d (or_introl eq_refl) F) as [Hs Hc].
      split; [split; assumption|]. right. repeat split; auto.
  - apply IH. intros e He. apply Hfw. now right.
Qed.

(** C6, amended.  [update_job_status] stores the status it is given, and
    the step when one is given, in the first document with the id, and
    leaves the others alone.  Hence nothing moves backward provided the
    values given are not behind those of the documents with that id. *)
Theorem update_job_status_forward
    (t1 t2 : datetime) (job_id status' : string) (kw : Kwargs) (c : Collection) :
  (forall d, In d c -> has_id job_id d = true ->
     (status_rank (status d) <= status_rank status')%nat /\
     (step_rank (current_step d) <=
      step_rank (or_keep (kw_current_step kw) (current_step d)))%nat) ->
  Forall2 (fun d d' =>
             not_regressed d d' /\
             (d' = d \/
              (has_id job_id d = true /\ status d' = status' /\
               current_step d' = or_keep (kw_current_step kw) (current_step d))))
          c (update_job_status t1 t2 job_id status' kw c).
Proof. exact (update_job_status_not_behind t1 t2 job_id status' kw c). Qed.

Lemma update_job_status_forward_witness :
  let d := example_job "J1" "processing" (Some "metadata") 100000 0 in
  Forall2 (fun d d' =>
             not_regressed d d' /\
             (d' = d \/
              (has_id "J1" d = true /\ status d' = "processing" /\
               current_step d' =
                 or_keep (kw_current_step
                            (step_kwargs "thumbnail" "Generating thumbnail..."))
                         (current_step d))))
          [d] (update_job_status 200000 201000 "J1" "processing"
                 (step_kwargs "thumbnail" "Generating thumbnail...") [d]).
Proof.
  intros d.
  apply (update_job_status_forward 200000 201000 "J1" "processing"
           (step_kwargs "thumbnail" "Generating thumbnail...") [d]).
  intros e [<-|[]] _. vm_compute. split; lia.
Defined.

(** ** Running the worker's code *)

Section Running.

Variable env : Env.

Lemma run_call {B : Type} (c : Call) (k : unit -> M B) (s : State) :
  bind (call env c) k s =
  match fault env c with
  | Some msg => (Exc msg, logged (Called c) s)
  | None => k tt (logged (Called c) s)
  end.
Proof.
  unfold call, bind, emit, modify, raise, ret, logged.
  destruct (fault env c); reflexivity.
Qed.

Lemma run_emit {B : Type} (e : Event) (k : unit -> M B) (s : State) :
  bind (emit e) k s = k tt (logged e s).
Proof. reflexivity. Qed.

Lemma run_modify {B : Type} (f : State -> State) (k : unit -> M B) (s : State) :
  bind (modify f) k s = k tt (f s).
Proof. reflexivity. Qed.

Lemma run_get {B : Type} (k : State -> M B) (s : State) :
  bind get k s = k s s.
Proof. reflexivity. Qed.

Lemma run_ret {A B : Type} (a : A) (k : A -> M B) (s : State) :
  bind (ret a) k s = k a s.
Proof. reflexivity. Qed.

Lemma run_raise {A B : Type} (msg : string) (k : A -> M B) (s : State) :
  bind (raise msg) k s = (Exc msg, s).
Proof. reflexivity. Qed.

Lemma run_bind {A B C : Type} (m : M A) (k : A -> M B) (k' : B -> M C) (s : State) :
  bind (bind m k) k' s = bind m (fun a => bind (k a) k') s.
Proof. unfold bind. destruct (m s) as [[a|msg] s1]; reflexivity. Qed.

Lemma run_db_update_job_status {B : Type} (c : Call) (job_id status' : string)
    (kw : Kwargs) (k : unit -> M B) (s : State) :
  update_job_status_raises kw = None ->
  bind (db_update_job_status env c job_id status' kw) k s =
  match fault env c with
  | Some msg => (Exc msg, logged (Called c) s)
  | None =>
      k tt (set_jobs (update_job_status (utcnow env (ClockUpdated c))
                        (utcnow env (ClockCompleted c)) job_id status' kw
                        (jobsCollection s))
              (logged (Called c) s))
  end.
Proof.
  intros Hkw. unfold db_update_job_status. rewrite Hkw, run_bind, run_call.
  destruct (fault env c); reflexivity.
Qed.

Lemma run_db_updateProject {B : Type} (c : Call) (p : Project)
    (k : unit -> M B) (s : State) :
  bind (db_updateProject env c p) k s =
  match fault env c with
  | Some msg => (Exc msg, logged (Called c) s)
  | None =>
      k tt (set_projects (replace_project p (projectsCollection s))
              (logged (Called c) s))
  end.
Proof.
  unfold db_updateProject. rewrite run_bind, run_call.
  destruct (fault env c); reflexivity.
Qed.

Lemma run_az_upload_bytes {B : Type} (c : Call) (blob_name : string)
    (k : unit -> M B) (s : State) :
  bind (az_upload_bytes env c blob_name) k s =
  match fault env c with
  | Some msg => (Exc msg, logged (Called c) s)
  | None => k tt (set_blobs (add_path blob_name (blobs s)) (logged (Called c) s))
  end.
Proof.
  unfold az_upload_bytes. rewrite run_bind, run_call.
  destruct (fault env c); reflexivity.
Qed.


Ltac unfold_state :=
  unfold touched, logged, set_self, set_jobs, set_projects, set_files,
    set_blobs, set_trace, set_output_dir;
  cbn [self jobsCollection projectsCollection files blobs trace output_dir
       modify ret fst snd].

Lemma touched_nothing (s : State) : touched (files s) (blobs s) [] s = s.
Proof. destruct s. unfold touched; cbn. now rewrite app_nil_r. Qed.

(** [cleanup_temp_files] never raises; it touches the local files and the
    blobs only, and makes no call but [os.remove] and [delete_blob]. *)
Lemma cleanup_temp_files_run (job : Job) (s : State) :
  exists fs bs evs,
    cleanup_temp_files env job s =
      (Val tt, touched fs bs (CleanupTempFiles (_id job) :: evs) s) /\
    Forall (fun e => e = Called OsRemove \/ e = Called DeleteBlob) evs /\
    (fs = files s \/ fs = remove_path (file_path job) (files s)).
Proof.
  unfold cleanup_temp_files. rewrite run_emit, run_get.
  unfold when, try_except, bind at 1.
  destruct (truthy (file_path job) && _);
    [rewrite run_call; destruct (fault env OsRemove)|];
    cbn [modify ret];
    (destruct (truthy (azure_path job));
     [rewrite run_call; destruct (fault env DeleteBlob)|]);
    cbn [modify ret];
    unfold_state; rewrite <- ?app_assoc; cbn [app];
    eexists; eexists; eexists;
    (split; [reflexivity|]);
    (split; [repeat (apply Forall_cons; [auto|]); apply Forall_nil | auto]).
Qed.

(** The guarded [shutil.rmtree] never lets an exception out. *)
Lemma rmtree_run (s : State) :
  exists fs,
    try_except (rmtree_if_exists env) (fun _ => ret tt) s =
      (Val tt, touched fs (blobs s)
                 (if rmtree_due s then [Called Rmtree] else []) s).
Proof.
  unfold try_except, rmtree_if_exists, rmtree_due. rewrite run_get.
  destruct (output_dir s) as [d|] eqn:Ed.
  - unfold when. destruct (truthy d && exists_path d (files s)).
    + rewrite run_call. destruct (fault env Rmtree);
        eexists; unfold_state; reflexivity.
    + exists (files s). now rewrite touched_nothing.
  - exists (files s). now rewrite touched_nothing.
Qed.

(** The upload loop stops at the first upload that raises. *)
Lemma upload_files_run (project_id' : string) (fs : list (string * string)) :
  forall (k : nat) (s : State),
  exists n bs,
    (n <= List.length fs)%nat /\
    (forall i, (k <= i < k + n - 1)%nat -> fault env (PotreeUploadBytes i) = None) /\
    ((upload_files env project_id' k fs s =
        (Val tt, touched (files s) bs (upload_events k n) s) /\
      n = List.length fs /\
      (n = 0%nat \/ fault env (PotreeUploadBytes (k + n - 1)) = None))
     \/
     (exists msg,
        upload_files env project_id' k fs s =
          (Exc msg, touched (files s) bs (upload_events k n) s) /\
        (0 < n)%nat /\
        fault env (PotreeUploadBytes (k + n - 1)) = Some msg)).
Proof.
  induction fs as [|[rel_path ext] r IH]; intros k s.
  - exists 0%nat, (blobs s). split; [simpl; lia|]. split; [intros; lia|].
    left. unfold upload_events; cbn. rewrite touched_nothing. auto.
  - cbn [upload_files]. rewrite run_az_upload_bytes.
    destruct (fault env (PotreeUploadBytes k)) as [msg|] eqn:F.
    + exists 1%nat, (blobs s). split; [simpl; lia|]. split; [intros; lia|].
      right. exists msg. split; [reflexivity|].
      split; [lia|]. now replace (k + 1 - 1)%nat with k by lia.
    + match goal with
      | |- context [upload_files env project_id' (S k) r ?s1] =>
          destruct (IH (S k) s1) as (n & bs & Hn & Hok & Hres)
      end.
      exists (S n), bs. split; [simpl; lia|]. split.
      * intros i Hi. destruct (Nat.eq_dec i k) as [->|Hne]; auto.
        apply Hok. lia.
      * destruct Hres as [(E & -> & Hlast)|(msg & E & Hpos & Hlast)].
        -- left. split; [|split; [reflexivity|]].
           ++ rewrite E. unfold upload_events. unfold_state.
              now rewrite <- app_assoc.
           ++ right. destruct Hlast as [Hz|Hlast].
              ** rewrite Hz. now replace (k + 1 - 1)%nat with k by lia.
              ** now replace (k + S (List.length r) - 1)%nat
                   with (S k + List.length r - 1)%nat by lia.
        -- right. exists msg. split; [|split; [lia|]].
           ++ rewrite E. unfold upload_events. unfold_state.
              now rewrite <- app_assoc.
           ++ now replace (k + S n - 1)%nat with (S k + n - 1)%nat by lia.
Qed.

(** The thumbnail step never raises; the project it returns has the
    thumbnail URL exactly when all of its calls returned. *)
Lemma thumbnail_step_run (project : Project) (s : State) :
  exists bs evs,
    thumbnail_step env project s =
      (Val (if thumbnail_ok env
            then with_thumbnail (thumbnail_sas_url env) project
            else project),
       touched (files s) bs (Called ThumbnailGenerate :: evs) s) /\
    Forall (fun e => e = Called ThumbnailUpload \/ e = Called ThumbnailSas) evs.
Proof.
  unfold thumbnail_step, thumbnail_ok, try_except.
  rewrite run_call. destruct (fault env ThumbnailGenerate).
  { exists (blobs s), []. split; auto. }
  rewrite run_az_upload_bytes. destruct (fault env ThumbnailUpload).
  { exists (blobs s), [Called ThumbnailUpload]. split; auto.
    unfold_state. now rewrite <- ?app_assoc. }
  rewrite run_call. destruct (fault env ThumbnailSas);
    (eexists; exists [Called ThumbnailUpload; Called ThumbnailSas]; split; auto);
    unfold_state; rewrite <- ?app_assoc; reflexivity.
Qed.

End Running.

Lemma run_val {A B : Type} (m : M A) (k : A -> M B) (s s1 : State) (a : A) :
  m s = (Val a, s1) -> bind m k s = k a s1.
Proof. intros E. unfold bind. now rewrite E. Qed.

Lemma run_exc {A B : Type} (m : M A) (k : A -> M B) (s s1 : State) (msg : string) :
  m s = (Exc msg, s1) -> bind m k s = (Exc msg, s1).
Proof. intros E. unfold bind. now rewrite E. Qed.

(** Symbolic execution of a run [E : m s = (r, s')], one call at a time. *)
Ltac case_fault E :=
  match type of E with
  | context [fault ?e ?c] => destruct (fault e c) eqn:?
  end.

Ltac exec_step E :=
  lazymatch type of E with
  | bind (bind _ _) _ _ = _ => rewrite run_bind in E
  | bind (db_update_job_status _ _ _ _ _) _ _ = _ =>
      rewrite run_db_update_job_status in E by reflexivity; case_fault E
  | bind (db_updateProject _ _ _) _ _ = _ =>
      rewrite run_db_updateProject in E; case_fault E
  | bind (az_upload_bytes _ _ _) _ _ = _ =>
      rewrite run_az_upload_bytes in E; case_fault E
  | bind (call _ _) _ _ = _ => rewrite run_call in E; case_fault E
  | bind (modify _) _ _ = _ => rewrite run_modify in E
  | bind get _ _ = _ => rewrite run_get in E
  | bind (ret _) _ _ = _ => rewrite run_ret in E
  | bind (raise _) _ _ = _ => rewrite run_raise in E
  | bind (emit _) _ _ = _ => rewrite run_emit in E
  | bind (thumbnail_step ?e ?p) ?k ?s = _ =>
      let Et := fresh "Et" in
      destruct (thumbnail_step_run e p s) as (? & ? & Et & ?);
      rewrite (run_val _ _ _ _ _ Et) in E; clear Et
  | bind (cleanup_temp_files ?e ?j) ?k ?s = _ =>
      let Ec := fresh "Ec" in
      destruct (cleanup_temp_files_run e j s) as (? & ? & ? & Ec & ? & ?);
      rewrite (run_val _ _ _ _ _ Ec) in E; clear Ec
  | try_except (rmtree_if_exists ?e) _ ?s = _ =>
      let Er := fresh "Er" in
      destruct (rmtree_run e s) as (? & Er);
      rewrite Er in E; clear Er
  | bind (upload_files ?e ?p ?k0 ?fs) ?k ?s = _ =>
      let Eu := fresh "Eu" in
      destruct (upload_files_run e p fs k0 s)
        as (? & ? & ? & ? & [(Eu & ? & ?)|(? & Eu & ? & ?)]);
      [ rewrite (run_val _ _ _ _ _ Eu) in E
      | rewrite (run_exc _ _ _ _ _ Eu) in E ]; clear Eu
  | match find ?f ?l with _ => _ end _ = _ => destruct (find f l) eqn:?
  | ret _ _ = _ => unfold ret in E
  | raise _ _ = _ => unfold raise in E
  end;
  cbv beta iota in E;
  unfold touched, logged, set_self, set_jobs, set_projects, set_files,
    set_blobs, set_trace, set_output_dir in E;
  cbn [self jobsCollection projectsCollection files blobs trace output_dir] in E.

Ltac exec E :=
  unfold process_job, process_job_try, db_getProject, _upload_potree_output,
    mark_failed in E;
  repeat exec_step E.

(** A call of [update_job_status] whose keyword arguments are encoded
    without an error is the update itself. *)
Ltac unfold_update :=
  repeat match goal with
  | |- context [update_job_status ?a ?b ?c ?d ?kw ?col] =>
      change (update_job_status a b c d kw col)
        with (update_one (has_id c) (update_fields a b d kw) col)
  | H : context [update_job_status ?a ?b ?c ?d ?kw ?col] |- _ =>
      change (update_job_status a b c d kw col)
        with (update_one (has_id c) (update_fields a b d kw) col) in H
  end.

(** ** The pipeline: [process_job] *)

Lemma filter_none_of_two (p : Event -> bool) (a b : Event) (evs : list Event) :
  Forall (fun e => e = a \/ e = b) evs -> p a = false -> p b = false ->
  filter p evs = [].
Proof.
  intros H Ha Hb. induction H as [|e r [->| ->] _ IH]; simpl; auto.
  - now rewrite Ha.
  - now rewrite Hb.
Qed.

Lemma filter_upload_events (p : Event -> bool) (k n : nat) :
  (forall i, p (Called (PotreeUploadBytes i)) = false) ->
  filter p (upload_events k n) = [].
Proof.
  intros H. unfold upload_events. revert k.
  induction n as [|n IH]; intros k; simpl; auto.
  rewrite H. apply IH.
Qed.

Lemma in_upload_events (e : Event) (k n : nat) :
  In e (upload_events k n) ->
  exists i, e = Called (PotreeUploadBytes i) /\ (k <= i < k + n)%nat.
Proof.
  unfold upload_events. intros H. apply in_map_iff in H.
  destruct H as (i & <- & Hi). apply in_seq in Hi. eauto.
Qed.

Lemma in_of_two (e a b : Event) (evs : list Event) :
  Forall (fun e => e = a \/ e = b) evs -> In e evs -> e = a \/ e = b.
Proof. intros H He. rewrite Forall_forall in H. auto. Qed.

Lemma exists_path_add (p : string) (fs : list string) :
  exists_path p (add_path p fs) = true.
Proof.
  unfold add_path. destruct (exists_path p fs) eqn:E; auto.
  unfold exists_path. rewrite existsb_app. simpl.
  rewrite String.eqb_refl. now rewrite orb_true_r.
Qed.

Lemma exists_path_remove (p q : string) (fs : list string) :
  p <> q -> exists_path p (remove_path q fs) = exists_path p fs.
Proof.
  intros Hne. unfold exists_path, remove_path.
  induction fs as [|f r IH]; simpl; auto.
  destruct (String.eqb_spec q f) as [->|Hq]; simpl.
  - rewrite IH. destruct (String.eqb_spec p f); [contradiction|reflexivity].
  - now rewrite IH.
Qed.

Lemma count_app (p : Event -> bool) (a b : list Event) :
  count p (a ++ b) = (count p a + count p b)%nat.
Proof. unfold count. now rewrite filter_app, length_app. Qed.

Lemma count_cons (p : Event -> bool) (e : Event) (l : list Event) :
  count p (e :: l) = ((if p e then 1 else 0) + count p l)%nat.
Proof. unfold count. simpl. now destruct (p e). Qed.

Lemma count_of_two (p : Event -> bool) (a b : Event) (evs : list Event) :
  Forall (fun e => e = a \/ e = b) evs -> p a = false -> p b = false ->
  count p evs = 0%nat.
Proof. intros H Ha Hb. unfold count. now rewrite (filter_none_of_two p a b evs). Qed.

Lemma count_upload_events (p : Event -> bool) (k n : nat) :
  (forall i, p (Called (PotreeUploadBytes i)) = false) ->
  count p (upload_events k n) = 0%nat.
Proof. intros H. unfold count. now rewrite filter_upload_events. Qed.

(** Counting in a trace made of known events and of the segments the
    sub-steps contribute. *)
Ltac count_norm :=
  repeat first
    [ rewrite count_app
    | rewrite count_cons
    | match goal with
      | H : Forall (fun e => e = ?a \/ e = ?b) ?evs |- context [count ?p ?evs] =>
          rewrite (count_of_two p a b evs H eq_refl eq_refl)
      | |- context [count ?p (upload_events ?k ?n)] =>
          rewrite (count_upload_events p k n (fun _ => eq_refl))
      end ];
  cbn [is_cleanup is_rmtree count filter List.length Nat.add].

Ltac find_in :=
  solve [repeat first [ apply in_eq | apply in_cons | (apply in_or_app; right) ]].

Ltac refute_in H :=
  cbn [In] in H;
  lazymatch type of H with
  | _ \/ _ => destruct H as [H|H]; refute_in H
  | In _ (_ ++ _) => apply in_app_or in H; refute_in H
  | In _ (if ?c then _ else _) => destruct c; refute_in H
  | In _ (upload_events _ _) =>
      apply in_upload_events in H; destruct H as (? & H & _); discriminate H
  | In _ ?x =>
      match goal with
      | F : Forall _ x |- _ =>
          apply (in_of_two _ _ _ _ F) in H; destruct H as [H|H]; discriminate H
      end
  | False => destruct H
  | _ = _ => discriminate H
  end.

Ltac leaf_cleanup :=
  cbn [self jobsCollection projectsCollection files blobs trace output_dir] in *;
  unfold rmtree_due; cbn [trace output_dir files];
  rewrite <- ?app_assoc; cbn [app]; eexists; (split; [reflexivity|]);
  try match goal with
  | |- context [truthy ?d && exists_path ?d ?fs] =>
      destruct (truthy d && exists_path d fs) eqn:?
  end;
  count_norm;
  (split; [reflexivity|]);
  (split; [find_in|]);
  (split; [lia|]);
  (split;
   [ intros Hone;
     first [discriminate Hone
           | split; [find_in | first [assumption | reflexivity]]]
   | intros Hin Hf Htr Hne;
     first
       [ reflexivity
       | congruence
       | refute_in Hin
       | exfalso;
         match goal with
         | Hfs : ?x = _ \/ ?x = _, Hd : _ && exists_path _ ?x = false |- _ =>
             destruct Hfs as [Hfs|Hfs]; rewrite Hfs in Hd;
             rewrite ?exists_path_remove in Hd by assumption;
             rewrite exists_path_add, Htr in Hd; discriminate Hd
         end ] ]).

(** C4.  The code does not keep it on every exit path.  The cleanup is
    written twice, at the end of the [try] and in the handler after
    [mark_failed] (under the comment that it cleans up even on failure),
    and the call of [mark_failed] is not guarded.  When the database
    stops answering during a job, the status update of step 2 raises,
    then the one of [mark_failed] raises inside the handler: the
    exception leaves [process_job] before any cleanup has run, no
    [cleanup_temp_files] and no [rmtree] is in the trace, and the staged
    file and blob are still there. *)
Theorem process_job_exit_without_cleanup :
  let env := example_env 500000 [(UpdThumbnail, "connection lost");
                              (UpdFailed, "connection lost")] in
  let job := example_job "J1" "processing" None 100000 0 in
  let s := example_state (Some 400000) [job] in
  fst (process_job env job s) = Exc "connection lost" /\
  trace (snd (process_job env job s)) =
    [Called GetProject; Called UpdMetadata; Called CloudMetadataSummary;
     Called UpdThumbnail; Called UpdFailed] /\
  files (snd (process_job env job s)) = ["/tmp/in.laz"] /\
  blobs (snd (process_job env job s)) = ["jobs/in.laz"] /\
  count is_cleanup (trace (snd (process_job env job s))) = 0%nat /\
  count is_rmtree (trace (snd (process_job env job s))) = 0%nat /\
  ~ (exists evs, trace (snd (process_job env job s)) = trace s ++ evs /\
                 count is_cleanup evs = 1%nat).
Proof.
  cbv zeta. repeat split; try (vm_compute; reflexivity).
  intros (evs & Ht & Hc). vm_compute in Ht. subst evs. vm_compute in Hc.
  discriminate Hc.
Qed.

(** [process_job] returns normally unless the status update of
    [mark_failed] itself raises.  Whenever it returns normally, after a
    success or after a failure, [cleanup_temp_files] has run exactly once
    for the job, and [shutil.rmtree] has been called at most once, only
    on a directory [mkdtemp] had created, and exactly once when that
    directory has a non-empty name other than the job's input file. *)
Lemma process_job_cleanup_once (env : Env) (job : Job) (s : State) :
  (fault env UpdFailed = None -> fst (process_job env job s) = Val tt) /\
  (fst (process_job env job s) = Val tt ->
   exists evs,
     trace (snd (process_job env job s)) = trace s ++ evs /\
     count is_cleanup evs = 1%nat /\
     In (CleanupTempFiles (_id job)) evs /\
     (count is_rmtree evs <= 1)%nat /\
     (count is_rmtree evs = 1%nat ->
      In (Called MkDtemp) evs /\ fault env MkDtemp = None) /\
     (In (Called MkDtemp) evs -> fault env MkDtemp = None ->
      truthy (mkdtemp env) = true -> mkdtemp env <> file_path job ->
      count is_rmtree evs = 1%nat)).
Proof.
  destruct (process_job env job s) as [r s'] eqn:E. cbn [fst snd].
  unfold process_job in E. rewrite run_modify in E. unfold try_except at 1 in E.
  destruct (process_job_try env job (set_output_dir None s))
    as [[[]|msg] s1] eqn:Etry.
  - split; [intros _; congruence|]. intros ->.
    exec Etry; try discriminate Etry.
    all: injection Etry as <-; injection E as <-.
    all: leaf_cleanup.
  - split.
    + intros Hf. exec E; congruence.
    + intros ->. exec Etry; try discriminate Etry.
      all: injection Etry as <- <-.
      all: exec E; try discriminate E.
      all: injection E as <-.
      all: leaf_cleanup.
Qed.

(** After a conversion that failed the cleanup has run once. *)
Example process_job_cleanup_once_conversion_fails :
  let env := example_env 500000 [(Convert, "PotreeConverter failed")] in
  let job := example_job "J1" "processing" None 100000 0 in
  let s := example_state (Some 400000) [job] in
  exists evs,
    trace (snd (process_job env job s)) = trace s ++ evs /\
    count is_cleanup evs = 1%nat /\
    In (CleanupTempFiles (_id job)) evs /\
    (count is_rmtree evs <= 1)%nat /\
    (count is_rmtree evs = 1%nat ->
     In (Called MkDtemp) evs /\ fault env MkDtemp = None) /\
    (In (Called MkDtemp) evs -> fault env MkDtemp = None ->
     truthy (mkdtemp env) = true -> mkdtemp env <> file_path job ->
     count is_rmtree evs = 1%nat).
Proof.
  intros env job s.
  apply (proj2 (process_job_cleanup_once env job s)).
  vm_compute. reflexivity.
Defined.








Lemma in_upload_events_intro (k n i : nat) :
  (k <= i < k + n)%nat -> In (Called (PotreeUploadBytes i)) (upload_events k n).
Proof.
  intros Hi. unfold upload_events. apply in_map_iff. exists i. split; auto.
  apply in_seq. lia.
Qed.

Ltac find_in_by tac :=
  solve [repeat first [ apply in_eq
                      | (apply in_or_app; left; solve [tac])
                      | apply in_cons
                      | (apply in_or_app; right) ]].






(** When the upload of the second output file raises, the first one has
    been uploaded, the URL is not signed, and the job is marked failed
    with the message of the upload. *)
Example process_job_second_upload_fails :
  let env := example_env 500000 [(PotreeUploadBytes 1, "blob storage is full")] in
  let job := example_job "J1" "processing" None 100000 0 in
  let s := example_state (Some 400000) [job] in
  fst (process_job env job s) = Val tt /\
  filter (fun e => match e with
                   | Called (PotreeUploadBytes _) | Called PotreeSas
                   | Called UpdFailed => true
                   | _ => false
                   end) (trace (snd (process_job env job s))) =
    [Called (PotreeUploadBytes 0); Called (PotreeUploadBytes 1); Called UpdFailed] /\
  option_map (fun d => (status d, error_message d))
             (get_job "J1" (jobsCollection (snd (process_job env job s)))) =
    Some ("failed", Some "blob storage is full").
Proof. repeat split; vm_compute; reflexivity. Qed.

Lemma find_replace_project (i : string) (q p : Project) (ps : list Project) :
  proj_id q = i ->
  find (fun p => String.eqb (proj_id p) i) ps = Some p ->
  find (fun p => String.eqb (proj_id p) i) (replace_project q ps) = Some q.
Proof.
  intros <-. induction ps as [|a r IH]; simpl; [discriminate|].
  destruct (String.eqb_spec (proj_id a) (proj_id q)) as [Ha|Ha]; simpl.
  - intros _. now rewrite String.eqb_refl.
  - intros H. destruct (String.eqb_spec (proj_id a) (proj_id q)); [contradiction|].
    now apply IH.
Qed.

(* the project object of the pipeline keeps the id and, the thumbnail
   step having failed, the thumbnail of the project read *)
Ltac project_field Hthumb :=
  rewrite ?Hthumb;
  destruct (md_points _ =? 0); destruct (md_center _) as [[|? ?]|];
  cbn; auto.

Ltac no_fault Hall :=
  match goal with
  | H : fault _ _ = Some _ |- _ =>
      rewrite Hall in H by (cbn; first [reflexivity | discriminate]); discriminate H
  end.

(** C5.  When the thumbnail step raises and every other call of the
    pipeline returns, [process_job] goes on: the converter and every
    upload are called, nothing is marked failed, the job ends with status
    [completed] and step [completed], and the project stored has the cloud
    URL and the thumbnail it had before. *)
Theorem process_job_thumbnail_soft
    (env : Env) (job : Job) (s : State) (p : Project) (d : Job) :
  thumbnail_ok env = false ->
  (forall c, position c <> None -> thumbnail_call c = false -> fault env c = None) ->
  find (fun q => String.eqb (proj_id q) (project_id job)) (projectsCollection s) = Some p ->
  get_job (_id job) (jobsCollection s) = Some d ->
  fst (process_job env job s) = Val tt /\
  exists evs,
    trace (snd (process_job env job s)) = trace s ++ evs /\
    In (Called ThumbnailGenerate) evs /\
    In (Called Convert) evs /\
    (forall i, (i < List.length (walk env))%nat -> In (Called (PotreeUploadBytes i)) evs) /\
    In (Called PotreeSas) evs /\
    ~ In (Called UpdFailed) evs /\
    (exists d',
       get_job (_id job) (jobsCollection (snd (process_job env job s))) = Some d' /\
       status d' = "completed" /\ current_step d' = Some "completed" /\
       completed_at d' <> None) /\
    (exists p',
       find (fun q => String.eqb (proj_id q) (project_id job))
            (projectsCollection (snd (process_job env job s))) = Some p' /\
       thumbnail p' = thumbnail p /\
       cloud p' = Some (potree_sas_url env)).
Proof.
  intros Hthumb Hall Hproj Hjob.
  destruct (process_job env job s) as [r s'] eqn:E. cbn [fst snd].
  unfold process_job in E. rewrite run_modify in E. unfold try_except at 1 in E.
  destruct (process_job_try env job (set_output_dir None s))
    as [[[]|msg0] s1] eqn:Etry.
  - exec Etry; try discriminate Etry.
    all: injection Etry as <-; injection E as <- <-.
    all: cbn [self jobsCollection projectsCollection files blobs trace output_dir] in *;
         unfold rmtree_due; cbn [trace output_dir files];
         rewrite <- ?app_assoc; cbn [app].
    all: split; [reflexivity|]; eexists; (split; [reflexivity|]).
    injection Hproj as ->.
    assert (Hid : proj_id p = project_id job).
    { apply find_some in Heqo0. now apply String.eqb_eq. }
    split; [find_in|]. split; [find_in|].
    split; [intros i Hi; find_in_by ltac:(apply in_upload_events_intro; lia)|].
    split; [find_in|].
    split; [intros Hin; refute_in Hin|].
    split.
    + unfold get_job in *; unfold_update.
      rewrite !find_one_update_one, Hjob; cbn [option_map].
      eexists; (split; [reflexivity|]); cbn.
      repeat split; discriminate.
    + eexists. split.
      * eapply find_replace_project;
          [|eapply find_replace_project; [|exact Heqo0]].
        -- cbn. project_field Hthumb.
        -- project_field Hthumb.
      * split; [cbn; project_field Hthumb | reflexivity].
  - exfalso. exec Etry; try discriminate Etry; try no_fault Hall.
    discriminate Hproj.
Qed.

Lemma process_job_thumbnail_soft_witness :
  let env := example_env 500000 [(ThumbnailGenerate, "no points to render")] in
  let job := example_job "J1" "processing" None 100000 0 in
  let s := example_state (Some 400000) [job] in
  fst (process_job env job s) = Val tt /\
  exists evs,
    trace (snd (process_job env job s)) = trace s ++ evs /\
    In (Called ThumbnailGenerate) evs /\
    In (Called Convert) evs /\
    (forall i, (i < List.length (walk env))%nat ->
               In (Called (PotreeUploadBytes i)) evs) /\
    In (Called PotreeSas) evs /\
    ~ In (Called UpdFailed) evs /\
    (exists d',
       get_job (_id job) (jobsCollection (snd (process_job env job s))) = Some d' /\
       status d' = "completed" /\ current_step d' = Some "completed" /\
       completed_at d' <> None) /\
    (exists p',
       find (fun q => String.eqb (proj_id q) (project_id job))
            (projectsCollection (snd (process_job env job s))) = Some p' /\
       thumbnail p' = thumbnail example_project /\
       cloud p' = Some (potree_sas_url env)).
Proof.
  intros env job s.
  apply (process_job_thumbnail_soft env job s example_project job).
  - vm_compute. reflexivity.
  - intros c Hpos Hth. destruct c; try reflexivity; discriminate Hth.
  - vm_compute. reflexivity.
  - vm_compute. reflexivity.
Defined.

(** ** The worker loop and the reaper *)

Lemma _check_and_run_cleanup_run (env : Env) (force : bool) (s : State) :
  _check_and_run_cleanup env force s =
  (Val tt,
   if cleanup_due (self s) (utcnow env (ClockCheck force)) then
     match fault env CleanupOldJobs with
     | Some _ => logged (Called CleanupOldJobs) s
     | None =>
         {| self := {| poll_interval := poll_interval (self s);
                       cleanup_interval_hours := cleanup_interval_hours (self s);
                       last_cleanup_time := Some (utcnow env (ClockCheck force));
                       running := running (self s) |};
            jobsCollection :=
              fst (cleanup_old_jobs (utcnow env (ClockPurge force)) 72
                     (jobsCollection s));
            projectsCollection := projectsCollection s;
            files := files s;
            blobs := blobs s;
            trace := trace s ++ [Called CleanupOldJobs];
            output_dir := output_dir s |}
     end
   else s).
Proof.
  unfold _check_and_run_cleanup, cleanup_due. rewrite run_get.
  destruct (last_cleanup_time (self s)) as [last|]; cbn beta iota zeta.
  - destruct force;
      destruct (interval_passed _ last (cleanup_interval_hours (self s)));
      unfold when, try_except; try reflexivity;
      rewrite run_call; destruct (fault env CleanupOldJobs); reflexivity.
  - unfold when, try_except.
    rewrite run_call; destruct (fault env CleanupOldJobs); reflexivity.
Qed.

(** ** Finished jobs and [completed_at] *)

Lemma Forall2_in_r {A B : Type} (R : A -> B -> Prop) (l : list A) (l' : list B) :
  Forall2 R l l' -> forall b, In b l' -> exists a, In a l /\ R a b.
Proof.
  induction 1 as [|a b l l' Hab _ IH]; intros x; simpl; [intros []|].
  intros [<-|Hx]; [eauto|]. destruct (IH x Hx) as (a' & Ha' & HR). eauto.
Qed.

Lemma update_job_status_in (t1 t2 : datetime) (job_id status' : string)
    (kw : Kwargs) (c : Collection) (d' : Job) :
  In d' (update_job_status t1 t2 job_id status' kw c) ->
  In d' c \/
  exists d, In d c /\ _id d = job_id /\
            d' = apply_set (update_fields t1 t2 status' kw) d.
Proof.
  intros H.
  destruct (Forall2_in_r _ _ _
              (update_job_status_Forall2 t1 t2 job_id status' kw c) d' H)
    as (d & Hd & [->|[Hid ->]]); [now left|].
  right. exists d. repeat split; auto. now apply String.eqb_eq.
Qed.

Lemma update_job_status_ids (t1 t2 : datetime) (job_id status' : string)
    (kw : Kwargs) (c : Collection) :
  map _id (update_job_status t1 t2 job_id status' kw c) = map _id c.
Proof.
  unfold update_job_status.
  destruct (update_job_status_raises kw); [reflexivity|].
  induction c as [|d r IH]; simpl; auto.
  destruct (has_id job_id d); simpl; [reflexivity | now rewrite IH].
Qed.

Lemma unfinished_update (t1 t2 : datetime) (job_id status' : string)
    (kw : Kwargs) (c : Collection) :
  is_terminal status' = false ->
  completed_at_iff_terminal c /\ live job_id c ->
  completed_at_iff_terminal (update_job_status t1 t2 job_id status' kw c) /\
  live job_id (update_job_status t1 t2 job_id status' kw c).
Proof.
  intros Hst [Hinv Hlive]. split.
  - intros d' Hd'. apply update_job_status_in in Hd'.
    destruct Hd' as [Hd'|(d & Hd & Hid & ->)]; [now apply Hinv|].
    destruct (Hlive d Hd Hid) as [Hc _]. cbn. rewrite Hst, Hc.
    split; [congruence | discriminate].
  - intros d' Hd' Hid'. apply update_job_status_in in Hd'.
    destruct Hd' as [Hd'|(d & Hd & Hid & ->)]; [now apply Hlive|].
    destruct (Hlive d Hd Hid) as [Hc _]. cbn. now rewrite Hst, Hc.
Qed.

Lemma finished_update (t1 t2 : datetime) (job_id status' : string)
    (kw : Kwargs) (c : Collection) :
  is_terminal status' = true ->
  completed_at_iff_terminal c ->
  completed_at_iff_terminal (update_job_status t1 t2 job_id status' kw c).
Proof.
  intros Hst Hinv d' Hd'. apply update_job_status_in in Hd'.
  destruct Hd' as [Hd'|(d & Hd & Hid & ->)]; [now apply Hinv|].
  cbn. rewrite Hst. split; [auto | discriminate].
Qed.

Lemma any_update_keeps_terminal_completed (t1 t2 : datetime)
    (job_id status' : string) (kw : Kwargs) (c : Collection) :
  terminal_has_completed_at c ->
  terminal_has_completed_at (update_job_status t1 t2 job_id status' kw c).
Proof.
  intros Hinv d' Hd'. apply update_job_status_in in Hd'.
  destruct Hd' as [Hd'|(d & Hd & Hid & ->)]; [now apply Hinv|].
  cbn. intros Hst. rewrite Hst. discriminate.
Qed.

Ltac leaf_store :=
  cbn [self jobsCollection projectsCollection files blobs trace output_dir] in *;
  unfold rmtree_due; cbn [trace output_dir files];
  rewrite <- ?app_assoc; cbn [app].

(** What every run of [process_job] does to the worker, to the job
    collection and to the trace. *)
Lemma process_job_facts (env : Env) (job : Job) (s : State) :
  let s' := snd (process_job env job s) in
  self s' = self s /\
  map _id (jobsCollection s') = map _id (jobsCollection s) /\
  (completed_at_iff_terminal (jobsCollection s) /\ live (_id job) (jobsCollection s) ->
   completed_at_iff_terminal (jobsCollection s')) /\
  (terminal_has_completed_at (jobsCollection s) ->
   terminal_has_completed_at (jobsCollection s')) /\
  exists evs,
    trace s' = trace s ++ evs /\
    In (Called GetProject) evs /\ ~ In (Called CleanupOldJobs) evs.
Proof.
  destruct (process_job env job s) as [r s'] eqn:E. cbn [fst snd].
  unfold process_job in E. rewrite run_modify in E. unfold try_except at 1 in E.
  destruct (process_job_try env job (set_output_dir None s))
    as [[[]|msg0] s1] eqn:Etry.
  - exec Etry; try discriminate Etry.
    all: injection Etry as <-; injection E as <- <-.
    all: leaf_store.
    all: split; [reflexivity|].
    all: split; [now rewrite !update_job_status_ids|].
    all: split;
      [ intros Hst; apply finished_update; [reflexivity|];
        refine (proj1 _);
        repeat (apply unfinished_update; [reflexivity|]); exact Hst |].
    all: split;
      [ intros Hth; repeat apply any_update_keeps_terminal_completed; exact Hth |].
    all: eexists; (split; [reflexivity|]); (split; [find_in|]).
    all: intros Hin; refute_in Hin.
  - exec Etry; try discriminate Etry.
    all: injection Etry as <- <-.
    all: exec E.
    all: injection E as <- <-.
    all: leaf_store.
    all: split; [reflexivity|].
    all: split; [now rewrite ?update_job_status_ids|].
    all: split;
      [ intros Hst; try (apply finished_update; [reflexivity|]);
        refine (proj1 _);
        repeat (apply unfinished_update; [reflexivity|]); exact Hst |].
    all: split;
      [ intros Hth; repeat apply any_update_keeps_terminal_completed; exact Hth |].
    all: eexists; (split; [reflexivity|]); (split; [find_in|]).
    all: intros Hin; refute_in Hin.
Qed.

Lemma get_next_job_returns (env : Env) (s : State) :
  exists r, fst (get_next_job env s) = Val r.
Proof.
  destruct (fault env FindOneAndUpdate) as [msg|] eqn:F.
  - rewrite (get_next_job_unanswered env s msg F). cbn. eauto.
  - rewrite (get_next_job_answered env s F). cbn. eauto.
Qed.

Lemma get_next_job_facts (env : Env) (s : State) :
  self (snd (get_next_job env s)) = self s /\
  trace (snd (get_next_job env s)) = trace s ++ [Called FindOneAndUpdate].
Proof.
  destruct (fault env FindOneAndUpdate) as [msg|] eqn:F.
  - rewrite (get_next_job_unanswered env s msg F). cbn. auto.
  - rewrite (get_next_job_answered env s F). cbn. auto.
Qed.

(** [time.sleep] sleeps or raises, and does nothing else. *)
Lemma time_sleep_run (s : State) :
  time_sleep s =
  match time_sleep_raises (poll_interval (self s)) with
  | Some msg => (Exc msg, s)
  | None => (Val tt, logged Sleep s)
  end.
Proof.
  unfold time_sleep. rewrite run_get.
  destruct (time_sleep_raises (poll_interval (self s))); reflexivity.
Qed.

Lemma time_sleep_raises_none (secs : Z) :
  time_sleep_raises secs = None <-> 0 <= secs <= 9223372036.
Proof.
  unfold time_sleep_raises.
  destruct (Z.ltb_spec secs (- 9223372036)) as [H1|H1];
    destruct (Z.ltb_spec 9223372036 secs) as [H2|H2];
    destruct (Z.ltb_spec secs 0) as [H3|H3];
    cbn; split; intros H; try discriminate; try lia; auto.
Qed.

Lemma time_sleep_facts (s : State) :
  let s' := snd (time_sleep s) in
  self s' = self s /\ jobsCollection s' = jobsCollection s /\
  projectsCollection s' = projectsCollection s /\
  files s' = files s /\ blobs s' = blobs s /\ output_dir s' = output_dir s /\
  trace s' = trace s ++ (match time_sleep_raises (poll_interval (self s)) with
                         | Some _ => []
                         | None => [Sleep]
                         end).
Proof.
  cbv zeta. rewrite time_sleep_run.
  destruct (time_sleep_raises (poll_interval (self s)));
    cbn; rewrite ?app_nil_r; auto 10.
Qed.

Lemma time_sleep_jobs (s : State) :
  jobsCollection (snd (time_sleep s)) = jobsCollection s.
Proof. apply time_sleep_facts. Qed.

Lemma time_sleep_self (s : State) : self (snd (time_sleep s)) = self s.
Proof. apply time_sleep_facts. Qed.

(** The sleep of the handler behind a sleep that raised raises again. *)
Lemma time_sleep_retried (s : State) :
  try_except time_sleep (fun _ => time_sleep) s = time_sleep s.
Proof.
  unfold try_except. rewrite time_sleep_run.
  destruct (time_sleep_raises (poll_interval (self s))) eqn:E; [|reflexivity].
  now rewrite time_sleep_run, E.
Qed.

(** One turn of the loop is its first check followed by the rest. *)
Lemma loop_body_run (env : Env) (s : State) :
  snd (loop_body env s) = loop_rest env (snd (_check_and_run_cleanup env false s)).
Proof.
  unfold loop_body, loop_rest, try_except. unfold bind at 1.
  rewrite _check_and_run_cleanup_run. cbn [fst snd].
  set (s1 := if cleanup_due _ _ then _ else s).
  unfold bind at 1.
  destruct (get_next_job env s1) as [[[j|]|msg] s2] eqn:G; cbn [fst snd].
  - unfold bind at 1.
    destruct (process_job env j s2) as [[[]|msg] s3] eqn:P; cbn [fst snd].
    + rewrite _check_and_run_cleanup_run. reflexivity.
    + reflexivity.
  - change (snd (try_except time_sleep (fun _ => time_sleep) s2) = snd (time_sleep s2)).
    now rewrite time_sleep_retried.
  - destruct (get_next_job_returns env s1) as (r & Hr).
    rewrite G in Hr. discriminate Hr.
Qed.

(** After the first check the reaper is called exactly when a job was
    claimed, [process_job] came back from it and the reaper is due then;
    it is called once, as the last thing of the turn. *)
Lemma loop_rest_trace (env : Env) (s1 : State) :
  exists evs,
    trace (loop_rest env s1) = trace s1 ++ Called FindOneAndUpdate :: evs /\
    (In (Called CleanupOldJobs) evs <->
     (exists j,
        fst (get_next_job env s1) = Val (Some j) /\
        fst (process_job env j (snd (get_next_job env s1))) = Val tt) /\
     cleanup_due (self s1) (utcnow env (ClockCheck true)) = true) /\
    (In (Called CleanupOldJobs) evs ->
     exists evs_p,
       evs = evs_p ++ [Called CleanupOldJobs] /\
       In (Called GetProject) evs_p /\ ~ In (Called CleanupOldJobs) evs_p).
Proof.
  unfold loop_rest. cbv zeta.
  destruct (get_next_job_facts env s1) as [Hself Hg].
  destruct (fst (get_next_job env s1)) as [[j|]|msg].
  - destruct (process_job_facts env j (snd (get_next_job env s1)))
      as (Hself' & _ & _ & _ & evs_p & Hp & Hget & Hno).
    destruct (fst (process_job env j (snd (get_next_job env s1))))
      as [[]|msg] eqn:Ep.
    + rewrite _check_and_run_cleanup_run. cbn [snd].
      rewrite Hself', Hself.
      destruct (cleanup_due (self s1) (utcnow env (ClockCheck true))).
      * exists (evs_p ++ [Called CleanupOldJobs]). split; [|split].
        -- destruct (fault env CleanupOldJobs);
             cbn [trace logged set_trace]; rewrite Hp, Hg, <- ?app_assoc;
             reflexivity.
        -- split; [intros _|intros _; apply in_or_app; right; now left].
           split; [|reflexivity]. exists j. split; [reflexivity|exact Ep].
        -- intros _. now exists evs_p.
      * exists evs_p. split; [|split].
        -- rewrite Hp, Hg, <- ?app_assoc. reflexivity.
        -- split; [intros Hin; contradiction | intros [_ Hd]; discriminate Hd].
        -- intros Hin. contradiction.
    + destruct (time_sleep_facts (snd (process_job env j (snd (get_next_job env s1)))))
        as (_ & _ & _ & _ & _ & _ & Ht).
      set (slept := match time_sleep_raises _ with Some _ => [] | None => [Sleep] end)
        in Ht.
      exists (evs_p ++ slept).
      assert (Hnot : ~ In (Called CleanupOldJobs) (evs_p ++ slept)).
      { intros Hin. apply in_app_or in Hin. destruct Hin as [Hin|Hin]; [contradiction|].
        subst slept. destruct (time_sleep_raises _); [destruct Hin|].
        destruct Hin as [Hin|[]]. discriminate Hin. }
      split; [|split].
      * rewrite Ht, Hp, Hg, <- ?app_assoc. reflexivity.
      * split; [intros Hin; contradiction|].
        intros [(j' & Hj & Hv) _]. injection Hj as <-.
        rewrite Ep in Hv. discriminate Hv.
      * intros Hin. contradiction.
  - destruct (time_sleep_facts (snd (get_next_job env s1)))
      as (_ & _ & _ & _ & _ & _ & Ht).
    set (slept := match time_sleep_raises _ with Some _ => [] | None => [Sleep] end)
      in Ht.
    exists slept.
    assert (Hnot : ~ In (Called CleanupOldJobs) slept).
    { subst slept. destruct (time_sleep_raises _); [intros []|].
      intros [Hin|[]]. discriminate Hin. }
    split; [|split].
    + rewrite Ht, Hg, <- ?app_assoc. reflexivity.
    + split; [intros Hin; contradiction|].
      intros [(j' & Hv & _) _]. discriminate Hv.
    + intros Hin. contradiction.
  - destruct (time_sleep_facts (snd (get_next_job env s1)))
      as (_ & _ & _ & _ & _ & _ & Ht).
    set (slept := match time_sleep_raises _ with Some _ => [] | None => [Sleep] end)
      in Ht.
    exists slept.
    assert (Hnot : ~ In (Called CleanupOldJobs) slept).
    { subst slept. destruct (time_sleep_raises _); [intros []|].
      intros [Hin|[]]. discriminate Hin. }
    split; [|split].
    + rewrite Ht, Hg, <- ?app_assoc. reflexivity.
    + split; [intros Hin; contradiction|].
      intros [(j' & Hv & _) _]. discriminate Hv.
    + intros Hin. contradiction.
Qed.

(** C9, as stated, fails: an hour after the last cleanup, with no job to
    process, the turn of the loop calls the reaper at its start, then
    finds nothing to claim and sleeps. *)
Lemma reaper_runs_in_idle_turn :
  let env := example_env (400000 + timedelta_hours 1) [] in
  let s := example_state (Some 400000) [] in
  last_cleanup_time (self s) = Some 400000 /\
  trace (snd (loop_body env s)) =
    [Called CleanupOldJobs; Called FindOneAndUpdate; Sleep] /\
  last_cleanup_time (self (snd (loop_body env s))) =
    Some (400000 + timedelta_hours 1) /\
  ~ (In (Called CleanupOldJobs) (trace (snd (loop_body env s))) ->
     In (Called GetProject) (trace (snd (loop_body env s)))).
Proof.
  cbv zeta. repeat split; try (vm_compute; reflexivity).
  intros H.
  assert (Hin : In (Called GetProject)
                  [Called CleanupOldJobs; Called FindOneAndUpdate; Sleep])
    by (apply H; vm_compute; auto).
  destruct Hin as [Hin|[Hin|[Hin|[]]]]; discriminate Hin.
Qed.

(** The first check of a turn, once a cleanup has succeeded. *)
Lemma first_check_run (env : Env) (s : State) (last : datetime) :
  last_cleanup_time (self s) = Some last ->
  let hours := cleanup_interval_hours (self s) in
  let t0 := utcnow env (ClockCheck false) in
  let s1 := snd (_check_and_run_cleanup env false s) in
  trace s1 =
    trace s ++ (if interval_passed t0 last hours
                then [Called CleanupOldJobs] else []) /\
  cleanup_interval_hours (self s1) = hours /\
  last_cleanup_time (self s1) =
    Some (if interval_passed t0 last hours
          then match fault env CleanupOldJobs with
               | None => t0
               | Some _ => last
               end
          else last).
Proof.
  intros Hlast. cbv zeta. rewrite _check_and_run_cleanup_run. cbn [snd].
  unfold cleanup_due. rewrite Hlast.
  destruct (interval_passed _ last _).
  - destruct (fault env CleanupOldJobs); cbn; auto.
  - rewrite app_nil_r. auto.
Qed.

(** C9, amended.  Once a cleanup has succeeded, every turn of the loop,
    idle or not, calls the reaper at its start exactly when the test of
    the worker holds: the hours since the last successful cleanup,
    computed in floating point, are at least [cleanup_interval_hours].
    Behind a job from which [process_job] has returned the turn applies
    the same test again, to the last successful cleanup as it is then,
    and calls the reaper exactly when it holds; this call is the last
    thing of the turn, and the reaper is called nowhere else.  For an
    interval from 0 to [2^21] hours the test holds exactly when the
    interval has passed between the two readings of the clock. *)
Theorem loop_body_reaper_schedule (env : Env) (s : State) (last : datetime) :
  last_cleanup_time (self s) = Some last ->
  let hours := cleanup_interval_hours (self s) in
  let t0 := utcnow env (ClockCheck false) in
  let t1 := utcnow env (ClockCheck true) in
  let due0 := interval_passed t0 last hours in
  let last1 := if due0
               then match fault env CleanupOldJobs with
                    | None => t0
                    | Some _ => last
                    end
               else last in
  let due1 := interval_passed t1 last1 hours in
  let s1 := snd (_check_and_run_cleanup env false s) in
  let processed :=
    exists j, fst (get_next_job env s1) = Val (Some j) /\
              fst (process_job env j (snd (get_next_job env s1))) = Val tt in
  exists rest,
    trace (snd (loop_body env s)) =
      trace s ++ (if due0 then [Called CleanupOldJobs] else [])
              ++ Called FindOneAndUpdate :: rest /\
    (In (Called CleanupOldJobs) rest <-> processed /\ due1 = true) /\
    (In (Called CleanupOldJobs) rest ->
     exists evs_p,
       rest = evs_p ++ [Called CleanupOldJobs] /\
       In (Called GetProject) evs_p /\ ~ In (Called CleanupOldJobs) evs_p) /\
    (0 <= hours < 2 ^ 21 ->
     due0 = (timedelta_hours hours <=? t0 - last) /\
     due1 = (timedelta_hours hours <=? t1 - last1)).
Proof.
  intros Hlast hours t0 t1 due0 last1 due1 s1 processed.
  destruct (first_check_run env s last Hlast) as (Ht1 & Hh1 & Hl1).
  fold hours t0 s1 due0 in Ht1, Hh1, Hl1. fold last1 in Hl1.
  rewrite loop_body_run. fold s1.
  destruct (loop_rest_trace env s1) as (rest & Ht & Hiff & Hlastcall).
  assert (Hdue : cleanup_due (self s1) t1 = due1).
  { unfold cleanup_due. now rewrite Hl1, Hh1. }
  exists rest. split; [|split; [|split]].
  - rewrite Ht, Ht1, <- app_assoc. reflexivity.
  - fold t1 in Hiff. rewrite Hdue in Hiff. exact Hiff.
  - exact Hlastcall.
  - intros Hh. split; apply interval_passed_small; exact Hh.
Qed.

Lemma loop_body_reaper_schedule_witness :
  let env := example_env (400000 + timedelta_hours 1) [] in
  let job := example_job "J1" "pending" None 100000 0 in
  let s := example_state (Some 400000) [job] in
  let hours := cleanup_interval_hours (self s) in
  let t0 := utcnow env (ClockCheck false) in
  let t1 := utcnow env (ClockCheck true) in
  let due0 := interval_passed t0 400000 hours in
  let last1 := if due0
               then match fault env CleanupOldJobs with
                    | None => t0
                    | Some _ => 400000
                    end
               else 400000 in
  let due1 := interval_passed t1 last1 hours in
  let s1 := snd (_check_and_run_cleanup env false s) in
  let processed :=
    exists j, fst (get_next_job env s1) = Val (Some j) /\
              fst (process_job env j (snd (get_next_job env s1))) = Val tt in
  exists rest,
    trace (snd (loop_body env s)) =
      trace s ++ (if due0 then [Called CleanupOldJobs] else [])
              ++ Called FindOneAndUpdate :: rest /\
    (In (Called CleanupOldJobs) rest <-> processed /\ due1 = true) /\
    (In (Called CleanupOldJobs) rest ->
     exists evs_p,
       rest = evs_p ++ [Called CleanupOldJobs] /\
       In (Called GetProject) evs_p /\ ~ In (Called CleanupOldJobs) evs_p) /\
    (0 <= hours < 2 ^ 21 ->
     due0 = (timedelta_hours hours <=? t0 - 400000) /\
     due1 = (timedelta_hours hours <=? t1 - last1)).
Proof.
  intros env job s.
  apply (loop_body_reaper_schedule env s 400000). reflexivity.
Defined.

(** The interval runs out while a job is processed: the turn does not
    call the reaper at its start, and calls it behind the job. *)
Example reaper_runs_behind_a_job :
  let env := late_check_env 500000 (400000 + timedelta_hours 1) in
  let job := example_job "J1" "pending" None 100000 0 in
  let s := snd (loop_body env (example_state (Some 400000) [job])) in
  hd_error (trace s) = Some (Called FindOneAndUpdate) /\
  count is_reaper (trace s) = 1%nat /\
  last (trace s) Sleep = Called CleanupOldJobs /\
  last_cleanup_time (self s) = Some (400000 + timedelta_hours 1) /\
  map (fun d => (_id d, status d)) (jobsCollection s) = [("J1", "completed")].
Proof. cbv zeta. repeat split; vm_compute; reflexivity. Qed.

(** With 4782260 hours between the cleanups the rounding lets the test
    hold early: an idle turn calls the reaper a microsecond before the
    interval has passed. *)
Example reaper_runs_a_microsecond_early :
  let hours := 4782260 in
  let env := example_env (timedelta_hours hours - 1) [] in
  let s0 := example_state (Some 0) [] in
  let s := set_self {| poll_interval := 5; cleanup_interval_hours := hours;
                       last_cleanup_time := Some 0; running := true |} s0 in
  utcnow env (ClockCheck false) - 0 < timedelta_hours hours /\
  trace (snd (loop_body env s)) =
    [Called CleanupOldJobs; Called FindOneAndUpdate; Sleep].
Proof. cbv zeta. split; vm_compute; reflexivity. Qed.

(** ** The stores the system reaches *)

Lemma NoDup_map_filter {A B : Type} (g : A -> B) (f : A -> bool) (l : list A) :
  NoDup (map g l) -> NoDup (map g (filter f l)).
Proof.
  induction l as [|a r IH]; simpl; auto.
  intros H. inversion H as [|? ? Hn Hr]; subst.
  destruct (f a); simpl; auto. constructor; auto.
  intros Hin. apply Hn. apply in_map_iff in Hin.
  destruct Hin as (x & Hx & Hin). apply filter_In in Hin.
  apply in_map_iff. exists x. tauto.
Qed.

Lemma consistent_filter (f : Job -> bool) (c : Collection) :
  consistent c -> consistent (filter f c).
Proof.
  intros [Hn Hi]. split; [now apply NoDup_map_filter|].
  intros d Hd. apply filter_In in Hd. now apply Hi.
Qed.

Lemma terminal_completed_filter (f : Job -> bool) (c : Collection) :
  terminal_has_completed_at c -> terminal_has_completed_at (filter f c).
Proof. intros Hi d Hd. apply filter_In in Hd. now apply Hi. Qed.

Lemma unique_by_id (pre post : Collection) (x d : Job) :
  NoDup (map _id (pre ++ x :: post)) ->
  In d (pre ++ x :: post) -> _id d = _id x -> d = x.
Proof.
  intros Hn Hd Hid. rewrite map_app in Hn. cbn [map] in Hn.
  apply NoDup_remove_2 in Hn.
  apply in_app_or in Hd. destruct Hd as [Hd|[Hd|Hd]]; auto.
  - exfalso. apply Hn. apply in_or_app. left. rewrite <- Hid. now apply in_map.
  - exfalso. apply Hn. apply in_or_app. right. rewrite <- Hid. now apply in_map.
Qed.

Lemma check_consistent (env : Env) (force : bool) (s : State) :
  (consistent (jobsCollection s) ->
   consistent (jobsCollection (snd (_check_and_run_cleanup env force s)))) /\
  (terminal_has_completed_at (jobsCollection s) ->
   terminal_has_completed_at
     (jobsCollection (snd (_check_and_run_cleanup env force s)))).
Proof.
  rewrite _check_and_run_cleanup_run. cbn [snd].
  destruct (cleanup_due _ _); [destruct (fault env CleanupOldJobs)|]; cbn; auto.
  split; [apply consistent_filter | apply terminal_completed_filter].
Qed.

Lemma not_terminal_no_completed_at (c : Collection) (d : Job) :
  completed_at_iff_terminal c -> In d c -> is_terminal (status d) = false ->
  completed_at d = None.
Proof.
  intros Hi Hd Hs. destruct (completed_at d) as [t|] eqn:E; auto.
  assert (H : is_terminal (status d) = true) by (apply (Hi d Hd); congruence).
  congruence.
Qed.

(** The claim keeps the store consistent, and the job it returns is the
    only document with its id, unfinished. *)
Lemma get_next_job_consistent (env : Env) (s : State) :
  (consistent (jobsCollection s) ->
   consistent (jobsCollection (snd (get_next_job env s))) /\
   forall j, fst (get_next_job env s) = Val (Some j) ->
             live (_id j) (jobsCollection (snd (get_next_job env s)))) /\
  (terminal_has_completed_at (jobsCollection s) ->
   terminal_has_completed_at (jobsCollection (snd (get_next_job env s)))).
Proof.
  destruct (fault env FindOneAndUpdate) as [msg|] eqn:F.
  { rewrite (get_next_job_unanswered env s msg F). cbn.
    split; auto. intros H. split; auto. intros j Hj. discriminate Hj. }
  rewrite (get_next_job_answered env s F). cbn [fst snd].
  unfold find_one_and_update.
  destruct (select_first _ _ _) as [[[pre m] post]|] eqn:E; cbn.
  2: { split; auto. intros H. split; auto. intros j Hj. discriminate Hj. }
  destruct (select_first_some _ _ _ _ _ _ E) as (Hc & Hm & _).
  apply has_status_true in Hm.
  set (m' := apply_set (claim_set (utcnow env ClockClaim)) m).
  assert (Hids : map _id (pre ++ m' :: post) = map _id (jobsCollection s)).
  { rewrite Hc, !map_app. reflexivity. }
  split.
  - intros [Hn Hi].
    assert (Hm0 : completed_at m = None).
    { apply (not_terminal_no_completed_at (jobsCollection s)); auto.
      - rewrite Hc. apply in_elt.
      - now rewrite Hm. }
    assert (Hi' : completed_at_iff_terminal (pre ++ m' :: post)).
    { intros d Hd. apply in_app_or in Hd. destruct Hd as [Hd|[<-|Hd]].
      - apply Hi. rewrite Hc. apply in_or_app. now left.
      - cbn. rewrite Hm0. split; [congruence | discriminate].
      - apply Hi. rewrite Hc. apply in_or_app. right. now right. }
    split; [split; [now rewrite Hids | exact Hi']|].
    intros j [= <-] d Hd Hid.
    assert (d = m').
    { apply (unique_by_id pre post m' d); auto. now rewrite Hids. }
    subst d. cbn. now rewrite Hm0.
  - intros Hi d Hd. apply in_app_or in Hd. destruct Hd as [Hd|[<-|Hd]].
    + apply Hi. rewrite Hc. apply in_or_app. now left.
    + cbn. discriminate.
    + apply Hi. rewrite Hc. apply in_or_app. right. now right.
Qed.

Lemma loop_rest_consistent (env : Env) (s1 : State) :
  (consistent (jobsCollection s1) -> consistent (jobsCollection (loop_rest env s1))) /\
  (terminal_has_completed_at (jobsCollection s1) ->
   terminal_has_completed_at (jobsCollection (loop_rest env s1))).
Proof.
  unfold loop_rest. cbv zeta.
  destruct (get_next_job_consistent env s1) as [Hg Hg'].
  destruct (fst (get_next_job env s1)) as [[j|]|msg] eqn:G.
  - destruct (process_job_facts env j (snd (get_next_job env s1)))
      as (_ & Hids & Hinv & Hhalf & _).
    assert (Hp : consistent (jobsCollection s1) ->
                 consistent (jobsCollection
                               (snd (process_job env j (snd (get_next_job env s1)))))).
    { intros H. destruct (Hg H) as [[Hn Hi] Hlive].
      split; [now rewrite Hids | apply Hinv; split; auto]. }
    destruct (fst (process_job env j (snd (get_next_job env s1)))).
    + split; intros H.
      * apply check_consistent. auto.
      * apply check_consistent. auto.
    + rewrite time_sleep_jobs. auto.
  - rewrite time_sleep_jobs. split; intros H; [apply Hg | apply Hg']; auto.
  - rewrite time_sleep_jobs. split; intros H; [apply Hg | apply Hg']; auto.
Qed.

Lemma loop_body_consistent (env : Env) (s : State) :
  (consistent (jobsCollection s) ->
   consistent (jobsCollection (snd (loop_body env s)))) /\
  (terminal_has_completed_at (jobsCollection s) ->
   terminal_has_completed_at (jobsCollection (snd (loop_body env s)))).
Proof.
  rewrite loop_body_run.
  split; intros H; apply loop_rest_consistent; apply check_consistent; exact H.
Qed.

Lemma create_job_consistent (t1 t2 : datetime)
    (proj file_path' azure_path' job_id : string) (c : Collection) :
  (consistent c ->
   consistent (snd (create_job t1 t2 proj file_path' azure_path' job_id c))) /\
  (terminal_has_completed_at c ->
   terminal_has_completed_at
     (snd (create_job t1 t2 proj file_path' azure_path' job_id c))).
Proof.
  unfold create_job, find_one, insert_one.
  destruct (find (has_id job_id) c) as [d|] eqn:E; cbn [snd]; auto.
  split.
  - intros [Hn Hi]. split.
    + rewrite map_app. cbn. apply NoDup_app; auto.
      * repeat constructor. intros [].
      * intros a Ha [<-|[]]. apply in_map_iff in Ha.
        destruct Ha as (x & Hx & Hin).
        pose proof (find_none _ _ E x Hin) as Hf.
        unfold has_id in Hf. apply String.eqb_neq in Hf. contradiction.
    + intros d Hd. apply in_app_or in Hd. destruct Hd as [Hd|[<-|[]]]; auto.
      cbn. split; [congruence | discriminate].
  - intros Hi d Hd. apply in_app_or in Hd. destruct Hd as [Hd|[<-|[]]]; auto.
    cbn. discriminate.
Qed.

Lemma reachable_consistent (s : State) :
  reachable s -> consistent (jobsCollection s).
Proof.
  induction 1 as [s Hs|s t1 t2 pr fp ap id _ IH|s env _ IH].
  - rewrite Hs. split; [constructor | intros d []].
  - cbn. now apply create_job_consistent.
  - now apply loop_body_consistent.
Qed.

Lemma produced_terminal_completed (s : State) :
  produced s -> terminal_has_completed_at (jobsCollection s).
Proof.
  induction 1 as [s Hs|s t1 t2 pr fp ap id _ IH|s t1 t2 id st kw _ IH|s env _ IH].
  - rewrite Hs. intros d [].
  - cbn. now apply create_job_consistent.
  - cbn. now apply any_update_keeps_terminal_completed.
  - now apply loop_body_consistent.
Qed.

(** C7, as stated, fails when [update_job_status] counts as an operation
    of its own: called with a status that is not final on a finished job
    it leaves [completed_at] set. *)
Lemma completed_at_survives_status_change :
  let s0 := example_state None [] in
  let s1 := set_jobs (snd (create_job 100000 100000 "P-1" "/tmp/in.laz" "jobs/in.laz"
                             "J1" (jobsCollection s0))) s0 in
  let s2 := set_jobs (update_job_status 200000 201000 "J1" "completed"
                        (step_kwargs "completed" "Processing completed successfully")
                        (jobsCollection s1)) s1 in
  let s3 := set_jobs (update_job_status 300000 301000 "J1" "processing"
                        (step_kwargs "metadata" "Extracting point cloud metadata...")
                        (jobsCollection s2)) s2 in
  produced s3 /\
  map (fun d => (status d, completed_at d)) (jobsCollection s3) =
    [("processing", Some 201000)] /\
  ~ completed_at_iff_terminal (jobsCollection s3).
Proof.
  cbv zeta. split; [|split].
  - do 2 apply produced_update_job_status. apply produced_create_job.
    apply produced_empty. reflexivity.
  - vm_compute. reflexivity.
  - intros H.
    assert (Hd : is_terminal "processing" = true).
    { apply (H (mkJob "J1" "P-1" "processing" (Some "metadata")
                  (Some "Extracting point cloud metadata...") None
                  "/tmp/in.laz" "jobs/in.laz" 0 100000 300000 (Some 201000))).
      - vm_compute. auto.
      - discriminate. }
    discriminate Hd.
Qed.

(** C7, amended.  In every state the system reaches by [create_job] and
    by turns of the worker loop (reaper, claim, pipeline), the only caller
    of [update_job_status], a job has [completed_at] set if and only if
    its status is [completed] or [failed].  When [update_job_status] may
    be called with any arguments, what remains is that every job whose
    status is [completed] or [failed] has [completed_at] set. *)
Theorem completed_at_invariant :
  (forall s, reachable s -> completed_at_iff_terminal (jobsCollection s)) /\
  (forall s, produced s -> terminal_has_completed_at (jobsCollection s)).
Proof.
  split.
  - intros s H. apply reachable_consistent. exact H.
  - exact produced_terminal_completed.
Qed.

Lemma completed_at_invariant_witness :
  let env := example_env 500000 [(Convert, "PotreeConverter failed")] in
  let s0 := example_state None [] in
  let s1 := set_jobs (snd (create_job 100000 100000 "P-1" "/tmp/in.laz" "jobs/in.laz"
                             "J1" (jobsCollection s0))) s0 in
  map (fun d => (status d, completed_at d))
      (jobsCollection (snd (loop_body env s1))) = [("failed", Some 500000)] /\
  completed_at_iff_terminal (jobsCollection (snd (loop_body env s1))).
Proof.
  intros env s0 s1. split; [vm_compute; reflexivity|].
  apply (proj1 completed_at_invariant).
  apply reachable_loop_body. apply reachable_create_job.
  apply reachable_empty. reflexivity.
Defined.

(** ** Concurrent callers of [get_next_job] *)

Lemma Forall2_in_l {A B : Type} (R : A -> B -> Prop) (l : list A) (l' : list B) :
  Forall2 R l l' -> forall a, In a l -> exists b, In b l' /\ R a b.
Proof.
  induction 1 as [|a b l l' Hab _ IH]; intros x; simpl; [intros []|].
  intros [<-|Hx]; [eauto|]. destruct (IH x Hx) as (b' & Hb' & HR). eauto.
Qed.

Lemma lost_calls_got_nothing (cs0 cs : list Caller) :
  Forall2 lost_call cs0 cs ->
  (forall c, In c cs0 -> is_waiting c = true) ->
  filter got_job cs = [].
Proof.
  induction 1 as [|c0 c l0 l Hc _ IH]; intros Hw; simpl; auto.
  rewrite IH by (intros x Hx; apply Hw; now right).
  destruct Hc as [->|(e & msg & -> & _ & ->)]; simpl; auto.
  specialize (Hw c0 (or_introl eq_refl)). destruct c0 as [e|[j|]]; auto.
  discriminate Hw.
Qed.

Lemma filter_singleton_split {A : Type} (f : A -> bool) (pre post : list A) (x y : A) :
  filter f (pre ++ x :: post) = [y] -> f x = true ->
  filter f pre = [] /\ filter f post = [] /\ x = y.
Proof.
  intros H Hx. rewrite filter_app in H. cbn [filter] in H. rewrite Hx in H.
  destruct (filter f pre) as [|a l].
  - cbn in H. injection H as -> H. auto.
  - cbn in H. injection H as _ H. destruct l; discriminate H.
Qed.

Lemma get_next_job_none_pending (e : Env) (s : State) :
  filter (has_status "pending") (jobsCollection s) = [] ->
  returned_value (fst (get_next_job e s)) = None /\
  jobsCollection (snd (get_next_job e s)) = jobsCollection s.
Proof.
  intros Hnone.
  destruct (fault e FindOneAndUpdate) as [msg|] eqn:F.
  - rewrite (get_next_job_unanswered e s msg F). cbn. auto.
  - destruct (get_next_job_claims e s F) as [_ HB].
    destruct HB as [Hr Hs].
    + intros k Hk Hp.
      assert (Hin : In k (filter (has_status "pending") (jobsCollection s)))
        by (apply filter_In; split; auto; now apply has_status_true).
      rewrite Hnone in Hin. destruct Hin.
    + rewrite Hr. cbn. auto.
Qed.

Lemma Forall2_refl_lost (cs : list Caller) : Forall2 lost_call cs cs.
Proof. induction cs; constructor; auto. now left. Qed.

Lemma one_winner_step (sys0 sys sys' : System) (j : Job) :
  (forall c, In c (callers sys0) -> is_waiting c = true) ->
  filter (has_status "pending") (jobsCollection (store sys0)) = [j] ->
  one_winner sys0 j sys -> claim_step sys sys' -> one_winner sys0 j sys'.
Proof.
  intros Hw Hone Hinv Hstep.
  destruct Hstep as [s pre post e].
  unfold one_winner in *. cbn [store callers] in *.
  destruct Hinv as [[Hjobs Hlost]|(Hnone & Hcount & j' & Hgot & Hid & Hst)].
  - (* the job is still pending *)
    apply Forall2_app_inv_r in Hlost.
    destruct Hlost as (l1 & l2 & Hl1 & Hl2 & Hcs0).
    inversion Hl2 as [|c0 c l2' post' Hc Hpost]; subst.
    assert (Hc0 : c0 = Waiting e).
    { destruct Hc as [Hc|(e' & msg & _ & _ & Hc)]; [auto | discriminate Hc]. }
    subst c0.
    destruct (fault e FindOneAndUpdate) as [msg|] eqn:F.
    + (* the database does not answer this caller *)
      left. rewrite (get_next_job_unanswered e s msg F). cbn.
      split; [exact Hjobs|]. rewrite Hcs0.
      apply Forall2_app; [exact Hl1|]. constructor; [|exact Hpost].
      right. eauto.
    + (* the database answers: this caller gets the job *)
      right.
      destruct (get_next_job_claims e s F) as [HA _].
      destruct HA as (pre' & m & m' & post' & Hc' & Hm & _ & Hcl & Hr & Hs).
      { exists j. split.
        - assert (Hin : In j (filter (has_status "pending") (jobsCollection s)))
            by (rewrite Hjobs, Hone; now left).
          apply filter_In in Hin. tauto.
        - assert (Hin : In j (filter (has_status "pending") (jobsCollection s)))
            by (rewrite Hjobs, Hone; now left).
          apply filter_In in Hin. now apply has_status_true. }
      rewrite Hr, Hs. cbn [returned_value].
      rewrite <- Hjobs, Hc' in Hone.
      destruct (filter_singleton_split _ _ _ _ _ Hone) as (Hpre & Hpost' & ->).
      { now apply has_status_true. }
      destruct Hcl as (Hst' & _ & Hid' & _).
      split; [|split].
      * rewrite filter_app. cbn [filter].
        rewrite Hpre, Hpost'. unfold has_status. rewrite Hst'. reflexivity.
      * assert (Hj : has_status "processing" j = false)
          by (unfold has_status; rewrite Hm; reflexivity).
        assert (Hm' : has_status "processing" m' = true)
          by (unfold has_status; rewrite Hst'; reflexivity).
        unfold count_status. rewrite Hs, <- Hjobs, Hc', !filter_app. cbn [filter].
        rewrite Hj, Hm', !length_app. cbn [List.length]. lia.
      * exists m'. split; [|split; auto].
        rewrite filter_app. cbn [filter got_job].
        assert (Hcs : Forall2 lost_call (callers sys0) (pre ++ Waiting e :: post))
          by (rewrite Hcs0; apply Forall2_app; [exact Hl1 | constructor; auto]).
        pose proof (lost_calls_got_nothing _ _ Hcs Hw) as Hnobody.
        rewrite filter_app in Hnobody. cbn [filter got_job] in Hnobody.
        apply app_eq_nil in Hnobody. destruct Hnobody as [-> ->]. reflexivity.
  - (* the job has been claimed *)
    right.
    destruct (get_next_job_none_pending e s Hnone) as [Hr Hs].
    rewrite Hr. unfold count_status in *. rewrite Hs.
    split; [exact Hnone|]. split; [exact Hcount|].
    exists j'. split; [|split; auto].
    rewrite filter_app in *. cbn [filter got_job is_waiting] in *. exact Hgot.
Qed.

(** C1.  Callers of [get_next_job] run concurrently on a store with one
    pending job [j]; each makes one call to the database, and these calls
    take effect one after the other in any order.  At every moment at most
    one caller has received a job, and a job received is [j], now
    [processing].  When all calls have returned, and the database answered
    at least one of them, exactly one caller has received [j], no job is
    pending and one more job than before is [processing] (exactly one when
    none was).  [get_next_job] consists of a single call,
    [find_one_and_update]: there is no read followed by a write. *)
Theorem concurrent_claims_one_winner (sys0 sys : System) (j : Job) :
  (forall c, In c (callers sys0) -> is_waiting c = true) ->
  filter (has_status "pending") (jobsCollection (store sys0)) = [j] ->
  claim_steps sys0 sys ->
  (List.length (filter got_job (callers sys)) <= 1)%nat /\
  (forall j', In (Returned (Some j')) (callers sys) ->
              _id j' = _id j /\ status j' = "processing") /\
  (settled sys ->
   (exists e, In (Waiting e) (callers sys0) /\ fault e FindOneAndUpdate = None) ->
   List.length (filter got_job (callers sys)) = 1%nat /\
   count_status "pending" (store sys) = 0%nat /\
   count_status "processing" (store sys) =
     S (count_status "processing" (store sys0))) /\
  (forall e s, trace (snd (get_next_job e s)) = trace s ++ [Called FindOneAndUpdate]).
Proof.
  intros Hw Hone Hsteps.
  assert (Hinv : one_winner sys0 j sys).
  { induction Hsteps as [|sys sys' _ IH Hstep].
    - left. split; auto. apply Forall2_refl_lost.
    - eapply one_winner_step; eauto. }
  split; [|split; [|split]].
  - destruct Hinv as [[_ Hlost]|(_ & _ & j' & -> & _)]; [|cbn; lia].
    rewrite (lost_calls_got_nothing _ _ Hlost Hw). cbn. lia.
  - intros j' Hin.
    assert (Hin' : In (Returned (Some j')) (filter got_job (callers sys)))
      by (apply filter_In; auto).
    destruct Hinv as [[_ Hlost]|(_ & _ & j'' & Hgot & Hid & Hst)].
    + rewrite (lost_calls_got_nothing _ _ Hlost Hw) in Hin'. destruct Hin'.
    + rewrite Hgot in Hin'. destruct Hin' as [[= <-]|[]]. auto.
  - intros Hset (e & He & Hf).
    destruct Hinv as [[_ Hlost]|(Hnone & Hcount & j' & -> & _)].
    + exfalso.
      destruct (Forall2_in_l _ _ _ Hlost (Waiting e) He) as (c & Hc & Hlc).
      destruct Hlc as [->|(e' & msg & [= <-] & Hf' & _)].
      * specialize (Hset _ Hc). discriminate Hset.
      * congruence.
    + split; [reflexivity|]. split; [|exact Hcount].
      unfold count_status. now rewrite Hnone.
  - intros e s. apply get_next_job_facts.
Qed.

Lemma concurrent_claims_one_winner_witness :
  let ea := example_env 500000 [] in
  let eb := example_env 501000 [] in
  let ec := example_env 502000 [(FindOneAndUpdate, "timed out")] in
  let j := example_job "J1" "pending" None 100000 0 in
  let s0 := example_state (Some 400000)
              [example_job "J0" "completed" (Some "completed") 50000 90000; j] in
  let sys0 := mkSystem s0 [Waiting ea; Waiting eb; Waiting ec] in
  let s1 := snd (get_next_job ec s0) in
  let r1 := returned_value (fst (get_next_job ec s0)) in
  let s2 := snd (get_next_job eb s1) in
  let r2 := returned_value (fst (get_next_job eb s1)) in
  let s3 := snd (get_next_job ea s2) in
  let r3 := returned_value (fst (get_next_job ea s2)) in
  let sys := mkSystem s3 [Returned r3; Returned r2; Returned r1] in
  (List.length (filter got_job (callers sys)) <= 1)%nat /\
  (forall j', In (Returned (Some j')) (callers sys) ->
              _id j' = _id j /\ status j' = "processing") /\
  (settled sys ->
   (exists e, In (Waiting e) (callers sys0) /\ fault e FindOneAndUpdate = None) ->
   List.length (filter got_job (callers sys)) = 1%nat /\
   count_status "pending" (store sys) = 0%nat /\
   count_status "processing" (store sys) =
     S (count_status "processing" (store sys0))) /\
  (forall e s, trace (snd (get_next_job e s)) = trace s ++ [Called FindOneAndUpdate]).
Proof.
  intros ea eb ec j s0 sys0 s1 r1 s2 r2 s3 r3 sys.
  apply (concurrent_claims_one_winner sys0 sys j).
  - intros c [<-|[<-|[<-|[]]]]; reflexivity.
  - vm_compute. reflexivity.
  - apply claim_steps_more
      with (sys := mkSystem s2 [Waiting ea; Returned r2; Returned r1]).
    + apply claim_steps_more
        with (sys := mkSystem s1 [Waiting ea; Waiting eb; Returned r1]).
      * apply claim_steps_more with (sys := sys0).
        -- apply claim_steps_none.
        -- exact (claim_step_call s0 [Waiting ea; Waiting eb] [] ec).
      * exact (claim_step_call s1 [Waiting ea] [Returned r1] eb).
    + exact (claim_step_call s2 [] [Returned r2; Returned r1] ea).
Defined.

(** In that run the second caller, the first the database answers, gets
    the job. *)
Example concurrent_claims_run :
  let ea := example_env 500000 [] in
  let eb := example_env 501000 [] in
  let ec := example_env 502000 [(FindOneAndUpdate, "timed out")] in
  let j := example_job "J1" "pending" None 100000 0 in
  let s0 := example_state (Some 400000)
              [example_job "J0" "completed" (Some "completed") 50000 90000; j] in
  let s1 := snd (get_next_job ec s0) in
  let s2 := snd (get_next_job eb s1) in
  let s3 := snd (get_next_job ea s2) in
  map (option_map _id)
      [returned_value (fst (get_next_job ea s2));
       returned_value (fst (get_next_job eb s1));
       returned_value (fst (get_next_job ec s0))] = [None; Some "J1"; None] /\
  map (fun d => (_id d, status d)) (jobsCollection s3) =
    [("J0", "completed"); ("J1", "processing")].
Proof. split; vm_compute; reflexivity. Qed.

(** ** Statuses and steps along the pipeline *)

Lemma forward_update (c0 c : Collection) (job_id : string) (a b : nat)
    (t1 t2 : datetime) (status' : string) (kw : Kwargs) :
  moves_forward c0 c /\ at_most job_id a b c ->
  (a <= status_rank status')%nat ->
  (b <= step_rank_after kw b)%nat ->
  moves_forward c0 (update_job_status t1 t2 job_id status' kw c) /\
  at_most job_id (status_rank status') (step_rank_after kw b)
    (update_job_status t1 t2 job_id status' kw c).
Proof.
  intros [Hmf Hat] Ha Hb. split.
  - apply moves_forward_update; auto.
    eapply Forall2_impl; [|apply update_job_status_not_behind].
    + intros d d' [H _]. exact H.
    + intros d Hd Hid. apply String.eqb_eq in Hid.
      destruct (Hat d Hd Hid) as [H1 H2]. split; [lia|].
      unfold step_rank_after in Hb. destruct (kw_current_step kw); cbn; lia.
  - intros d' Hd' Hid'. apply update_job_status_in in Hd'.
    destruct Hd' as [Hd'|(d & Hd & Hid & ->)].
    + destruct (Hat d' Hd' Hid'). split; lia.
    + cbn. destruct (Hat d Hd Hid) as [H1 H2]. split; [lia|].
      unfold step_rank_after in *. destruct (kw_current_step kw); cbn; lia.
Qed.

Ltac forward H0 :=
  first [ exact H0
        | eapply forward_update; [forward H0 | cbn; lia | cbn; lia] ].

(** Along [process_job], run on a job that is at most [processing] and at
    most at step [metadata], no update moves the status or the step of a
    document backward. *)
Theorem process_job_moves_forward (env : Env) (job : Job) (s : State) :
  at_most (_id job) 1 1 (jobsCollection s) ->
  moves_forward (jobsCollection s) (jobsCollection (snd (process_job env job s))).
Proof.
  intros Hat.
  assert (H0 : moves_forward (jobsCollection s) (jobsCollection s) /\
               at_most (_id job) 1 1 (jobsCollection s))
    by (split; [constructor | exact Hat]).
  destruct (process_job env job s) as [r s'] eqn:E. cbn [fst snd].
  unfold process_job in E. rewrite run_modify in E. unfold try_except at 1 in E.
  destruct (process_job_try env job (set_output_dir None s))
    as [[[]|msg0] s1] eqn:Etry.
  - exec Etry; try discriminate Etry.
    all: injection Etry as <-; injection E as <- <-.
    all: leaf_store.
    all: refine (proj1 (_ : _ /\ at_most (_id job) _ _ _)).
    all: forward H0.
  - exec Etry; try discriminate Etry.
    all: injection Etry as <- <-.
    all: exec E.
    all: injection E as <- <-.
    all: leaf_store.
    all: refine (proj1 (_ : _ /\ at_most (_id job) _ _ _)).
    all: forward H0.
Qed.

(** ** Two runs, computed *)

(** End to end: a pending job is claimed and all four steps succeed. *)
Example loop_body_end_to_end :
  let env := example_env 500000 [] in
  let job := example_job "J1" "pending" None 100000 0 in
  let s := snd (loop_body env (example_state (Some 400000) [job])) in
  trace s =
    [Called FindOneAndUpdate; Called GetProject; Called UpdMetadata;
     Called CloudMetadataSummary; Called UpdThumbnail; Called ThumbnailGenerate;
     Called ThumbnailUpload; Called ThumbnailSas; Called UpdateProject1;
     Called UpdConversion; Called MkDtemp; Called Convert; Called UpdUpload;
     Called (PotreeUploadBytes 0); Called (PotreeUploadBytes 1);
     Called PotreeSas; Called UpdateProject2; Called UpdCompleted;
     CleanupTempFiles "J1"; Called OsRemove; Called DeleteBlob; Called Rmtree] /\
  map (fun d => (_id d, status d, current_step d, completed_at d))
      (jobsCollection s) = [("J1", "completed", Some "completed", Some 500000)] /\
  map (fun p => (thumbnail p, cloud p, point_count p)) (projectsCollection s) =
    [(Some "https://blobs/P-1/thumbnail.png?sas",
      Some "https://blobs/P-1/metadata.json?sas", Some 1200)] /\
  files s = [] /\
  blobs s = ["P-1/thumbnail.png"; "P-1/metadata.json"; "P-1/octree.bin"].
Proof. cbv zeta. repeat split; vm_compute; reflexivity. Qed.

(** The same run: the location stored has the latitude of the metadata
    and 0 for the longitude, which the metadata gives as [None], and for
    the height, which it does not give; and a blob is named by its path
    with slashes. *)
Example process_job_location_and_blob_names :
  let env := example_env 500000 [] in
  let job := example_job "J1" "pending" None 100000 0 in
  let s := snd (loop_body env (example_state (Some 400000) [job])) in
  map location (projectsCollection s) =
    [Some {| lat := 1 # 2; lon := 0; z := 0 |}] /\
  potree_blob_name "P-1" "pointclouds\r0\octree.bin" =
    "P-1/pointclouds/r0/octree.bin".
Proof. cbv zeta. split; vm_compute; reflexivity. Qed.

(** The metadata extractor raises: the job fails with its message, the
    staged file and blob are gone, the project is untouched. *)
Example process_job_metadata_failure :
  let env := example_env 500000 [(CloudMetadataSummary, "not a LAS file")] in
  let job := example_job "J1" "processing" None 100000 0 in
  let s := snd (process_job env job (example_state (Some 400000) [job])) in
  trace s =
    [Called GetProject; Called UpdMetadata; Called CloudMetadataSummary;
     Called UpdFailed; CleanupTempFiles "J1"; Called OsRemove; Called DeleteBlob] /\
  map (fun d => (status d, current_step d, completed_at d, error_message d))
      (jobsCollection s) =
    [("failed", Some "metadata", Some 500000, Some "not a LAS file")] /\
  projectsCollection s = [example_project] /\
  files s = [] /\ blobs s = [].
Proof. cbv zeta. repeat split; vm_compute; reflexivity. Qed.

(* ================================================================== *)
(** * Further properties of the code *)
(* ================================================================== *)

(** ** storage/db.py: jobs *)

Lemma find_one_app_new (job_id : string) (c : Collection) (d : Job) :
  find_one (has_id job_id) c = None -> _id d = job_id ->
  find_one (has_id job_id) (c ++ [d]) = Some d.
Proof.
  unfold find_one. intros Hn Hid. induction c as [|x r IH]; simpl in *.
  - unfold has_id. now rewrite Hid, String.eqb_refl.
  - destruct (has_id job_id x); [discriminate | auto].
Qed.

Lemma find_one_app_other (other : string) (c : Collection) (d : Job) :
  _id d <> other ->
  find_one (has_id other) (c ++ [d]) = find_one (has_id other) c.
Proof.
  unfold find_one. intros Hid. induction c as [|x r IH]; simpl.
  - unfold has_id. destruct (String.eqb_spec (_id d) other); [contradiction|reflexivity].
  - destruct (has_id other x); auto.
Qed.

Lemma find_one_has_id_none (job_id : string) (c : Collection) :
  find_one (has_id job_id) c = None <-> ~ In job_id (map _id c).
Proof.
  unfold find_one, has_id. induction c as [|d r IH]; simpl; [tauto|].
  destruct (String.eqb_spec (_id d) job_id) as [E|E].
  - split; [discriminate | intros H; exfalso; apply H; now left].
  - rewrite IH. tauto.
Qed.

(** X1.  [create_job] raises exactly when the id is taken, and then it
    leaves the collection as it was; otherwise it adds one document under
    the id behind the others.  Hence ids that are distinct stay distinct
    whatever jobs are created. *)
Theorem create_job_keeps_ids_distinct
    (t1 t2 : datetime) (proj file_path' azure_path' job_id : string)
    (c : Collection) :
  let r := create_job t1 t2 proj file_path' azure_path' job_id c in
  ((exists msg, fst r = Exc msg) <-> In job_id (map _id c)) /\
  (fst r = Val job_id <-> ~ In job_id (map _id c)) /\
  (In job_id (map _id c) -> snd r = c) /\
  (~ In job_id (map _id c) -> map _id (snd r) = map _id c ++ [job_id]) /\
  (NoDup (map _id c) -> NoDup (map _id (snd r))).
Proof.
  cbv zeta. unfold create_job.
  destruct (find_one (has_id job_id) c) as [d|] eqn:F; cbn [fst snd].
  - assert (Hin : In job_id (map _id c)).
    { destruct (in_dec string_dec job_id (map _id c)) as [H|H]; auto.
      apply find_one_has_id_none in H. congruence. }
    split; [split; eauto|]. split; [split; [discriminate | contradiction]|].
    split; [reflexivity|]. split; [contradiction | auto].
  - assert (Hout : ~ In job_id (map _id c)) by now apply find_one_has_id_none.
    assert (Hids : map _id (insert_one
                     {| _id := job_id; project_id := proj; status := "pending";
                        current_step := None; progress_message := None;
                        error_message := None; file_path := file_path';
                        azure_path := azure_path'; retry_count := 0;
                        created_at := t1; updated_at := t2;
                        completed_at := None |} c) = map _id c ++ [job_id]).
    { unfold insert_one. now rewrite map_app. }
    split; [split; [intros [msg H]; discriminate H | contradiction]|].
    split; [split; auto|]. split; [contradiction|]. split; [auto|].
    intros Hn. rewrite Hids. apply NoDup_app; auto.
    + constructor; [intros []|constructor].
    + intros x Hx [<-|[]]. contradiction.
Qed.

(** X2.  [create_job] with a fresh id returns the id; [get_job] then
    finds, under that id, a pending job with the project and the paths
    given and with the two clock readings cut down to the millisecond, no
    step, no message, no completion date; every other id is looked up as before and one document has
    been added; and a second [create_job] with the same id, whatever its
    other arguments, raises and leaves the first job in place. *)
Theorem create_job_then_get_job
    (t1 t2 : datetime) (proj file_path' azure_path' job_id : string)
    (c : Collection) :
  get_job job_id c = None ->
  let r := create_job t1 t2 proj file_path' azure_path' job_id c in
  fst r = Val job_id /\
  get_job job_id (snd r) =
    Some {| _id := job_id; project_id := proj; status := "pending";
            current_step := None; progress_message := None;
            error_message := None; file_path := file_path';
            azure_path := azure_path'; retry_count := 0;
            created_at := bson_date t1; updated_at := bson_date t2;
            completed_at := None |} /\
  (forall other, other <> job_id -> get_job other (snd r) = get_job other c) /\
  List.length (snd r) = S (List.length c) /\
  (forall t1' t2' proj' file_path'' azure_path'',
     create_job t1' t2' proj' file_path'' azure_path'' job_id (snd r) =
       (Exc ("Job with id " ++ job_id ++ " already exists")%string, snd r)).
Proof.
  unfold get_job, create_job. intros Hn. rewrite Hn. cbn [fst snd].
  unfold insert_one. split; [reflexivity|]. split; [|split; [|split]].
  - now apply find_one_app_new.
  - intros other Hne. apply find_one_app_other. cbn. congruence.
  - rewrite length_app. cbn. lia.
  - intros. now rewrite find_one_app_new.
Qed.

Lemma create_job_then_get_job_witness :
  let c := [example_job "J0" "completed" (Some "completed") 50000 90000] in
  let r := create_job 100100 101999 "P-1" "/tmp/in.laz" "jobs/in.laz" "J1" c in
  fst r = Val "J1" /\
  get_job "J1" (snd r) =
    Some {| _id := "J1"; project_id := "P-1"; status := "pending";
            current_step := None; progress_message := None;
            error_message := None; file_path := "/tmp/in.laz";
            azure_path := "jobs/in.laz"; retry_count := 0;
            created_at := 100000; updated_at := 101000; completed_at := None |} /\
  (forall other, other <> "J1" -> get_job other (snd r) = get_job other c) /\
  List.length (snd r) = S (List.length c) /\
  (forall t1' t2' proj' file_path'' azure_path'',
     create_job t1' t2' proj' file_path'' azure_path'' "J1" (snd r) =
       (Exc "Job with id J1 already exists", snd r)).
Proof.
  intros c.
  apply (create_job_then_get_job 100100 101999 "P-1" "/tmp/in.laz" "jobs/in.laz" "J1" c).
  reflexivity.
Defined.

Lemma update_one_no_match (flt : Job -> bool) (u : SetDoc) (c : Collection) :
  find_one flt c = None -> update_one flt u c = c.
Proof.
  unfold find_one. induction c as [|d r IH]; simpl; auto.
  destruct (flt d); [discriminate|]. intros H. now rewrite IH.
Qed.

(** The keyword arguments are encoded without an error exactly when the
    [retry_count], if there is one, fits 8 bytes. *)
Lemma update_job_status_raises_none (kw : Kwargs) :
  update_job_status_raises kw = None <->
  (forall n, kw_retry_count kw = Some n -> - 2 ^ 63 <= n < 2 ^ 63).
Proof.
  unfold update_job_status_raises, bson_int.
  destruct (kw_retry_count kw) as [n|]; [|split; [discriminate | reflexivity]].
  destruct (Z.leb_spec (- 2 ^ 63) n) as [H1|H1];
    destruct (Z.ltb_spec n (2 ^ 63)) as [H2|H2]; cbn [andb];
    (split; [intros H m [= <-]; first [lia | discriminate H]
            | intros H; first [reflexivity | specialize (H n eq_refl); lia]]).
Qed.

(** X3.  [update_job_status] read back with [get_job].  A [retry_count]
    that does not fit 8 bytes makes the call raise and nothing is
    changed; so does an id that is not in the collection, for which no
    document is inserted.  Otherwise, for an id that is in the
    collection, the job read back has the status given, [updated_at] at
    the first clock reading cut down to the millisecond, the keyword
    fields given, and [completed_at] at the second reading, cut down
    likewise, exactly when the status is [completed] or [failed]; the
    jobs under other ids read as before. *)
Theorem update_job_status_then_get_job
    (t1 t2 : datetime) (job_id status' : string) (kw : Kwargs) (c : Collection) :
  let c' := update_job_status t1 t2 job_id status' kw c in
  ((exists n, kw_retry_count kw = Some n /\ ~ - 2 ^ 63 <= n < 2 ^ 63) ->
   update_job_status_raises kw <> None /\ c' = c) /\
  (get_job job_id c = None -> c' = c) /\
  ((forall n, kw_retry_count kw = Some n -> - 2 ^ 63 <= n < 2 ^ 63) ->
   update_job_status_raises kw = None /\
   forall d, get_job job_id c = Some d ->
     exists d', get_job job_id c' = Some d' /\
       status d' = status' /\ updated_at d' = bson_date t1 /\
       current_step d' = or_keep (kw_current_step kw) (current_step d) /\
       progress_message d' = or_keep (kw_progress_message kw) (progress_message d) /\
       error_message d' = or_keep (kw_error_message kw) (error_message d) /\
       retry_count d' = or_keep (kw_retry_count kw) (retry_count d) /\
       completed_at d' =
         (if is_terminal status' then Some (bson_date t2) else completed_at d)) /\
  (forall other, other <> job_id -> get_job other c' = get_job other c) /\
  List.length c' = List.length c.
Proof.
  cbv zeta. unfold get_job, update_job_status.
  pose proof (update_job_status_raises_none kw) as Hnone.
  destruct (update_job_status_raises kw) as [msg|] eqn:R.
  - split; [intros _; split; [discriminate | reflexivity]|].
    split; [reflexivity|]. split; [|split; reflexivity].
    intros H. apply Hnone in H. discriminate H.
  - split; [|split; [|split; [|split]]].
    + intros (n & Hn & Hout). exfalso. apply Hout.
      now apply (proj1 Hnone eq_refl).
    + apply update_one_no_match.
    + intros _. split; [reflexivity|].
      intros d Hd. rewrite find_one_update_one, Hd. cbn [option_map].
      eexists. split; [reflexivity|]. cbn.
      repeat split; try reflexivity. now destruct (is_terminal status').
    + intros other Hne. now apply find_one_update_one_other.
    + induction c as [|d r IH]; simpl; auto.
      destruct (has_id job_id d); simpl; auto.
Qed.

(** A retry count of [2^63] is refused and the job is left as it was. *)
Example update_job_status_retry_count_overflow :
  let d := example_job "J1" "processing" (Some "metadata") 100000 0 in
  let kw := {| kw_current_step := None; kw_progress_message := None;
               kw_error_message := None; kw_retry_count := Some (2 ^ 63) |} in
  update_job_status_raises kw = Some "MongoDB can only handle up to 8-byte ints" /\
  update_job_status 200000 201000 "J1" "processing" kw [d] = [d].
Proof. split; vm_compute; reflexivity. Qed.

(** A job completed 201.5 ms after the epoch reads back as completed at
    201 ms. *)
Example update_job_status_completed_read_back :
  let d := example_job "J1" "processing" (Some "upload") 100000 0 in
  let c' := update_job_status 200250 201500 "J1" "completed" no_kwargs [d] in
  option_map (fun d' => (status d', updated_at d', completed_at d'))
             (get_job "J1" c') =
    Some ("completed", 200000, Some 201000).
Proof. vm_compute. reflexivity. Qed.

Lemma insert_newest_first_perm (d : Job) (l : list Job) :
  Permutation (insert_newest_first d l) (d :: l).
Proof.
  induction l as [|x r IH]; simpl; auto.
  destruct (created_at x <=? created_at d); auto.
  rewrite IH. apply perm_swap.
Qed.

Lemma sort_newest_first_perm (l : list Job) :
  Permutation (sort_newest_first l) l.
Proof.
  induction l as [|x r IH]; simpl; auto.
  rewrite insert_newest_first_perm. now constructor.
Qed.

Lemma insert_newest_first_sorted (d : Job) (l : list Job) :
  StronglySorted (fun a b => created_at b <= created_at a) l ->
  StronglySorted (fun a b => created_at b <= created_at a) (insert_newest_first d l).
Proof.
  induction l as [|x r IH]; intros Hs; simpl.
  - repeat constructor.
  - inversion Hs as [|? ? Hr Hx]; subst.
    destruct (created_at x <=? created_at d) eqn:E.
    + apply Z.leb_le in E. constructor; auto. constructor; auto.
      rewrite Forall_forall in *. intros y Hy. specialize (Hx y Hy). lia.
    + apply Z.leb_gt in E. constructor; auto.
      rewrite Forall_forall in *. intros y Hy.
      apply (Permutation_in _ (insert_newest_first_perm d r)) in Hy.
      destruct Hy as [<-|Hy]; [lia | auto].
Qed.

(** X4.  [get_jobs_by_project] returns the jobs of the project, each as
    often as it is stored and no other job, the most recently created
    first: every job of the list was created no later than those before
    it. *)
Theorem get_jobs_by_project_newest_first (project_id' : string) (c : Collection) :
  let l := get_jobs_by_project project_id' c in
  Permutation l (filter (fun d => String.eqb (project_id d) project_id') c) /\
  (forall d, In d l <-> In d c /\ project_id d = project_id') /\
  StronglySorted (fun a b => created_at b <= created_at a) l.
Proof.
  cbv zeta. unfold get_jobs_by_project.
  set (f := filter _ c).
  assert (Hp : Permutation (sort_newest_first f) f) by apply sort_newest_first_perm.
  split; [exact Hp|]. split.
  - intros d. split.
    + intros H. apply (Permutation_in _ Hp) in H. unfold f in H.
      apply filter_In in H. destruct H as [H1 H2]. now apply String.eqb_eq in H2.
    + intros [H1 H2]. apply (Permutation_in _ (Permutation_sym Hp)).
      unfold f. apply filter_In. split; auto. now apply String.eqb_eq.
  - clear Hp. induction f as [|x r IH]; simpl; [constructor|].
    now apply insert_newest_first_sorted.
Qed.

(** X5.  Two sweeps of [cleanup_old_jobs] with the same retention, the
    second at a clock reading not before the first, leave the jobs that
    one sweep at the later reading leaves, and their two counts add up to
    the count of that one sweep; so a second sweep at the same reading
    deletes nothing. *)
Theorem cleanup_old_jobs_twice (now1 now2 hours : Z) (c : Collection) :
  now1 <= now2 ->
  let first := cleanup_old_jobs now1 hours c in
  let second := cleanup_old_jobs now2 hours (fst first) in
  fst second = fst (cleanup_old_jobs now2 hours c) /\
  snd first + snd second = snd (cleanup_old_jobs now2 hours c) /\
  snd (cleanup_old_jobs now1 hours (fst first)) = 0.
Proof.
  intros Hle. cbv zeta. unfold cleanup_old_jobs, delete_many. cbn [fst snd].
  set (c1 := bson_date (now1 - timedelta_hours hours)).
  set (c2 := bson_date (now2 - timedelta_hours hours)).
  assert (Hc : c1 <= c2) by (unfold c1, c2; apply bson_date_mono; lia).
  clearbody c1 c2. clear Hle.
  induction c as [|d r [IH1 [IH2 IH3]]]; cbn [filter List.length negb].
  - repeat split; reflexivity.
  - destruct (created_at d <? c1) eqn:E1; destruct (created_at d <? c2) eqn:E2;
      cbn [filter List.length negb]; rewrite ?E1, ?E2; cbn [filter List.length negb];
      try (apply Z.ltb_lt in E1; apply Z.ltb_ge in E2; lia).
    + repeat split; auto. rewrite Nat2Z.inj_succ in *. rewrite Nat2Z.inj_succ. lia.
    + repeat split; auto. rewrite !Nat2Z.inj_succ. lia.
    + repeat split; auto. now rewrite IH1.
Qed.

Lemma cleanup_old_jobs_twice_witness :
  let c := [example_job "J1" "completed" (Some "completed") 0 10000;
            example_job "J2" "pending" None 3600000000 0;
            example_job "J3" "pending" None 9000000000 0] in
  let first := cleanup_old_jobs 3600000001 1 c in
  let second := cleanup_old_jobs 7200000001 1 (fst first) in
  fst second = fst (cleanup_old_jobs 7200000001 1 c) /\
  snd first + snd second = snd (cleanup_old_jobs 7200000001 1 c) /\
  snd (cleanup_old_jobs 3600000001 1 (fst first)) = 0.
Proof.
  intros c.
  apply (cleanup_old_jobs_twice 3600000001 7200000001 1 c).
  lia.
Defined.

(** ** storage/db.py: projects *)

Lemma getProject_app_new (p : Project) (ps : list Project) :
  getProject (proj_id p) ps = None ->
  getProject (proj_id p) (ps ++ [p]) = Some p.
Proof.
  unfold getProject. induction ps as [|q r IH]; simpl.
  - now rewrite String.eqb_refl.
  - destruct (String.eqb (proj_id q) (proj_id p)); [discriminate | auto].
Qed.

Lemma getProject_app_other (id : string) (p : Project) (ps : list Project) :
  id <> proj_id p -> getProject id (ps ++ [p]) = getProject id ps.
Proof.
  unfold getProject. intros Hne. induction ps as [|q r IH]; simpl.
  - destruct (String.eqb_spec (proj_id p) id); [congruence | reflexivity].
  - destruct (String.eqb (proj_id q) id); auto.
Qed.

Lemma getProject_some (id : string) (ps : list Project) (p : Project) :
  getProject id ps = Some p -> In p ps /\ proj_id p = id.
Proof.
  unfold getProject. intros H. apply find_some in H.
  destruct H as [H1 H2]. now apply String.eqb_eq in H2.
Qed.

Lemma getProject_none (id : string) (ps : list Project) :
  getProject id ps = None -> ~ In id (map proj_id ps).
Proof.
  unfold getProject. intros H Hin. apply in_map_iff in Hin.
  destruct Hin as [q [Hq Hin]].
  pose proof (find_none _ _ H q Hin) as Hf. cbv beta in Hf.
  rewrite Hq, String.eqb_refl in Hf. discriminate.
Qed.

(** X6.  [addProject] inserts only under an id that is free: after it,
    the id of the project reads as the project stored before under that
    id, if there was one, and as the new project otherwise; the other
    ids read as before; adding the same project again changes nothing;
    and ids that were unique stay unique. *)
Theorem addProject_first_wins (project : Project) (ps : list Project) :
  let ps' := addProject project ps in
  getProject (proj_id project) ps' =
    Some (match getProject (proj_id project) ps with
          | Some stored => stored
          | None => project
          end) /\
  (forall id, id <> proj_id project -> getProject id ps' = getProject id ps) /\
  addProject project ps' = ps' /\
  (NoDup (map proj_id ps) -> NoDup (map proj_id ps')).
Proof.
  cbv zeta. unfold addProject, exists_.
  change (find (fun p => String.eqb (proj_id p) (proj_id project)) ps)
    with (getProject (proj_id project) ps).
  destruct (getProject (proj_id project) ps) as [stored|] eqn:E.
  - repeat split; auto.
    change (find (fun p => String.eqb (proj_id p) (proj_id project)) ps)
      with (getProject (proj_id project) ps).
    now rewrite E.
  - split; [now apply getProject_app_new|]. split; [|split].
    + intros id Hne. now apply getProject_app_other.
    + change (find (fun p => String.eqb (proj_id p) (proj_id project)) (ps ++ [project]))
        with (getProject (proj_id project) (ps ++ [project])).
      now rewrite getProject_app_new.
    + intros Hnd. rewrite map_app. cbn [map].
      apply NoDup_app; auto.
      * repeat constructor. intros [].
      * intros a Ha [<-|[]]. now apply (getProject_none _ _ E).
Qed.

(** X7.  [getProjectsList] answers in the order of the ids asked for,
    skipping those that are not stored: the ids of the projects returned
    are the ids of the payload that exist, in the payload's order and
    with its repetitions, and every project returned is a stored one. *)
Theorem getProjectsList_found_in_order (payload : list string) (ps : list Project) :
  map proj_id (getProjectsList payload ps) = filter (fun id => exists_ id ps) payload /\
  (forall project, In project (getProjectsList payload ps) -> In project ps).
Proof.
  induction payload as [|id r [IH1 IH2]]; cbn [getProjectsList filter map].
  - split; [reflexivity | intros ? []].
  - unfold exists_. change (find (fun p => String.eqb (proj_id p) id) ps)
      with (getProject id ps).
    destruct (getProject id ps) as [p|] eqn:E.
    + apply getProject_some in E. destruct E as [Hin Hid].
      cbn [map]. split.
      * rewrite Hid. f_equal. exact IH1.
      * intros q [<-|Hq]; auto.
    + split; auto.
Qed.

Lemma delete_one_other (id other : string) (ps : list Project) :
  other <> id -> getProject other (delete_one id ps) = getProject other ps.
Proof.
  unfold getProject. intros Hne. induction ps as [|q r IH]; simpl; auto.
  destruct (String.eqb_spec (proj_id q) id) as [Hq|Hq].
  - destruct (String.eqb_spec (proj_id q) other); [congruence | reflexivity].
  - simpl. destruct (String.eqb (proj_id q) other); auto.
Qed.

Lemma delete_one_length (id : string) (ps : list Project) (p : Project) :
  getProject id ps = Some p -> S (List.length (delete_one id ps)) = List.length ps.
Proof.
  unfold getProject. induction ps as [|q r IH]; simpl; [discriminate|].
  destruct (String.eqb (proj_id q) id); simpl; auto.
Qed.

Lemma delete_one_gone (id : string) (ps : list Project) :
  NoDup (map proj_id ps) -> getProject id (delete_one id ps) = None.
Proof.
  unfold getProject. induction ps as [|q r IH]; simpl; auto.
  intros Hnd. inversion Hnd as [|? ? Hq Hr]; subst.
  destruct (String.eqb_spec (proj_id q) id) as [He|He].
  - destruct (find (fun p => String.eqb (proj_id p) id) r) as [p|] eqn:E; auto.
    apply (getProject_some id r p) in E. destruct E as [Hin Hid].
    exfalso. apply Hq. rewrite He, <- Hid. now apply in_map.
  - simpl. destruct (String.eqb_spec (proj_id q) id); [contradiction | auto].
Qed.

(** X8.  [deleteProject], the database answering: for an id that is not
    stored it returns [False] and changes neither the projects nor the
    blobs; for a stored id it returns [True] and removes one document,
    also when the deletion in Azure raises: the other ids read as before
    and, the ids being unique, the id is gone. *)
Theorem deleteProject_outcome
    (f : DeleteFaults) (id : string) (ps : list Project) (bs : list string) :
  query_raises f = None -> delete_one_raises f = None ->
  let r := deleteProject f id ps bs in
  (getProject id ps = None -> r = (Returns false, ps, bs)) /\
  (forall project, getProject id ps = Some project ->
     fst (fst r) = Returns true /\
     S (List.length (snd (fst r))) = List.length ps /\
     (forall other, other <> id ->
        getProject other (snd (fst r)) = getProject other ps) /\
     (NoDup (map proj_id ps) -> getProject id (snd (fst r)) = None)).
Proof.
  intros Hq Hd. cbv zeta. unfold deleteProject. rewrite Hq, Hd. split.
  - intros ->. reflexivity.
  - intros project Hp. rewrite Hp. cbn [fst snd].
    split; [reflexivity|]. split; [|split].
    + now apply delete_one_length with project.
    + intros other Hne. now apply delete_one_other.
    + apply delete_one_gone.
Qed.

Lemma deleteProject_outcome_witness :
  let f := {| query_raises := None; delete_one_raises := None;
              delete_blob_raises := Some "ResourceNotFound" |} in
  let r := deleteProject f "P-1" [example_project] ["P-1"] in
  (getProject "P-1" [example_project] = None ->
     r = (Returns false, [example_project], ["P-1"])) /\
  (forall project, getProject "P-1" [example_project] = Some project ->
     fst (fst r) = Returns true /\
     S (List.length (snd (fst r))) = List.length [example_project] /\
     (forall other, other <> "P-1" ->
        getProject other (snd (fst r)) = getProject other [example_project]) /\
     (NoDup (map proj_id [example_project]) -> getProject "P-1" (snd (fst r)) = None)).
Proof.
  intros f.
  apply (deleteProject_outcome f "P-1" [example_project] ["P-1"]); reflexivity.
Defined.

Lemma replace_project_absent (project : Project) (ps : list Project) :
  getProject (proj_id project) ps = None -> replace_project project ps = ps.
Proof.
  unfold getProject. induction ps as [|q r IH]; simpl; auto.
  destruct (String.eqb (proj_id q) (proj_id project)); [discriminate|].
  intros H. now rewrite IH.
Qed.

Lemma getProject_replace_other (id : string) (q : Project) (ps : list Project) :
  proj_id q <> id ->
  getProject id (replace_project q ps) = getProject id ps.
Proof.
  unfold getProject. intros Hne. induction ps as [|a r IH]; simpl; auto.
  destruct (String.eqb_spec (proj_id a) (proj_id q)) as [Ha|Ha]; simpl.
  - destruct (String.eqb_spec (proj_id q) id); [contradiction|].
    destruct (String.eqb_spec (proj_id a) id); [congruence | reflexivity].
  - destruct (String.eqb (proj_id a) id); auto.
Qed.

Lemma replace_project_length (q : Project) (ps : list Project) :
  List.length (replace_project q ps) = List.length ps.
Proof.
  induction ps as [|a r IH]; simpl; auto.
  destruct (String.eqb (proj_id a) (proj_id q)); simpl; auto.
Qed.

(** X9.  [updateProject] read back with [getProject]: it never inserts,
    so that a project whose id is not stored changes nothing (the update
    is lost without an error); for a stored id the project read back is
    the one given; the other ids read as before, and updating twice with
    the same project is updating once. *)
Theorem updateProject_then_getProject (project : Project) (ps : list Project) :
  let ps' := updateProject project ps in
  (getProject (proj_id project) ps = None -> ps' = ps) /\
  (getProject (proj_id project) ps <> None ->
   getProject (proj_id project) ps' = Some project) /\
  (forall id, id <> proj_id project -> getProject id ps' = getProject id ps) /\
  List.length ps' = List.length ps /\
  updateProject project ps' = ps'.
Proof.
  cbv zeta. unfold updateProject. split; [|split; [|split; [|split]]].
  - apply replace_project_absent.
  - destruct (getProject (proj_id project) ps) as [stored|] eqn:E; [|congruence].
    intros _. unfold getProject in *.
    now apply find_replace_project with stored.
  - intros id Hne. apply getProject_replace_other. congruence.
  - apply replace_project_length.
  - induction ps as [|a r IH]; simpl; auto.
    destruct (String.eqb (proj_id a) (proj_id project)) eqn:E; simpl.
    + now rewrite String.eqb_refl.
    + now rewrite E, IH.
Qed.

(** ** routes/jobs.py and routes/projects.py *)

Lemma get_job_id (job_id : string) (c : Collection) (job : Job) :
  get_job job_id c = Some job -> In job c /\ _id job = job_id.
Proof.
  unfold get_job, find_one. intros H. apply find_some in H.
  destruct H as [H1 H2]. unfold has_id in H2. now apply String.eqb_eq in H2.
Qed.

(** X10.  [GET /jobs/{job_id}] answers in one of three ways: with a job,
    which is then the stored job of that id; with 404 and the message
    naming the id, exactly when the database answers and has no such
    job (the 404 raised inside the [try] is not turned into a 500); with
    500 and a fixed message, which does not show the text of the
    exception, exactly when the database raises. *)
Theorem route_get_job_outcome (db : option string) (job_id : string) (c : Collection) :
  let r := routes_jobs.get_job db job_id c in
  (forall job, r = Returns job <->
     db = None /\ get_job job_id c = Some job) /\
  (forall job, r = Returns job -> In job c /\ _id job = job_id) /\
  (forall code detail, r = Raises (HTTPException code detail) ->
     (code = 404%nat /\ detail = ("Job with id " ++ job_id ++ " not found")%string /\
      db = None /\ get_job job_id c = None) \/
     (code = 500%nat /\ detail = "Failed to retrieve job from database" /\
      db <> None)) /\
  (forall msg, r <> Raises (OtherException msg)).
Proof.
  cbv zeta. unfold routes_jobs.get_job.
  destruct db as [msg|]; cbn [http_errors].
  - split; [|split; [|split]].
    + intros job. split; [discriminate | intros [H _]; discriminate H].
    + discriminate.
    + intros code detail H. injection H as <- <-. right. repeat split. discriminate.
    + discriminate.
  - destruct (get_job job_id c) as [job0|] eqn:E; cbn [http_errors].
    + split; [|split; [|split]].
      * intros job. split.
        -- intros H. injection H as <-. auto.
        -- intros [_ H]. now injection H as <-.
      * intros job H. injection H as <-. now apply get_job_id.
      * discriminate.
      * discriminate.
    + split; [|split; [|split]].
      * intros job. split; [discriminate | intros [_ H]; discriminate H].
      * discriminate.
      * intros code detail H. injection H as <- <-. left. auto.
      * discriminate.
Qed.

(** X11.  [GET /jobs/project/{project_id}] never answers 404: the
    database answering, it returns a list, which is empty exactly when no
    stored job belongs to the project, a project that does not exist
    included. *)
Theorem route_get_jobs_by_project_unknown_project
    (project_id' : string) (c : Collection) :
  (forall db e, routes_jobs.get_jobs_by_project db project_id' c = Raises e ->
     e = HTTPException 500 "Failed to retrieve jobs from database" /\ db <> None) /\
  exists l,
    routes_jobs.get_jobs_by_project None project_id' c = Returns l /\
    (l = [] <-> forall d, In d c -> project_id d <> project_id').
Proof.
  unfold routes_jobs.get_jobs_by_project. split.
  { intros [msg|] e H; [|discriminate H].
    injection H as <-. split; [reflexivity | discriminate]. }
  eexists. split; [reflexivity|].
  unfold get_jobs_by_project.
  set (f := filter _ c).
  assert (Hp : Permutation (sort_newest_first f) f) by apply sort_newest_first_perm.
  split.
  - intros Hnil d Hd Hid. rewrite Hnil in Hp.
    apply Permutation_nil in Hp.
    assert (Hin : In d f) by (apply filter_In; split; auto; now apply String.eqb_eq).
    rewrite Hp in Hin. exact Hin.
  - intros Hno. destruct (sort_newest_first f) as [|x r] eqn:E; auto.
    assert (Hin : In x f) by (apply (Permutation_in _ Hp); left; reflexivity).
    apply filter_In in Hin. destruct Hin as [H1 H2].
    apply String.eqb_eq in H2. now destruct (Hno x H1).
Qed.

(** X12.  The answer of [DELETE /projects/{id}/delete] and the projects
    it leaves do not depend on whether the deletion in Azure raised:
    [deleteProject] swallows that exception.  The client gets the answer
    it would have got had the blobs been deleted, the message of success
    included, while the blobs are all still there. *)
Theorem route_delete_project_hides_azure_failure
    (db : option string) (f : DeleteFaults) (id : string)
    (ps : list Project) (bs : list string) (msg : string) :
  delete_blob_raises f = Some msg ->
  let ok := {| query_raises := query_raises f;
               delete_one_raises := delete_one_raises f;
               delete_blob_raises := None |} in
  let r := routes_projects.delete_project db f id ps bs in
  fst r = fst (routes_projects.delete_project db ok id ps bs) /\
  snd r = bs.
Proof.
  intros Hb. cbv zeta. unfold routes_projects.delete_project, deleteProject.
  cbn [query_raises delete_one_raises delete_blob_raises]. rewrite Hb.
  destruct db; [split; reflexivity|].
  destruct (getProject id ps); [|split; reflexivity].
  destruct (query_raises f); [split; reflexivity|].
  destruct (delete_one_raises f); split; reflexivity.
Qed.

Lemma route_delete_project_hides_azure_failure_witness :
  let f := {| query_raises := None; delete_one_raises := None;
              delete_blob_raises := Some "AzureError: blob not reachable" |} in
  let ok := {| query_raises := query_raises f;
               delete_one_raises := delete_one_raises f;
               delete_blob_raises := None |} in
  let r := routes_projects.delete_project None f "P-1" [example_project] ["P-1"] in
  fst r = fst (routes_projects.delete_project None ok "P-1" [example_project] ["P-1"]) /\
  snd r = ["P-1"].
Proof.
  intros f.
  apply (route_delete_project_hides_azure_failure None f "P-1" [example_project]
           ["P-1"] "AzureError: blob not reachable").
  reflexivity.
Defined.

(** X13.  Deleting a stored project through the route and asking for it
    again: the database answering and the ids being unique, the deletion
    answers with its message, after which [GET /projects/{id}] and a
    second deletion both answer 404, the second deletion changing
    nothing. *)
Theorem route_delete_project_then_get_project
    (f : DeleteFaults) (id : string) (ps : list Project) (bs : list string)
    (project : Project) :
  query_raises f = None -> delete_one_raises f = None ->
  NoDup (map proj_id ps) ->
  getProject id ps = Some project ->
  let r := routes_projects.delete_project None f id ps bs in
  let not_found := HTTPException 404 ("Project with id " ++ id ++ " not found")%string in
  fst (fst r) = Returns ("Deleted project with id " ++ id)%string /\
  routes_projects.get_project None id (snd (fst r)) = Raises not_found /\
  routes_projects.delete_project None f id (snd (fst r)) (snd r) =
    (Raises not_found, snd (fst r), snd r).
Proof.
  intros Hq Hd Hnd Hp. cbv zeta.
  assert (Hr : routes_projects.delete_project None f id ps bs =
               (Returns ("Deleted project with id " ++ id)%string,
                delete_one id ps,
                match delete_blob_raises f with
                | Some _ => bs
                | None => remove_path id bs
                end)).
  { unfold routes_projects.delete_project, deleteProject.
    now rewrite Hp, Hq, Hd. }
  rewrite Hr. cbn [fst snd]. split; [reflexivity|].
  unfold routes_projects.get_project, routes_projects.delete_project.
  rewrite (delete_one_gone id ps Hnd). cbn [http_errors]. auto.
Qed.

Lemma route_delete_project_then_get_project_witness :
  let f := {| query_raises := None; delete_one_raises := None;
              delete_blob_raises := None |} in
  let r := routes_projects.delete_project None f "P-1" [example_project] ["P-1"] in
  let not_found := HTTPException 404 "Project with id P-1 not found" in
  fst (fst r) = Returns "Deleted project with id P-1" /\
  routes_projects.get_project None "P-1" (snd (fst r)) = Raises not_found /\
  routes_projects.delete_project None f "P-1" (snd (fst r)) (snd r) =
    (Raises not_found, snd (fst r), snd r).
Proof.
  intros f.
  apply (route_delete_project_then_get_project f "P-1" [example_project] ["P-1"]
           example_project).
  - reflexivity.
  - reflexivity.
  - repeat constructor. intros [].
  - reflexivity.
Defined.

(** ** worker.py: the cleanup of a job's files *)

Ltac norm_state :=
  unfold touched, logged, set_self, set_jobs, set_projects, set_files,
    set_blobs, set_trace, set_output_dir;
  cbn [self jobsCollection projectsCollection files blobs trace output_dir
       modify ret fst snd].

Lemma exists_path_removed (p : string) (fs : list string) :
  exists_path p (remove_path p fs) = false.
Proof.
  unfold exists_path, remove_path.
  induction fs as [|f r IH]; simpl; auto.
  destruct (String.eqb p f) eqn:E; simpl; auto. now rewrite E.
Qed.

(** The state [cleanup_temp_files] leaves. *)
Lemma cleanup_temp_files_exact (env : Env) (job : Job) (s : State) :
  cleanup_temp_files env job s =
  (Val tt,
   let local := truthy (file_path job) && exists_path (file_path job) (files s) in
   {| self := self s;
      jobsCollection := jobsCollection s;
      projectsCollection := projectsCollection s;
      files := if local then
                 match fault env OsRemove with
                 | Some _ => files s
                 | None => remove_path (file_path job) (files s)
                 end
               else files s;
      blobs := if truthy (azure_path job) then
                 match fault env DeleteBlob with
                 | Some _ => blobs s
                 | None => remove_path (azure_path job) (blobs s)
                 end
               else blobs s;
      trace := trace s ++ CleanupTempFiles (_id job)
                 :: (if local then [Called OsRemove] else [])
                 ++ (if truthy (azure_path job) then [Called DeleteBlob] else []);
      output_dir := output_dir s |}).
Proof.
  unfold cleanup_temp_files. rewrite run_emit, run_get.
  change (files (logged (CleanupTempFiles (_id job)) s)) with (files s).
  unfold when, try_except, bind at 1. cbv zeta.
  destruct (truthy (file_path job) && exists_path (file_path job) (files s));
    [rewrite run_call; destruct (fault env OsRemove)|];
    cbn [modify ret];
    (destruct (truthy (azure_path job));
     [rewrite run_call; destruct (fault env DeleteBlob)|]);
    cbn [modify ret];
    norm_state; rewrite <- ?app_assoc; cbn [app]; reflexivity.
Qed.

(** X14.  [cleanup_temp_files] never raises and touches nothing but the
    job's local file and its staging blob.  The two deletions do not
    depend on each other: the blob deletion is attempted whenever the job
    has an [azure_path], also after [os.remove] raised; a deletion that
    returns leaves the path absent. *)
Theorem cleanup_temp_files_best_effort (env : Env) (job : Job) (s : State) :
  let r := cleanup_temp_files env job s in
  fst r = Val tt /\
  (self (snd r) = self s /\ jobsCollection (snd r) = jobsCollection s /\
   projectsCollection (snd r) = projectsCollection s) /\
  (exists evs,
     trace (snd r) = trace s ++ CleanupTempFiles (_id job) :: evs /\
     (In (Called OsRemove) evs <->
      truthy (file_path job) && exists_path (file_path job) (files s) = true) /\
     (In (Called DeleteBlob) evs <-> truthy (azure_path job) = true)) /\
  (truthy (file_path job) = true -> fault env OsRemove = None ->
   exists_path (file_path job) (files (snd r)) = false) /\
  (truthy (azure_path job) = true -> fault env DeleteBlob = None ->
   exists_path (azure_path job) (blobs (snd r)) = false) /\
  (forall q, q <> file_path job ->
     exists_path q (files (snd r)) = exists_path q (files s)) /\
  (forall q, q <> azure_path job ->
     exists_path q (blobs (snd r)) = exists_path q (blobs s)).
Proof.
  cbv zeta. rewrite cleanup_temp_files_exact. cbv zeta.
  cbn [fst snd self jobsCollection projectsCollection files blobs trace].
  split; [reflexivity|]. split; [auto|].
  split; [|split; [|split; [|split]]].
  - eexists. split; [reflexivity|].
    destruct (truthy (file_path job) && _); destruct (truthy (azure_path job));
      cbn [app In]; split; split;
      solve [ auto | intros; discriminate
            | intros [H|[H|[]]]; discriminate H
            | intros [H|[]]; discriminate H
            | intros [] ].
  - intros Tf ->. rewrite Tf. cbn [andb].
    destruct (exists_path (file_path job) (files s)) eqn:Xf; auto.
    apply exists_path_removed.
  - intros -> ->. apply exists_path_removed.
  - intros q Hq. destruct (truthy (file_path job) && _); auto.
    destruct (fault env OsRemove); auto. now apply exists_path_remove.
  - intros q Hq. destruct (truthy (azure_path job)); auto.
    destruct (fault env DeleteBlob); auto. now apply exists_path_remove.
Qed.

(** ** worker.py: the loop *)

Ltac count_events :=
  repeat first
    [ rewrite count_app
    | rewrite count_cons
    | match goal with
      | H : Forall (fun e => e = ?a \/ e = ?b) ?evs |- context [count ?p ?evs] =>
          rewrite (count_of_two p a b evs H eq_refl eq_refl)
      | |- context [count ?p (upload_events ?k ?n)] =>
          rewrite (count_upload_events p k n (fun _ => eq_refl))
      | |- context [count ?p (if ?c then _ else _)] => destruct c
      end ];
  cbn [is_cleanup is_sleep is_claim count filter List.length Nat.add].

(** [process_job] does not sleep and does not claim, and has run the
    cleanup of the job's files once when it returns, not at all when it
    raises. *)
Lemma process_job_turn_facts (env : Env) (job : Job) (s : State) :
  exists evs,
    trace (snd (process_job env job s)) = trace s ++ evs /\
    count is_sleep evs = 0%nat /\ count is_claim evs = 0%nat /\
    count is_cleanup evs =
      match fst (process_job env job s) with Val _ => 1%nat | Exc _ => 0%nat end.
Proof.
  destruct (process_job env job s) as [r s'] eqn:E. cbn [fst snd].
  unfold process_job in E. rewrite run_modify in E. unfold try_except at 1 in E.
  destruct (process_job_try env job (set_output_dir None s))
    as [[[]|msg0] s1] eqn:Etry.
  - exec Etry; try discriminate Etry.
    all: injection Etry as <-; injection E as <- <-.
    all: leaf_store.
    all: eexists; (split; [reflexivity|]).
    all: count_events; repeat split; reflexivity.
  - exec Etry; try discriminate Etry.
    all: injection Etry as <- <-.
    all: exec E.
    all: injection E as <- <-.
    all: leaf_store.
    all: eexists; (split; [reflexivity|]).
    all: count_events; repeat split; reflexivity.
Qed.
Lemma check_trace (env : Env) (force : bool) (s : State) :
  let s1 := snd (_check_and_run_cleanup env force s) in
  running (self s1) = running (self s) /\
  poll_interval (self s1) = poll_interval (self s) /\
  exists evs,
    trace s1 = trace s ++ evs /\
    count is_sleep evs = 0%nat /\ count is_cleanup evs = 0%nat /\
    count is_claim evs = 0%nat.
Proof.
  cbv zeta. rewrite _check_and_run_cleanup_run. cbn [snd].
  destruct (cleanup_due _ _).
  - destruct (fault env CleanupOldJobs); cbn; repeat split; auto;
      exists [Called CleanupOldJobs]; auto.
  - repeat split; auto. exists []. now rewrite app_nil_r.
Qed.

(** What a turn of the loop returns: it raises only out of a sleep. *)
Lemma loop_body_result (env : Env) (s : State) :
  fst (loop_body env s) =
  let s1 := snd (_check_and_run_cleanup env false s) in
  let s2 := snd (get_next_job env s1) in
  match fst (get_next_job env s1) with
  | Val (Some j) =>
      match fst (process_job env j s2) with
      | Val _ => Val tt
      | Exc _ => fst (time_sleep (snd (process_job env j s2)))
      end
  | _ => fst (time_sleep s2)
  end.
Proof.
  unfold loop_body, try_except. unfold bind at 1.
  rewrite _check_and_run_cleanup_run. cbn [fst snd].
  set (s1 := if cleanup_due _ _ then _ else s).
  unfold bind at 1.
  destruct (get_next_job env s1) as [[[j|]|msg] s2] eqn:G; cbn [fst snd].
  - unfold bind at 1.
    destruct (process_job env j s2) as [[[]|msg] s3] eqn:P; cbn [fst snd].
    + rewrite _check_and_run_cleanup_run. reflexivity.
    + reflexivity.
  - change (fst (try_except time_sleep (fun _ => time_sleep) s2) = fst (time_sleep s2)).
    now rewrite time_sleep_retried.
  - destruct (get_next_job_returns env s1) as (r & Hr).
    rewrite G in Hr. discriminate Hr.
Qed.

Lemma time_sleep_trace (s : State) :
  trace (snd (time_sleep s)) = trace s ++ sleep_events (self s) /\
  match fst (time_sleep s) with
  | Val _ => count is_sleep (sleep_events (self s)) = 1%nat
  | Exc _ => count is_sleep (sleep_events (self s)) = 0%nat /\
             ~ 0 <= poll_interval (self s) <= 9223372036
  end /\
  count is_cleanup (sleep_events (self s)) = 0%nat /\
  count is_claim (sleep_events (self s)) = 0%nat.
Proof.
  unfold sleep_events. rewrite time_sleep_run.
  pose proof (time_sleep_raises_none (poll_interval (self s))) as Hn.
  destruct (time_sleep_raises (poll_interval (self s))); cbn.
  - rewrite app_nil_r. repeat split; auto.
    intros H. apply Hn in H. discriminate H.
  - repeat split; auto.
Qed.

(** A turn of the loop: whether it returns, and what it has done. *)
Lemma loop_body_turn (env : Env) (s : State) :
  (0 <= poll_interval (self s) <= 9223372036 -> fst (loop_body env s) = Val tt) /\
  exists evs,
    trace (snd (loop_body env s)) = trace s ++ evs /\
    count is_claim evs = 1%nat /\
    match fst (loop_body env s) with
    | Val _ => (count is_sleep evs + count is_cleanup evs = 1)%nat
    | Exc _ => count is_sleep evs = 0%nat /\ count is_cleanup evs = 0%nat /\
               ~ 0 <= poll_interval (self s) <= 9223372036
    end.
Proof.
  assert (Hmain : exists evs,
    trace (snd (loop_body env s)) = trace s ++ evs /\
    count is_claim evs = 1%nat /\
    match fst (loop_body env s) with
    | Val _ => (count is_sleep evs + count is_cleanup evs = 1)%nat
    | Exc _ => count is_sleep evs = 0%nat /\ count is_cleanup evs = 0%nat /\
               ~ 0 <= poll_interval (self s) <= 9223372036
    end).
  { rewrite loop_body_result, loop_body_run. cbv zeta.
    destruct (check_trace env false s) as (_ & P0 & evs0 & T0 & S0 & C0 & K0).
    set (s1 := snd (_check_and_run_cleanup env false s)) in *.
    unfold loop_rest.
    destruct (get_next_job_facts env s1) as (R1 & T1).
    destruct (get_next_job_returns env s1) as (r & Hr). rewrite Hr.
    set (s2 := snd (get_next_job env s1)) in *.
    destruct r as [j|].
    - destruct (process_job_turn_facts env j s2) as (evs2 & T2 & S2 & K2 & C2).
      destruct (process_job_facts env j s2) as (R2 & _).
      destruct (fst (process_job env j s2)) as [[]|msg].
      + destruct (check_trace env true (snd (process_job env j s2)))
          as (_ & _ & evs3 & T3 & S3 & C3 & K3).
        exists (evs0 ++ [Called FindOneAndUpdate] ++ evs2 ++ evs3). split.
        * rewrite T3, T2, T1, T0. now rewrite <- !app_assoc.
        * rewrite !count_app, S0, C0, K0, S2, C2, K2, S3, C3, K3. split; reflexivity.
      + destruct (time_sleep_trace (snd (process_job env j s2))) as (T3 & S3 & C3 & K3).
        rewrite R2, R1 in T3, S3, C3, K3. cbv zeta in R2.
        exists (evs0 ++ [Called FindOneAndUpdate] ++ evs2 ++ sleep_events (self s1)).
        split; [rewrite T3, T2, T1, T0; now rewrite <- !app_assoc|].
        rewrite !count_app, S0, C0, K0, S2, C2, K2, C3, K3. split; [reflexivity|].
        rewrite P0 in S3.
        destruct (fst (time_sleep (snd (process_job env j s2)))).
        * rewrite S3. reflexivity.
        * destruct S3 as [S3 Hp]. rewrite S3. auto.
    - destruct (time_sleep_trace s2) as (T3 & S3 & C3 & K3).
      rewrite R1 in T3, S3, C3, K3.
      exists (evs0 ++ [Called FindOneAndUpdate] ++ sleep_events (self s1)).
      split; [rewrite T3, T1, T0; now rewrite <- !app_assoc|].
      rewrite !count_app, S0, C0, K0, C3, K3. split; [reflexivity|].
      rewrite P0 in S3.
      destruct (fst (time_sleep s2)).
      + rewrite S3. reflexivity.
      + destruct S3 as [S3 Hp]. rewrite S3. auto. }
  split; [|exact Hmain].
  intros Hp. destruct Hmain as (evs & _ & _ & H).
  destruct (fst (loop_body env s)) as [[]|msg]; [reflexivity|].
  destruct H as (_ & _ & H). contradiction.
Qed.

(** X15.  A turn of the worker loop raises only out of [time.sleep],
    which refuses a poll interval that is negative or longer than
    9223372036 seconds: with a poll interval between the two the turn
    never raises, whatever the database, the storage or the pipeline do.
    In a turn that returns exactly one of two things has happened: the
    cleanup of one job's files has run, or the worker has slept once; it
    does not sleep after a job it has processed.  In a turn that raises
    neither has happened.  Every turn makes one attempt to claim a
    job. *)
Theorem loop_body_sleeps_or_cleans (env : Env) (s : State) :
  (0 <= poll_interval (self s) <= 9223372036 -> fst (loop_body env s) = Val tt) /\
  exists evs,
    trace (snd (loop_body env s)) = trace s ++ evs /\
    count is_claim evs = 1%nat /\
    match fst (loop_body env s) with
    | Val _ => (count is_sleep evs + count is_cleanup evs = 1)%nat
    | Exc _ => count is_sleep evs = 0%nat /\ count is_cleanup evs = 0%nat /\
               ~ 0 <= poll_interval (self s) <= 9223372036
    end.
Proof. exact (loop_body_turn env s). Qed.

(** A worker whose poll interval is [-1] and which finds nothing to
    claim: the turn raises out of the sleep of the handler. *)
Example loop_body_negative_poll_interval :
  let env := example_env 500000 [] in
  let s0 := example_state (Some 400000) [] in
  let s := set_self {| poll_interval := -1; cleanup_interval_hours := 1;
                       last_cleanup_time := Some 400000; running := true |} s0 in
  fst (loop_body env s) = Exc "sleep length must be non-negative" /\
  trace (snd (loop_body env s)) = [Called FindOneAndUpdate].
Proof. split; vm_compute; reflexivity. Qed.

Lemma loop_body_keeps_worker (env : Env) (s : State) :
  running (self (snd (loop_body env s))) = running (self s) /\
  poll_interval (self (snd (loop_body env s))) = poll_interval (self s).
Proof.
  rewrite loop_body_run.
  destruct (check_trace env false s) as (R0 & P0 & _).
  set (s1 := snd (_check_and_run_cleanup env false s)) in *.
  unfold loop_rest.
  destruct (get_next_job_facts env s1) as (R1 & _).
  set (s2 := snd (get_next_job env s1)) in *.
  destruct (fst (get_next_job env s1)) as [[j|]|msg].
  - destruct (process_job_facts env j s2) as (R2 & _).
    destruct (fst (process_job env j s2)) as [[]|msg].
    + destruct (check_trace env true (snd (process_job env j s2))) as (R3 & P3 & _).
      rewrite R3, P3, R2, R1. auto.
    + rewrite time_sleep_self, R2, R1. auto.
  - rewrite time_sleep_self, R1. auto.
  - rewrite time_sleep_self, R1. auto.
Qed.

(** X16.  Nothing that fails in a turn ends the loop of [start]: with a
    poll interval [time.sleep] accepts, and as long as [stop()] is not
    called, the loop makes every turn, one attempt to claim a job in
    each, and the worker is running after the last one. *)
Theorem start_survives_failures (envs : list Env) (s : State) :
  0 <= poll_interval (self s) <= 9223372036 ->
  Forall (fun x => stop_called x = false) envs ->
  running (self (start envs s)) = true /\
  count is_claim (trace (start envs s)) =
    (count is_claim (trace s) + List.length envs)%nat.
Proof.
  intros Hp Hall. unfold start.
  set (s0 := set_self _ s).
  assert (H0 : running (self s0) = true) by reflexivity.
  assert (P0 : 0 <= poll_interval (self s0) <= 9223372036) by exact Hp.
  assert (T0 : trace s0 = trace s) by reflexivity.
  rewrite <- T0. clearbody s0. clear T0 Hp s.
  revert s0 H0 P0.
  induction Hall as [|e r He Hr IH]; intros s0 H0 P0; cbn [run_loop List.length].
  - split; [exact H0 | lia].
  - rewrite H0, He.
    destruct (loop_body_turn e s0) as (Hv & evs & Ht & Hk & _).
    destruct (loop_body_keeps_worker e s0) as (Rk & Pk).
    rewrite (Hv P0).
    destruct (IH (snd (loop_body e s0))) as (IH1 & IH2);
      [now rewrite Rk | now rewrite Pk |].
    split; [exact IH1|]. rewrite IH2, Ht, count_app, Hk. lia.
Qed.

Lemma start_survives_failures_witness :
  let down := example_env 500000
                [(CleanupOldJobs, "ServerSelectionTimeoutError");
                 (FindOneAndUpdate, "ServerSelectionTimeoutError")] in
  let broken := example_env 501000 [(UpdMetadata, "connection lost");
                                    (UpdFailed, "connection lost")] in
  let quiet := example_env 502000 [] in
  let s := example_state None [example_job "J1" "pending" None 100000 0] in
  running (self (start [down; broken; quiet] s)) = true /\
  count is_claim (trace (start [down; broken; quiet] s)) =
    (count is_claim (trace s) + List.length [down; broken; quiet])%nat.
Proof.
  intros down broken quiet s.
  apply (start_survives_failures [down; broken; quiet] s).
  - vm_compute. split; discriminate.
  - repeat constructor.
Defined.

(** With a poll interval of [-1] the loop is left by the exception of
    the first turn that finds nothing to claim: no further turn is made,
    and the worker is still marked as running. *)
Example start_negative_poll_interval :
  let quiet := example_env 500000 [] in
  let s0 := example_state (Some 400000) [] in
  let s := set_self {| poll_interval := -1; cleanup_interval_hours := 1;
                       last_cleanup_time := Some 400000; running := false |} s0 in
  trace (start [quiet; quiet; quiet] s) = [Called FindOneAndUpdate] /\
  running (self (start [quiet; quiet; quiet] s)) = true.
Proof. split; vm_compute; reflexivity. Qed.

(** X17.  While the database does not answer, neither the sweep nor the
    claim, a turn of the loop changes nothing: the jobs, the projects,
    the files, the blobs and the worker's own fields are as before;
    [get_next_job] has swallowed the exception and reported no job, no
    job has been touched, and the worker goes to sleep: it sleeps, unless
    [time.sleep] refuses the poll interval. *)
Theorem loop_body_database_down (env : Env) (s : State) (m1 m2 : string) :
  fault env CleanupOldJobs = Some m1 ->
  fault env FindOneAndUpdate = Some m2 ->
  get_next_job env s = (Val None, logged (Called FindOneAndUpdate) s) /\
  let s' := snd (loop_body env s) in
  self s' = self s /\ jobsCollection s' = jobsCollection s /\
  projectsCollection s' = projectsCollection s /\
  files s' = files s /\ blobs s' = blobs s /\
  trace s' =
    trace s ++
    (if cleanup_due (self s) (utcnow env (ClockCheck false))
     then [Called CleanupOldJobs] else []) ++
    [Called FindOneAndUpdate] ++ sleep_events (self s) /\
  (0 <= poll_interval (self s) <= 9223372036 ->
   sleep_events (self s) = [Sleep] /\ fst (loop_body env s) = Val tt).
Proof.
  intros F1 F2. split; [now apply get_next_job_unanswered with m2|].
  cbv zeta.
  assert (Hsleep : 0 <= poll_interval (self s) <= 9223372036 ->
                   sleep_events (self s) = [Sleep]).
  { intros Hp. apply time_sleep_raises_none in Hp. unfold sleep_events.
    now rewrite Hp. }
  assert (Hval : 0 <= poll_interval (self s) <= 9223372036 ->
                 fst (loop_body env s) = Val tt)
    by apply loop_body_turn.
  rewrite loop_body_run, _check_and_run_cleanup_run, F1. cbn [snd].
  unfold loop_rest.
  destruct (cleanup_due (self s) (utcnow env (ClockCheck false)));
    rewrite (get_next_job_unanswered env _ m2 F2); cbn [fst snd];
    match goal with
    | |- context [time_sleep ?x] =>
        destruct (time_sleep_facts x) as (E1 & E2 & E3 & E4 & E5 & _ & E7);
        rewrite E1, E2, E3, E4, E5, E7
    end;
    norm_state; unfold sleep_events; rewrite <- ?app_assoc; cbn [app];
    repeat split; auto.
Qed.

Lemma loop_body_database_down_witness :
  let env := example_env 500000 [(CleanupOldJobs, "ServerSelectionTimeoutError");
                                 (FindOneAndUpdate, "ServerSelectionTimeoutError")] in
  let s := example_state None [example_job "J1" "pending" None 100000 0] in
  get_next_job env s = (Val None, logged (Called FindOneAndUpdate) s) /\
  let s' := snd (loop_body env s) in
  self s' = self s /\ jobsCollection s' = jobsCollection s /\
  projectsCollection s' = projectsCollection s /\
  files s' = files s /\ blobs s' = blobs s /\
  trace s' =
    trace s ++
    (if cleanup_due (self s) (utcnow env (ClockCheck false))
     then [Called CleanupOldJobs] else []) ++
    [Called FindOneAndUpdate] ++ sleep_events (self s) /\
  (0 <= poll_interval (self s) <= 9223372036 ->
   sleep_events (self s) = [Sleep] /\ fst (loop_body env s) = Val tt).
Proof.
  intros env s.
  apply (loop_body_database_down env s "ServerSelectionTimeoutError"
           "ServerSelectionTimeoutError"); reflexivity.
Defined.

(** X18.  A sweep of the reaper that raises is made up for: the exception
    is swallowed and [last_cleanup_time] is left as it was, so that the
    next check, at that time or later, is due again; when its call
    returns, the jobs are swept as if the first one had not been tried
    and [last_cleanup_time] is the time of that second check. *)
Theorem check_and_run_cleanup_retried
    (env env' : Env) (force force' : bool) (s : State) (msg : string) :
  cleanup_due (self s) (utcnow env (ClockCheck force)) = true ->
  fault env CleanupOldJobs = Some msg ->
  fault env' CleanupOldJobs = None ->
  utcnow env (ClockCheck force) <= utcnow env' (ClockCheck force') ->
  let r1 := _check_and_run_cleanup env force s in
  let r2 := _check_and_run_cleanup env' force' (snd r1) in
  fst r1 = Val tt /\ fst r2 = Val tt /\
  self (snd r1) = self s /\ jobsCollection (snd r1) = jobsCollection s /\
  last_cleanup_time (self (snd r2)) = Some (utcnow env' (ClockCheck force')) /\
  jobsCollection (snd r2) =
    fst (cleanup_old_jobs (utcnow env' (ClockPurge force')) 72 (jobsCollection s)).
Proof.
  intros Hdue F F' Hle. cbv zeta.
  rewrite (_check_and_run_cleanup_run env force s), Hdue, F. cbn [fst snd].
  rewrite _check_and_run_cleanup_run.
  assert (Hdue' : cleanup_due (self (logged (Called CleanupOldJobs) s))
                    (utcnow env' (ClockCheck force')) = true).
  { unfold logged, set_trace. cbn [self]. unfold cleanup_due in *.
    destruct (last_cleanup_time (self s)); auto.
    now apply (interval_passed_mono (utcnow env (ClockCheck force))). }
  rewrite Hdue', F'. cbn. auto 10.
Qed.

Lemma check_and_run_cleanup_retried_witness :
  let env := example_env 3600000000 [(CleanupOldJobs, "NetworkTimeout")] in
  let env' := example_env 3600000005 [] in
  let s := example_state (Some 0) [example_job "J1" "pending" None 100000 0] in
  let r1 := _check_and_run_cleanup env false s in
  let r2 := _check_and_run_cleanup env' true (snd r1) in
  fst r1 = Val tt /\ fst r2 = Val tt /\
  self (snd r1) = self s /\ jobsCollection (snd r1) = jobsCollection s /\
  last_cleanup_time (self (snd r2)) = Some (utcnow env' (ClockCheck true)) /\
  jobsCollection (snd r2) =
    fst (cleanup_old_jobs (utcnow env' (ClockPurge true)) 72 (jobsCollection s)).
Proof.
  intros env env' s.
  apply (check_and_run_cleanup_retried env env' false true s "NetworkTimeout").
  - reflexivity.
  - reflexivity.
  - reflexivity.
  - vm_compute. discriminate.
Defined.

(** ** worker.py: the upload of the converter's output *)

Lemma exists_path_add_keeps (b p : string) (fs : list string) :
  exists_path b fs = true -> exists_path b (add_path p fs) = true.
Proof.
  intros H. unfold add_path. destruct (exists_path p fs); auto.
  unfold exists_path in *. rewrite existsb_app, H. reflexivity.
Qed.

Lemma upload_files_grow (env : Env) (project_id' : string) (fs : list (string * string)) :
  forall (k : nat) (s : State),
    let s' := snd (upload_files env project_id' k fs s) in
    (self s' = self s /\ jobsCollection s' = jobsCollection s /\
     projectsCollection s' = projectsCollection s /\ files s' = files s) /\
    (forall b, exists_path b (blobs s) = true -> exists_path b (blobs s') = true) /\
    (fs = [] -> blobs s' = blobs s).
Proof.
  induction fs as [|[rel_path ext] r IH]; intros k s; cbv zeta.
  - cbn. auto 10.
  - cbn [upload_files]. rewrite run_az_upload_bytes.
    destruct (fault env (PotreeUploadBytes k)).
    + cbn. split; [auto|]. split; [auto | discriminate].
    + match goal with
      | |- context [upload_files env project_id' (S k) r ?s1] =>
          destruct (IH (S k) s1) as ((H1 & H2 & H3 & H4) & H5 & _)
      end.
      rewrite H1, H2, H3, H4. cbn. split; [auto|]. split; [|discriminate].
      intros b Hb. apply H5. cbn. now apply exists_path_add_keeps.
Qed.

(** X19.  [_upload_potree_output] only adds: no blob that was there is
    removed, also when an upload raises half-way (what was uploaded
    before stays), and the jobs, the projects and the local files are not
    touched.  It returns only after every file of the directory has been
    uploaded, in the order of [os.walk], and the SAS URL was generated;
    what it returns is that URL.  For an empty directory it uploads
    nothing and returns the URL all the same. *)
Theorem upload_potree_output_only_adds
    (env : Env) (output_dir' project_id' : string) (s : State) :
  let r := _upload_potree_output env output_dir' project_id' s in
  (self (snd r) = self s /\ jobsCollection (snd r) = jobsCollection s /\
   projectsCollection (snd r) = projectsCollection s /\ files (snd r) = files s) /\
  (forall b, exists_path b (blobs s) = true -> exists_path b (blobs (snd r)) = true) /\
  (forall url, fst r = Val url ->
     url = potree_sas_url env /\
     (forall i, (i < List.length (walk env))%nat ->
        fault env (PotreeUploadBytes i) = None) /\
     fault env PotreeSas = None /\
     trace (snd r) =
       trace s ++ upload_events 0 (List.length (walk env)) ++ [Called PotreeSas]) /\
  (walk env = [] -> fault env PotreeSas = None ->
   r = (Val (potree_sas_url env), logged (Called PotreeSas) s)).
Proof.
  cbv zeta. unfold _upload_potree_output.
  destruct (upload_files_grow env project_id' (walk env) 0%nat s)
    as ((H1 & H2 & H3 & H4) & H5 & H6).
  destruct (upload_files_run env project_id' (walk env) 0%nat s)
    as (n & bs & Hn & Hok & [(Eu & -> & Hlast)|(msg & Eu & Hpos & Hlast)]).
  - rewrite Eu in *. cbn [snd] in *.
    rewrite (run_val _ _ _ _ _ Eu), run_call.
    destruct (fault env PotreeSas) as [msg|] eqn:Fs.
    + cbn [fst snd]. norm_state. cbn in H5.
      split; [auto|]. split; [exact H5|]. split; [discriminate|].
      discriminate.
    + cbn [fst snd ret]. norm_state. cbn in H5.
      split; [auto|]. split; [exact H5|]. split.
      * intros url Hu. injection Hu as <-. split; [reflexivity|].
        split; [|split; [reflexivity | now rewrite <- app_assoc]].
        intros i Hi.
        destruct (Nat.eq_dec i (List.length (walk env) - 1)) as [->|Hne].
        -- destruct Hlast as [Hz|Hlast]; [lia | exact Hlast].
        -- apply Hok. lia.
      * intros Hw _. cbn in H6. rewrite (H6 Hw), Hw.
        unfold upload_events. cbn. rewrite app_nil_r. reflexivity.
  - rewrite Eu in *. cbn [snd] in *.
    rewrite (run_exc _ _ _ _ _ Eu). cbn [fst snd]. cbn in H5.
    norm_state.
    split; [auto|]. split; [exact H5|]. split; [discriminate|].
    intros Hw. rewrite Hw in Hn. cbn in Hn. lia.
Qed.

(** ** worker.py: what [process_job] does to the two collections *)

Lemma update_job_status_length (t1 t2 : datetime) (job_id status' : string)
    (kw : Kwargs) (c : Collection) :
  List.length (update_job_status t1 t2 job_id status' kw c) = List.length c.
Proof.
  rewrite <- (length_map _id), update_job_status_ids. apply length_map.
Qed.

(* the project object of the pipeline, whatever the metadata and the
   thumbnail step gave *)
Ltac project_cases :=
  repeat match goal with
  | |- context [md_points ?m =? 0] => destruct (md_points m =? 0)
  | |- context [match md_center ?m with _ => _ end] =>
      destruct (md_center m) as [[|? ?]|]
  | |- context [thumbnail_ok ?e] => destruct (thumbnail_ok e)
  end;
  cbn [proj_id name crs with_location with_point_count with_thumbnail with_cloud].

Ltac found_project :=
  match goal with
  | H : find (fun x => String.eqb (proj_id x) ?i) _ = Some ?p0 |- _ =>
      let Hid := fresh "Hid" in
      assert (Hid : proj_id p0 = i)
        by (apply find_some in H; apply String.eqb_eq; apply H)
  end.

Ltac store_leaf :=
  split;
  [ let other := fresh "other" in
    intros other Hne; unfold get_job; unfold_update;
    now rewrite ?find_one_update_one_other by assumption |];
  split;
  [ let d := fresh "d" in
    intros d Hd; unfold get_job in *; unfold_update;
    rewrite ?find_one_update_one, Hd; cbn [option_map];
    eexists; (split; [reflexivity|]); cbn; repeat split; reflexivity |];
  split;
  [ let id := fresh "id" in
    intros id Hne; try reflexivity; found_project;
    rewrite ?getProject_replace_other; try reflexivity;
    project_cases; congruence |];
  split;
  [ let q := fresh "q" in
    intros q Hp; unfold getProject in Hp;
    first
      [ found_project;
        match goal with
        | H : find _ _ = Some ?p0 |- _ =>
            rewrite H in Hp; injection Hp as <-
        end;
        eexists; split;
        [ unfold getProject;
          first [ eapply find_replace_project;
                  [|eapply find_replace_project; [|eassumption]]
                | eapply find_replace_project; [|eassumption]
                | eassumption ];
          project_cases; assumption
        | project_cases; auto ]
      | exists q; auto
      | congruence ] |];
  split;
  [ intros Hp; unfold getProject in Hp; first [reflexivity | congruence] |];
  split;
  [ now rewrite ?update_job_status_length
  | now rewrite ?replace_project_length ].

Lemma process_job_stores (env : Env) (job : Job) (s : State) :
  let s' := snd (process_job env job s) in
  (forall other, other <> _id job ->
     get_job other (jobsCollection s') = get_job other (jobsCollection s)) /\
  (forall d, get_job (_id job) (jobsCollection s) = Some d ->
     exists d', get_job (_id job) (jobsCollection s') = Some d' /\
       same_identity d d' /\ retry_count d' = retry_count d) /\
  (forall id, id <> project_id job ->
     getProject id (projectsCollection s') = getProject id (projectsCollection s)) /\
  (forall p, getProject (project_id job) (projectsCollection s) = Some p ->
     exists p', getProject (project_id job) (projectsCollection s') = Some p' /\
       proj_id p' = proj_id p /\ name p' = name p /\ crs p' = crs p) /\
  (getProject (project_id job) (projectsCollection s) = None ->
   projectsCollection s' = projectsCollection s) /\
  List.length (jobsCollection s') = List.length (jobsCollection s) /\
  List.length (projectsCollection s') = List.length (projectsCollection s).
Proof.
  destruct (process_job env job s) as [r s'] eqn:E. cbn [fst snd].
  unfold process_job in E. rewrite run_modify in E. unfold try_except at 1 in E.
  destruct (process_job_try env job (set_output_dir None s))
    as [[[]|msg0] s1] eqn:Etry.
  - exec Etry; try discriminate Etry.
    all: injection Etry as <-; injection E as <- <-.
    all: leaf_store.
    all: store_leaf.
  - exec Etry; try discriminate Etry.
    all: injection Etry as <- <-.
    all: exec E.
    all: injection E as <- <-.
    all: leaf_store.
    all: store_leaf.
Qed.

(** X20.  [process_job] writes to the document of its own job only:
    whatever happens in the pipeline, every other job reads as before and
    no job is added or removed; and of its own job it never changes the
    id, the project, the two paths, the creation date or the retry
    count. *)
Theorem process_job_touches_its_job_only (env : Env) (job : Job) (s : State) :
  let s' := snd (process_job env job s) in
  (forall other, other <> _id job ->
     get_job other (jobsCollection s') = get_job other (jobsCollection s)) /\
  List.length (jobsCollection s') = List.length (jobsCollection s) /\
  (forall d, get_job (_id job) (jobsCollection s) = Some d ->
     exists d', get_job (_id job) (jobsCollection s') = Some d' /\
       same_identity d d' /\ retry_count d' = retry_count d).
Proof.
  destruct (process_job_stores env job s) as (H1 & H2 & _ & _ & _ & H6 & _).
  auto.
Qed.

(** X21.  [process_job] writes to the project of its job only, and never
    to its id, its name or its CRS (the CRS given by the user is not
    overwritten by the metadata): every other project reads as before, no
    project is added or removed, and when the job's project does not
    exist none is created. *)
Theorem process_job_keeps_project_identity (env : Env) (job : Job) (s : State) :
  let s' := snd (process_job env job s) in
  (forall id, id <> project_id job ->
     getProject id (projectsCollection s') = getProject id (projectsCollection s)) /\
  List.length (projectsCollection s') = List.length (projectsCollection s) /\
  (forall p, getProject (project_id job) (projectsCollection s) = Some p ->
     exists p', getProject (project_id job) (projectsCollection s') = Some p' /\
       proj_id p' = proj_id p /\ name p' = name p /\ crs p' = crs p) /\
  (getProject (project_id job) (projectsCollection s) = None ->
   projectsCollection s' = projectsCollection s).
Proof.
  destruct (process_job_stores env job s) as (_ & _ & H3 & H4 & H5 & _ & H7).
  auto.
Qed.

(** X22.  A job is marked [completed] only at the end of a pipeline that
    went through: when a job that was not completed reads as [completed]
    after [process_job], then [process_job] returned normally, the
    converter, every upload and the SAS URL of the viewer were called and
    returned, no call of [mark_failed] was made, the job's step is
    [completed], and its project has the viewer URL as [cloud]. *)
Theorem process_job_completed_means_published
    (env : Env) (job : Job) (s : State) (d d' : Job) :
  get_job (_id job) (jobsCollection s) = Some d ->
  status d <> "completed" ->
  get_job (_id job) (jobsCollection (snd (process_job env job s))) = Some d' ->
  status d' = "completed" ->
  fst (process_job env job s) = Val tt /\
  current_step d' = Some "completed" /\
  fault env Convert = None /\
  (forall i, (i < List.length (walk env))%nat ->
     fault env (PotreeUploadBytes i) = None) /\
  fault env PotreeSas = None /\
  (exists evs,
     trace (snd (process_job env job s)) = trace s ++ evs /\
     In (Called Convert) evs /\ ~ In (Called UpdFailed) evs) /\
  (exists p',
     getProject (project_id job) (projectsCollection (snd (process_job env job s)))
       = Some p' /\
     cloud p' = Some (potree_sas_url env)).
Proof.
  intros Hjob Hst Hjob' Hst'.
  destruct (process_job env job s) as [r s'] eqn:E. cbn [fst snd] in *.
  unfold process_job in E. rewrite run_modify in E. unfold try_except at 1 in E.
  destruct (process_job_try env job (set_output_dir None s))
    as [[[]|msg0] s1] eqn:Etry.
  - exec Etry; try discriminate Etry.
    all: injection Etry as <-; injection E as <- <-.
    all: leaf_store.
    all: unfold get_job in Hjob, Hjob'; unfold_update;
         rewrite ?find_one_update_one, Hjob in Hjob'; cbn [option_map] in Hjob';
         injection Hjob' as <-.
    all: split; [reflexivity|].
    all: split; [reflexivity|].
    all: split; [reflexivity|].
    all: split;
      [ intros i Hi;
        match goal with
        | Hok : forall j, (_ <= j < _)%nat -> fault _ (PotreeUploadBytes j) = None,
          Hn : ?n = List.length (walk ?e),
          Hl : _ \/ fault _ (PotreeUploadBytes _) = None |- _ =>
            subst n; cbn [Nat.add] in Hok, Hl;
            destruct (Nat.eq_dec i (List.length (walk e) - 1)) as [->|Hne];
            [ destruct Hl as [Hl|Hl]; [lia | exact Hl] | apply Hok; lia ]
        end |].
    all: split; [reflexivity|].
    all: split;
      [ eexists; split; [reflexivity|]; split; [find_in|];
        intros Hin; refute_in Hin |].
    all: found_project.
    all: eexists; split;
      [ unfold getProject;
        eapply find_replace_project;
          [|eapply find_replace_project; [|eassumption]];
        project_cases; assumption
      | reflexivity ].
  - exfalso. exec Etry; try discriminate Etry.
    all: injection Etry as <- <-.
    all: exec E.
    all: injection E as <- <-.
    all: leaf_store.
    all: unfold get_job in Hjob, Hjob'; unfold_update;
         rewrite ?find_one_update_one, Hjob in Hjob'; cbn [option_map] in Hjob';
         injection Hjob' as <-.
    all: cbn in Hst'; first [discriminate Hst' | contradiction].
Qed.

Lemma process_job_completed_means_published_witness :
  let env := example_env 500000 [(ThumbnailGenerate, "no points to render")] in
  let job := example_job "J1" "processing" None 100000 0 in
  let s := example_state (Some 0) [job] in
  let d' := {| _id := "J1"; project_id := "P-1"; status := "completed";
               current_step := Some "completed";
               progress_message := Some "Processing completed successfully";
               error_message := None;
               file_path := "/tmp/in.laz"; azure_path := "jobs/in.laz";
               retry_count := 0; created_at := 100000; updated_at := 500000;
               completed_at := Some 500000 |} in
  fst (process_job env job s) = Val tt /\
  current_step d' = Some "completed" /\
  fault env Convert = None /\
  (forall i, (i < List.length (walk env))%nat ->
     fault env (PotreeUploadBytes i) = None) /\
  fault env PotreeSas = None /\
  (exists evs,
     trace (snd (process_job env job s)) = trace s ++ evs /\
     In (Called Convert) evs /\ ~ In (Called UpdFailed) evs) /\
  (exists p',
     getProject (project_id job) (projectsCollection (snd (process_job env job s)))
       = Some p' /\
     cloud p' = Some (potree_sas_url env)).
Proof.
  intros env job s d'.
  apply (process_job_completed_means_published env job s job d').
  - reflexivity.
  - discriminate.
  - vm_compute. reflexivity.
  - reflexivity.
Defined.

Ltac norm_state_in E :=
  unfold touched, logged, set_self, set_jobs, set_projects, set_files,
    set_blobs, set_trace, set_output_dir in E;
  cbn [self jobsCollection projectsCollection files blobs trace output_dir
       modify ret fst snd] in E.

(** X23.  A job whose project does not exist: the database answering,
    [process_job] raises [ValueError] inside its [try] before any step of
    the pipeline, so that no status update of a step, no extractor, no
    converter and no upload is called; the job is marked [failed] with
    the message naming the project, the step it had is kept, its files
    are cleaned up, no project is written, and [process_job] returns
    normally. *)
Theorem process_job_project_not_found
    (env : Env) (job : Job) (s : State) (d : Job) :
  fault env GetProject = None ->
  getProject (project_id job) (projectsCollection s) = None ->
  fault env UpdFailed = None ->
  get_job (_id job) (jobsCollection s) = Some d ->
  let r := process_job env job s in
  fst r = Val tt /\
  projectsCollection (snd r) = projectsCollection s /\
  (exists d',
     get_job (_id job) (jobsCollection (snd r)) = Some d' /\
     status d' = "failed" /\
     error_message d' = Some ("Project " ++ project_id job ++ " not found")%string /\
     progress_message d' = Some "Processing failed" /\
     current_step d' = current_step d /\
     completed_at d' = Some (bson_date (utcnow env (ClockCompleted UpdFailed)))) /\
  (exists evs,
     trace (snd r) =
       trace s ++ Called GetProject :: Called UpdFailed
                  :: CleanupTempFiles (_id job) :: evs /\
     Forall (fun e => e = Called OsRemove \/ e = Called DeleteBlob) evs).
Proof.
  intros Fg Hp Ff Hjob. cbv zeta. unfold getProject in Hp.
  destruct (process_job env job s) as [r s'] eqn:E. cbn [fst snd].
  unfold process_job in E. rewrite run_modify in E. unfold try_except at 1 in E.
  destruct (process_job_try env job (set_output_dir None s))
    as [[[]|msg0] s1] eqn:Etry.
  - exfalso. unfold process_job_try, db_getProject in Etry.
    repeat (exec_step Etry; try congruence).
  - unfold process_job_try, db_getProject in Etry.
    repeat (exec_step Etry; try congruence).
    injection Etry as <- <-.
    exec E; try congruence.
    injection E as <- <-.
    leaf_store. cbn [app].
    split; [reflexivity|]. split; [reflexivity|]. split.
    + unfold get_job in *; unfold_update.
      rewrite find_one_update_one, Hjob. cbn [option_map].
      eexists. split; [reflexivity|]. cbn. auto 10.
    + eexists. split; [rewrite app_nil_r; reflexivity | assumption].
Qed.

Lemma process_job_project_not_found_witness :
  let env := example_env 500000 [] in
  let job := {| _id := "J9"; project_id := "P-9"; status := "processing";
                current_step := None; progress_message := None;
                error_message := None; file_path := "/tmp/in.laz";
                azure_path := "jobs/in.laz"; retry_count := 0;
                created_at := 100000; updated_at := 100000; completed_at := None |} in
  let s := example_state (Some 0) [job] in
  let r := process_job env job s in
  fst r = Val tt /\
  projectsCollection (snd r) = projectsCollection s /\
  (exists d',
     get_job (_id job) (jobsCollection (snd r)) = Some d' /\
     status d' = "failed" /\
     error_message d' = Some ("Project " ++ project_id job ++ " not found")%string /\
     progress_message d' = Some "Processing failed" /\
     current_step d' = current_step job /\
     completed_at d' = Some (bson_date (utcnow env (ClockCompleted UpdFailed)))) /\
  (exists evs,
     trace (snd r) =
       trace s ++ Called GetProject :: Called UpdFailed
                  :: CleanupTempFiles (_id job) :: evs /\
     Forall (fun e => e = Called OsRemove \/ e = Called DeleteBlob) evs).
Proof.
  intros env job s.
  apply (process_job_project_not_found env job s job); reflexivity.
Defined.

Lemma exists_path_remove_absent (p q : string) (fs : list string) :
  exists_path p fs = false -> exists_path p (remove_path q fs) = false.
Proof.
  intros H. destruct (string_dec p q) as [->|Hne].
  - apply exists_path_removed.
  - now rewrite exists_path_remove.
Qed.

Lemma exists_path_add_other (p q : string) (fs : list string) :
  p <> q -> exists_path p (add_path q fs) = exists_path p fs.
Proof.
  intros Hne. unfold add_path. destruct (exists_path q fs); auto.
  unfold exists_path. rewrite existsb_app. simpl.
  destruct (String.eqb_spec p q); [contradiction|]. now rewrite !orb_false_r.
Qed.

(** The state the guarded [shutil.rmtree] leaves. *)
Lemma rmtree_exact (env : Env) (s : State) :
  try_except (rmtree_if_exists env) (fun _ => ret tt) s =
  (Val tt,
   match output_dir s with
   | Some d =>
       if truthy d && exists_path d (files s) then
         match fault env Rmtree with
         | Some _ => logged (Called Rmtree) s
         | None =>
             set_files (remove_path d (files s)) (logged (Called Rmtree) s)
         end
       else s
   | None => s
   end).
Proof.
  unfold try_except, rmtree_if_exists. rewrite run_get.
  destruct (output_dir s) as [d|]; [|reflexivity].
  unfold when. destruct (truthy d && exists_path d (files s)); [|reflexivity].
  rewrite run_call. destruct (fault env Rmtree); reflexivity.
Qed.

Ltac no_fault_at_all Hall :=
  match goal with
  | H : fault _ _ = Some _ |- _ => rewrite Hall in H; discriminate H
  end.

Ltac exact_step Hall E :=
  first
    [ lazymatch type of E with
      | bind (cleanup_temp_files ?e ?j) ?k ?s = _ =>
          rewrite (run_val _ _ _ _ _ (cleanup_temp_files_exact e j s)) in E
      | try_except (rmtree_if_exists ?e) _ ?s = _ =>
          rewrite (rmtree_exact e s) in E
      end;
      rewrite ?Hall in E; cbv beta iota zeta in E; norm_state_in E
    | exec_step E; try no_fault_at_all Hall ].

(** X24.  When every call returns, [process_job] returns normally and
    leaves: the job [completed], at the step [completed], with the
    message of success and [completed_at] set, an [error_message] of an
    earlier attempt still there; the project with the thumbnail URL, the
    viewer URL and the point count of the metadata (the count it had when
    the metadata gives 0); the input file and the scratch directory gone,
    every other local file as before, and the staging blob gone. *)
Theorem process_job_all_goes_well
    (env : Env) (job : Job) (s : State) (p : Project) (d : Job) :
  (forall c, fault env c = None) ->
  getProject (project_id job) (projectsCollection s) = Some p ->
  get_job (_id job) (jobsCollection s) = Some d ->
  let r := process_job env job s in
  fst r = Val tt /\
  (exists d',
     get_job (_id job) (jobsCollection (snd r)) = Some d' /\
     status d' = "completed" /\ current_step d' = Some "completed" /\
     progress_message d' = Some "Processing completed successfully" /\
     error_message d' = error_message d /\
     updated_at d' = bson_date (utcnow env (ClockUpdated UpdCompleted)) /\
     completed_at d' = Some (bson_date (utcnow env (ClockCompleted UpdCompleted)))) /\
  (exists p',
     getProject (project_id job) (projectsCollection (snd r)) = Some p' /\
     thumbnail p' = Some (thumbnail_sas_url env) /\
     cloud p' = Some (potree_sas_url env) /\
     point_count p' =
       (if md_points (summary env) =? 0 then point_count p
        else Some (md_points (summary env)))) /\
  (truthy (file_path job) = true ->
   exists_path (file_path job) (files (snd r)) = false) /\
  (truthy (mkdtemp env) = true ->
   exists_path (mkdtemp env) (files (snd r)) = false) /\
  (forall q, q <> file_path job -> q <> mkdtemp env ->
     exists_path q (files (snd r)) = exists_path q (files s)) /\
  (truthy (azure_path job) = true ->
   exists_path (azure_path job) (blobs (snd r)) = false).
Proof.
  intros Hall Hp Hjob. cbv zeta. unfold getProject in Hp.
  assert (Hth : thumbnail_ok env = true)
    by (unfold thumbnail_ok; now rewrite !Hall).
  destruct (process_job env job s) as [r s'] eqn:E. cbn [fst snd].
  unfold process_job in E. rewrite run_modify in E. unfold try_except at 1 in E.
  destruct (process_job_try env job (set_output_dir None s))
    as [[[]|msg0] s1] eqn:Etry.
  - unfold process_job_try, db_getProject, _upload_potree_output in Etry.
    repeat (exact_step Hall Etry; try congruence).
    injection Etry as <-. injection E as <- <-.
    rewrite Hth in *.
    injection Hp as ->.
    found_project.
    match goal with
    | |- context [if (truthy (mkdtemp env) && ?x)%bool then _ else _] =>
        remember (truthy (mkdtemp env) && x)%bool as due eqn:Hdue
    end.
    symmetry in Hdue.
    destruct due;
      cbn [self jobsCollection projectsCollection files blobs trace output_dir].
    all: split; [reflexivity|].
    all: split;
      [ unfold get_job in *; unfold_update;
        rewrite !find_one_update_one, Hjob; cbn [option_map];
        eexists; (split; [reflexivity|]); cbn; auto 10 |].
    all: split;
      [ eexists; split;
        [ unfold getProject;
          eapply find_replace_project;
            [|eapply find_replace_project; [|eassumption]];
            project_cases; assumption
        | destruct (md_points (summary env) =? 0);
            destruct (md_center (summary env)) as [[|? ?]|]; cbn; auto ] |].
    all: split;
      [ intros Tf; rewrite Tf; cbn [andb];
        destruct (exists_path (file_path job) (add_path (mkdtemp env) (files s)))
          eqn:Xf;
        repeat first [ apply exists_path_removed
                     | assumption
                     | apply exists_path_remove_absent ] |].
    all: split;
      [ intros Tm; rewrite Tm in Hdue; cbn [andb] in Hdue;
        first [apply exists_path_removed | exact Hdue] |].
    all: split;
      [ intros q Hq1 Hq2;
        repeat match goal with
        | |- context [if ?g then _ else _] => destruct g
        end;
        rewrite ?exists_path_remove by assumption;
        now apply exists_path_add_other
      | intros Ta; rewrite Ta; apply exists_path_removed ].
  - exfalso.
    unfold process_job_try, db_getProject, _upload_potree_output in Etry.
    repeat (exact_step Hall Etry; try congruence).
Qed.

Lemma process_job_all_goes_well_witness :
  let env := example_env 500000 [] in
  let job := example_job "J1" "processing" None 100000 0 in
  let s := example_state (Some 0) [job] in
  let r := process_job env job s in
  fst r = Val tt /\
  (exists d',
     get_job (_id job) (jobsCollection (snd r)) = Some d' /\
     status d' = "completed" /\ current_step d' = Some "completed" /\
     progress_message d' = Some "Processing completed successfully" /\
     error_message d' = error_message job /\
     updated_at d' = bson_date (utcnow env (ClockUpdated UpdCompleted)) /\
     completed_at d' = Some (bson_date (utcnow env (ClockCompleted UpdCompleted)))) /\
  (exists p',
     getProject (project_id job) (projectsCollection (snd r)) = Some p' /\
     thumbnail p' = Some (thumbnail_sas_url env) /\
     cloud p' = Some (potree_sas_url env) /\
     point_count p' =
       (if md_points (summary env) =? 0 then point_count example_project
        else Some (md_points (summary env)))) /\
  (truthy (file_path job) = true ->
   exists_path (file_path job) (files (snd r)) = false) /\
  (truthy (mkdtemp env) = true ->
   exists_path (mkdtemp env) (files (snd r)) = false) /\
  (forall q, q <> file_path job -> q <> mkdtemp env ->
     exists_path q (files (snd r)) = exists_path q (files s)) /\
  (truthy (azure_path job) = true ->
   exists_path (azure_path job) (blobs (snd r)) = false).
Proof.
  intros env job s.
  apply (process_job_all_goes_well env job s example_project job).
  - intros c. reflexivity.
  - reflexivity.
  - reflexivity.
Defined.

Lemma accepted_steps_app (env : Env) (a b : list Event) :
  accepted_steps env (a ++ b) = accepted_steps env a ++ accepted_steps env b.
Proof.
  induction a as [|[c| |] r IH]; cbn [app accepted_steps]; auto.
  destruct (step_of c); auto. destruct (fault env c); auto.
  cbn [app]. now rewrite IH.
Qed.

Lemma accepted_steps_of_two (env : Env) (a b : Call) (evs : list Event) :
  Forall (fun e => e = Called a \/ e = Called b) evs ->
  step_of a = None -> step_of b = None ->
  accepted_steps env evs = [].
Proof.
  intros H Ha Hb. induction H as [|e r [->| ->] Hr IH]; cbn [accepted_steps]; auto.
  - now rewrite Ha.
  - now rewrite Hb.
Qed.

Lemma accepted_steps_upload_events (env : Env) (k n : nat) :
  accepted_steps env (upload_events k n) = [].
Proof.
  unfold upload_events. revert k. induction n as [|n IH]; intros k; cbn; auto.
Qed.

Ltac steps_norm :=
  repeat progress
    (cbn [accepted_steps step_of app];
     try rewrite accepted_steps_app;
     try rewrite accepted_steps_upload_events;
     try match goal with
         | H : Forall (fun e => e = Called ?a \/ e = Called ?b) ?evs
           |- context [accepted_steps ?env ?evs] =>
             rewrite (accepted_steps_of_two env a b evs H eq_refl eq_refl)
         end;
     try match goal with
         | H : fault ?e ?c = _ |- context [fault ?e ?c] => rewrite H
         end;
     try match goal with
         | |- context [accepted_steps _ (if ?c then _ else _)] => destruct c
         end).

Ltac steps_leaf Hjob :=
  unfold get_job in *; unfold_update;
  rewrite ?find_one_update_one, Hjob; cbn [option_map];
  eexists; eexists; (split; [reflexivity|]); (split; [reflexivity|]);
  split; [cbn; auto|];
  split; [cbn; discriminate|];
  split;
  [ steps_norm; reflexivity
  | cbn; intros Hs; first [discriminate Hs | split; [discriminate | reflexivity]] ].

(** X25.  No job is left half-way: when the status update of
    [mark_failed] is accepted, [process_job] leaves its job [completed] or
    [failed], whatever raised in the pipeline, with [completed_at] set;
    the [current_step] it shows is that of the last step update the
    database accepted (the step during which the exception was raised,
    for a job that failed), the one it had before if none was; and a job
    left [failed] has an [error_message] and the progress message of the
    failure. *)
Theorem process_job_ends_completed_or_failed
    (env : Env) (job : Job) (s : State) (d : Job) :
  fault env UpdFailed = None ->
  get_job (_id job) (jobsCollection s) = Some d ->
  exists d' evs,
    get_job (_id job) (jobsCollection (snd (process_job env job s))) = Some d' /\
    trace (snd (process_job env job s)) = trace s ++ evs /\
    (status d' = "completed" \/ status d' = "failed") /\
    completed_at d' <> None /\
    current_step d' =
      last (map Some (accepted_steps env evs)) (current_step d) /\
    (status d' = "failed" ->
     error_message d' <> None /\
     progress_message d' = Some "Processing failed").
Proof.
  intros Ff Hjob.
  destruct (process_job env job s) as [r s'] eqn:E. cbn [fst snd].
  unfold process_job in E. rewrite run_modify in E. unfold try_except at 1 in E.
  destruct (process_job_try env job (set_output_dir None s))
    as [[[]|msg0] s1] eqn:Etry.
  - exec Etry; try discriminate Etry.
    all: injection Etry as <-; injection E as <- <-.
    all: leaf_store.
    all: steps_leaf Hjob.
  - exec Etry; try discriminate Etry.
    all: injection Etry as <- <-.
    all: exec E; try congruence.
    all: injection E as <- <-.
    all: leaf_store.
    all: steps_leaf Hjob.
Qed.

Lemma process_job_ends_completed_or_failed_witness :
  let env := example_env 500000 [(Convert, "PotreeConverter exited with 1")] in
  let job := example_job "J1" "processing" None 100000 0 in
  let s := example_state (Some 0) [job] in
  exists d' evs,
    get_job (_id job) (jobsCollection (snd (process_job env job s))) = Some d' /\
    trace (snd (process_job env job s)) = trace s ++ evs /\
    (status d' = "completed" \/ status d' = "failed") /\
    completed_at d' <> None /\
    current_step d' =
      last (map Some (accepted_steps env evs)) (current_step job) /\
    (status d' = "failed" ->
     error_message d' <> None /\
     progress_message d' = Some "Processing failed").
Proof.
  intros env job s.
  apply (process_job_ends_completed_or_failed env job s job); reflexivity.
Defined.

(** ** routes/projects.py: parse_tags *)

Lemma lstrip_suffix (s : str.text) : exists pre, s = pre ++ str.lstrip s.
Proof.
  induction s as [|c r [pre IH]]; cbn [str.lstrip].
  - exists []. reflexivity.
  - destruct (str.isspace c).
    + exists (c :: pre). cbn. now f_equal.
    + exists []. reflexivity.
Qed.

Lemma lstrip_head (s : str.text) :
  match str.lstrip s with
  | [] => True
  | c :: _ => str.isspace c = false
  end.
Proof.
  induction s as [|c r IH]; cbn [str.lstrip]; auto.
  destruct (str.isspace c) eqn:E; auto.
Qed.

Lemma lstrip_fixed (s : str.text) :
  match s with [] => True | c :: _ => str.isspace c = false end ->
  str.lstrip s = s.
Proof. destruct s as [|c r]; cbn [str.lstrip]; auto. now intros ->. Qed.

Lemma lstrip_idem (s : str.text) : str.lstrip (str.lstrip s) = str.lstrip s.
Proof. apply lstrip_fixed, lstrip_head. Qed.

Lemma rstrip_prefix (s : str.text) : exists post, s = str.rstrip s ++ post.
Proof.
  unfold str.rstrip. destruct (lstrip_suffix (rev s)) as [pre H].
  exists (rev pre). rewrite <- rev_app_distr, <- H. now rewrite rev_involutive.
Qed.

Lemma strip_idem (s : str.text) : str.strip (str.strip s) = str.strip s.
Proof.
  unfold str.strip.
  assert (Hl : str.lstrip (str.rstrip (str.lstrip s)) = str.rstrip (str.lstrip s)).
  { apply lstrip_fixed.
    destruct (rstrip_prefix (str.lstrip s)) as [post H].
    pose proof (lstrip_head s) as Hh.
    destruct (str.rstrip (str.lstrip s)) as [|c r]; auto.
    rewrite H in Hh. exact Hh. }
  rewrite Hl. unfold str.rstrip. now rewrite rev_involutive, lstrip_idem.
Qed.

Lemma strip_incl (s : str.text) (c : N) : In c (str.strip s) -> In c s.
Proof.
  unfold str.strip. intros H.
  destruct (rstrip_prefix (str.lstrip s)) as [post Hp].
  destruct (lstrip_suffix s) as [pre Hs].
  rewrite Hs. apply in_or_app. right. rewrite Hp. apply in_or_app. now left.
Qed.

Lemma strip_spaces (s : str.text) :
  Forall (fun c => str.isspace c = true) s -> str.strip s = [].
Proof.
  intros H. unfold str.strip.
  assert (Hl : str.lstrip s = []).
  { induction H as [|c r Hc Hr IH]; cbn [str.lstrip]; auto. now rewrite Hc. }
  rewrite Hl. reflexivity.
Qed.

Lemma split_no_sep (sep : N) (s : str.text) (t : str.text) :
  In t (str.split sep s) -> ~ In sep t.
Proof.
  revert t. induction s as [|c r IH]; intros t; cbn [str.split].
  - intros [<-|[]] [].
  - destruct (N.eqb_spec c sep) as [->|Hne].
    + intros [<-|H]; [intros [] | now apply IH].
    + destruct (str.split sep r) as [|h tl] eqn:E.
      * intros [<-|[]] [H|[]]. congruence.
      * intros [<-|H].
        -- intros [Hc|Hc]; [congruence|]. apply (IH h); [now left | exact Hc].
        -- apply IH. now right.
Qed.

Lemma stripped_nonempty_clean (l : list str.text) (t : str.text) :
  In t (routes_projects.stripped_nonempty l) ->
  t <> [] /\ str.strip t = t /\ exists u, In u l /\ t = str.strip u.
Proof.
  unfold routes_projects.stripped_nonempty. intros H. apply filter_In in H.
  destruct H as [H1 H2]. apply in_map_iff in H1. destruct H1 as [u [<- Hu]].
  split; [|split].
  - intros E. rewrite E in H2. discriminate.
  - apply strip_idem.
  - eauto.
Qed.

(** X26.  [parse_tags] returns clean tags whichever form the input has:
    every tag is non-empty and has no whitespace at either end; [None],
    the empty string and a string of whitespace give no tag; and when the
    input is not read as a JSON list (it is not in square brackets, or
    [json.loads] raises) the tags are the pieces between the commas,
    stripped, the empty ones dropped, so that no tag contains a comma. *)
Theorem parse_tags_clean (json_loads : str.text -> option (list str.text)) :
  (forall raw t, In t (routes_projects.parse_tags json_loads raw) ->
     t <> [] /\ str.strip t = t) /\
  routes_projects.parse_tags json_loads None = [] /\
  (forall raw, Forall (fun c => str.isspace c = true) raw ->
     routes_projects.parse_tags json_loads (Some raw) = []) /\
  (forall raw,
     json_loads (str.strip raw) = None \/
     str.startswith 91 (str.strip raw) && str.endswith 93 (str.strip raw) = false ->
     routes_projects.parse_tags json_loads (Some raw) =
       routes_projects.stripped_nonempty (str.split 44 (str.strip raw)) /\
     forall t, In t (routes_projects.parse_tags json_loads (Some raw)) -> ~ In 44%N t).
Proof.
  split; [|split; [reflexivity|split]].
  - intros [[|c r]|] t; cbn [routes_projects.parse_tags]; try (intros []).
    cbv zeta.
    destruct (str.startswith 91 _ && str.endswith 93 _);
      [destruct (json_loads _)|];
      intros H; apply stripped_nonempty_clean in H; tauto.
  - intros [|c r] H; [reflexivity|]. cbn [routes_projects.parse_tags]. cbv zeta.
    rewrite (strip_spaces _ H). reflexivity.
  - intros raw H.
    assert (E : routes_projects.parse_tags json_loads (Some raw) =
                routes_projects.stripped_nonempty (str.split 44 (str.strip raw))).
    { destruct raw as [|c r]; [reflexivity|].
      cbn [routes_projects.parse_tags]. cbv zeta.
      destruct H as [H|H]; rewrite H; [|reflexivity].
      now destruct (str.startswith 91 _ && str.endswith 93 _). }
    split; [exact E|]. rewrite E. intros t Ht.
    apply stripped_nonempty_clean in Ht.
    destruct Ht as (_ & _ & u & Hu & ->).
    intros Hc. apply strip_incl in Hc.
    now apply (split_no_sep 44%N (str.strip raw) u).
Qed.

(** ** worker.py: jobs the worker has let go of *)

Lemma get_job_of_in (c : Collection) (d : Job) :
  NoDup (map _id c) -> In d c -> get_job (_id d) c = Some d.
Proof.
  unfold get_job, find_one. induction c as [|x r IH]; cbn [map find In].
  - intros _ [].
  - intros Hn Hd. inversion Hn as [|? ? Hx Hr]; subst.
    unfold has_id at 1. destruct (String.eqb_spec (_id x) (_id d)) as [He|He].
    + destruct Hd as [->|Hd]; [reflexivity|].
      exfalso. apply Hx. rewrite He. now apply in_map.
    + destruct Hd as [->|Hd]; [congruence|]. now apply IH.
Qed.

Lemma sweep_cases (env : Env) (force : bool) (s : State) (d : Job) :
  NoDup (map _id (jobsCollection s)) -> In d (jobsCollection s) ->
  let s1 := snd (_check_and_run_cleanup env force s) in
  NoDup (map _id (jobsCollection s1)) /\
  incl (map _id (jobsCollection s1)) (map _id (jobsCollection s)) /\
  (In d (jobsCollection s1) \/
   created_at d < utcnow env (ClockPurge force) - timedelta_hours 72 /\
   ~ In (_id d) (map _id (jobsCollection s1))).
Proof.
  intros Hn Hd. cbv zeta. rewrite _check_and_run_cleanup_run. cbn [snd].
  destruct (cleanup_due _ _); [destruct (fault env CleanupOldJobs)|];
    cbn [jobsCollection logged set_trace];
    try (split; [exact Hn|]; split; [apply incl_refl | now left]).
  unfold cleanup_old_jobs, delete_many. cbn [fst].
  set (f := fun x : Job => negb (created_at x <? _)).
  split; [now apply NoDup_map_filter|]. split.
  - intros i Hi. apply in_map_iff in Hi. destruct Hi as (x & <- & Hx).
    apply filter_In in Hx. apply in_map. apply Hx.
  - destruct (f d) eqn:Fd.
    + left. apply filter_In. auto.
    + right. unfold f in Fd. apply negb_false_iff, Z.ltb_lt in Fd.
      split; [pose proof (bson_date_le (utcnow env (ClockPurge force)
                                          - timedelta_hours 72)); lia|].
      intros Hi. apply in_map_iff in Hi.
      destruct Hi as (x & Hid & Hx). apply filter_In in Hx.
      destruct Hx as [Hx Fx].
      assert (x = d).
      { pose proof (get_job_of_in _ _ Hn Hd) as H2.
        pose proof (get_job_of_in _ _ Hn Hx) as H1.
        rewrite Hid in H1. congruence. }
      subst x. unfold f in Fx. apply negb_true_iff, Z.ltb_ge in Fx. lia.
Qed.

Lemma get_next_job_others (env : Env) (s : State) (d : Job) :
  NoDup (map _id (jobsCollection s)) -> In d (jobsCollection s) ->
  status d <> "pending" ->
  In d (jobsCollection (snd (get_next_job env s))) /\
  map _id (jobsCollection (snd (get_next_job env s))) = map _id (jobsCollection s) /\
  (forall j, fst (get_next_job env s) = Val (Some j) -> _id j <> _id d).
Proof.
  intros Hn Hd Hs.
  destruct (fault env FindOneAndUpdate) as [msg|] eqn:F.
  { rewrite (get_next_job_unanswered env s msg F). cbn.
    split; auto. split; auto. discriminate. }
  rewrite (get_next_job_answered env s F). cbn [fst snd].
  unfold find_one_and_update.
  destruct (select_first _ _ _) as [[[pre m] post]|] eqn:E; cbn.
  2: { split; auto. split; auto. discriminate. }
  destruct (select_first_some _ _ _ _ _ _ E) as (Hc & Hm & _).
  apply has_status_true in Hm.
  assert (Hdm : _id m <> _id d).
  { intros Hid. rewrite Hc in Hn, Hd.
    rewrite (unique_by_id pre post m d Hn Hd (eq_sym Hid)) in Hs. contradiction. }
  split; [|split].
  - rewrite Hc in Hd. apply in_app_or in Hd. apply in_or_app.
    destruct Hd as [Hd|[Hd|Hd]]; [now left | congruence | right; now right].
  - rewrite Hc, !map_app. reflexivity.
  - intros j [= <-]. exact Hdm.
Qed.

(** X27.  The worker picks up pending jobs only.  A job that is stored
    with another status (a finished job, but also a job left in
    [processing] by a worker that died) is not touched by a turn of the
    loop: ids being unique, after the turn the job is there exactly as it
    was, or it has been swept away, which happens only to a job created
    more than 72 hours before one of the two sweeps of the turn.  Failed
    jobs are not retried, and jobs stuck in [processing] are not resumed. *)
Theorem loop_body_leaves_other_jobs (env : Env) (s : State) (d : Job) :
  NoDup (map _id (jobsCollection s)) ->
  In d (jobsCollection s) ->
  status d <> "pending" ->
  let s' := snd (loop_body env s) in
  In d (jobsCollection s') \/
  (~ In (_id d) (map _id (jobsCollection s')) /\
   (created_at d < utcnow env (ClockPurge false) - timedelta_hours 72 \/
    created_at d < utcnow env (ClockPurge true) - timedelta_hours 72)).
Proof.
  intros Hn Hd Hs. cbv zeta. rewrite loop_body_run.
  destruct (sweep_cases env false s d Hn Hd) as (Hn1 & Hsub1 & Hd1).
  set (s1 := snd (_check_and_run_cleanup env false s)) in *.
  assert (Hids : incl (map _id (jobsCollection (loop_rest env s1)))
                      (map _id (jobsCollection s1))).
  { unfold loop_rest.
    assert (Hg : map _id (jobsCollection (snd (get_next_job env s1))) =
                 map _id (jobsCollection s1)).
    { destruct (fault env FindOneAndUpdate) as [msg|] eqn:F.
      - now rewrite (get_next_job_unanswered env s1 msg F).
      - rewrite (get_next_job_answered env s1 F). cbn [snd].
        unfold find_one_and_update.
        destruct (select_first _ _ _) as [[[pre m] post]|] eqn:E; cbn; auto.
        destruct (select_first_some _ _ _ _ _ _ E) as (Hc & _).
        rewrite Hc, !map_app. reflexivity. }
    destruct (fst (get_next_job env s1)) as [[j|]|msg];
      try (rewrite time_sleep_jobs, Hg; apply incl_refl).
    destruct (process_job_facts env j (snd (get_next_job env s1)))
      as (_ & Hp & _).
    destruct (fst (process_job env j (snd (get_next_job env s1)))).
    - intros i Hi.
      rewrite <- Hg, <- Hp.
      revert i Hi.
      rewrite _check_and_run_cleanup_run. cbn [snd].
      destruct (cleanup_due _ _); [destruct (fault env CleanupOldJobs)|];
        cbn [jobsCollection logged set_trace]; try apply incl_refl.
      unfold cleanup_old_jobs, delete_many. cbn [fst].
      intros i Hi. apply in_map_iff in Hi. destruct Hi as (x & <- & Hx).
      apply filter_In in Hx. apply in_map. apply Hx.
    - rewrite time_sleep_jobs, Hp, Hg. apply incl_refl. }
  destruct Hd1 as [Hd1|[Hold Hgone]].
  2: { right. split; [|now left]. intros Hi. apply Hgone. now apply Hids. }
  unfold loop_rest.
  destruct (get_next_job_others env s1 d Hn1 Hd1 Hs) as (Hd2 & Hg & Hj).
  set (s2 := snd (get_next_job env s1)) in *.
  assert (Hn2 : NoDup (map _id (jobsCollection s2))) by now rewrite Hg.
  destruct (fst (get_next_job env s1)) as [[j|]|msg]; try (left; rewrite time_sleep_jobs; exact Hd2).
  destruct (process_job_stores env j s2) as (Hother & _).
  destruct (process_job_facts env j s2) as (_ & Hp & _).
  set (s3 := snd (process_job env j s2)) in *.
  assert (Hd3 : In d (jobsCollection s3)).
  { assert (H : get_job (_id d) (jobsCollection s3) = Some d).
    { rewrite Hother; [now apply get_job_of_in|].
      intros E. apply (Hj j eq_refl). now symmetry. }
    apply get_job_id in H. apply H. }
  assert (Hn3 : NoDup (map _id (jobsCollection s3))) by now rewrite Hp.
  destruct (fst (process_job env j s2)).
  - destruct (sweep_cases env true s3 d Hn3 Hd3) as (_ & _ & [H|[Hold Hgone]]).
    + now left.
    + right. split; [exact Hgone | now right].
  - left. rewrite time_sleep_jobs. exact Hd3.
Qed.

Lemma loop_body_leaves_other_jobs_witness :
  let env := example_env 500000 [] in
  let failed := example_job "J0" "failed" (Some "conversion") 50000 90000 in
  let s := example_state (Some 0) [failed; example_job "J1" "pending" None 100000 0] in
  let s' := snd (loop_body env s) in
  In failed (jobsCollection s') \/
  (~ In (_id failed) (map _id (jobsCollection s')) /\
   (created_at failed < utcnow env (ClockPurge false) - timedelta_hours 72 \/
    created_at failed < utcnow env (ClockPurge true) - timedelta_hours 72)).
Proof.
  intros env failed s.
  apply (loop_body_leaves_other_jobs env s failed).
  - repeat constructor; cbn; intuition discriminate.
  - left. reflexivity.
  - discriminate.
Defined.
